(** * Drift detection between observed and declared EC2 configurations

    A shallow embedding of the two comparison engines of the repository:

    - [detector]  : package [internal/detector] ([Detector.DetectDrift] and
      its reflective helpers [compareStruct], [compareMaps],
      [compareSlices], [compareStructSlices]);
    - [services]  : package [domain/services] ([DefaultDetectionService],
      [DriftDetector.CompareInstances] and its helpers);

    together with the data they walk ([internal/models], [domain/models])
    and the fragment of Go's [reflect] package they call. *)

From Stdlib Require Import Ascii String.
From stdpp Require Import base option list gmap strings pretty.

Set Warnings "-register-all,-clear-no-such-hyp".


(** ** Outcomes of a Go call

    A call either returns, or panics (a run-time error of [reflect] or a
    nil dereference).  [OutOfFuel] belongs to the embedding only: the
    recursive comparators are defined with a recursion budget. *)

Inductive outcome (A : Type) : Type :=
| Ok (a : A)
| Panic
| OutOfFuel.
Arguments Ok {A} a.
Arguments Panic {A}.
Arguments OutOfFuel {A}.

#[global] Instance outcome_ret : MRet outcome := λ A a, Ok a.
#[global] Instance outcome_bind : MBind outcome := λ A B f m,
  match m with
  | Ok a => f a
  | Panic => Panic
  | OutOfFuel => OutOfFuel
  end.

(** The comparators only ever append to [report.Drifts]; each is modelled
    by the sequence of records it appends, in order.  [andThen] runs two
    such steps one after the other, [forEach] is a [for ... range] loop
    whose body appends. *)

Definition andThen {D : Type} (m1 m2 : outcome (list D)) : outcome (list D) :=
  ds1 ← m1; ds2 ← m2; Ok (ds1 ++ ds2).

Definition forEach {X D : Type} (body : X → outcome (list D)) (xs : list X)
  : outcome (list D) :=
  foldr (λ x rest, andThen (body x) rest) (Ok []) xs.

(** ** The fragment of [reflect] used by the comparators *)

Module reflect.

(** Go types that occur in the compared models. [TMap] is
    [map[string]string], the only map type of [InstanceConfig] and
    [Instance]. *)
Inductive gotype : Type :=
| TBool
| TInt
| TString
| TPtr (elem : gotype)
| TSlice (elem : gotype)
| TMap
| TStruct (name : string).

#[global] Instance gotype_eq_dec : EqDecision gotype.
Proof. solve_decision. Defined.

(** A [reflect.Value]: [Invalid] is the zero Value; pointers and slices
    carry their element type, since a nil pointer or slice still has a
    dynamic type; [None] is the nil pointer, nil map or nil slice.  Struct
    fields are listed in declaration order.  Go's [int] is 64 bits wide;
    no arithmetic is done on it here, so it is kept as an integer. *)
Inductive value : Type :=
| Invalid
| VBool (b : bool)
| VInt (n : Z)
| VString (s : string)
| VPtr (elem : gotype) (target : option value)
| VStruct (name : string) (fields : list (string * value))
| VMap (m : option (gmap string string))
| VSlice (elem : gotype) (items : option (list value)).

Inductive Kind : Type :=
| KInvalid | KBool | KInt | KString | KPtr | KStruct | KMap | KSlice.

#[global] Instance Kind_eq_dec : EqDecision Kind.
Proof. solve_decision. Defined.

Definition kind (v : value) : Kind :=
  match v with
  | Invalid => KInvalid
  | VBool _ => KBool
  | VInt _ => KInt
  | VString _ => KString
  | VPtr _ _ => KPtr
  | VStruct _ _ => KStruct
  | VMap _ => KMap
  | VSlice _ _ => KSlice
  end.

Definition IsValid (v : value) : bool :=
  match v with Invalid => false | _ => true end.

(** [v.Interface()]: panics on the zero Value.  Every value reached by the
    comparators comes from an exported field, so [CanInterface] holds for
    all valid values. *)
Definition Interface (v : value) : outcome value :=
  match v with Invalid => Panic | _ => Ok v end.

(** [if v.Kind() == reflect.Ptr { v = v.Elem() }]: [Elem] of a nil
    pointer is the zero Value. *)
Definition deref (v : value) : value :=
  match v with
  | VPtr _ (Some x) => x
  | VPtr _ None => Invalid
  | _ => v
  end.

Definition IsNil (v : value) : outcome bool :=
  match v with
  | VPtr _ p => Ok (bool_decide (p = None))
  | VMap m => Ok (bool_decide (m = None))
  | VSlice _ l => Ok (bool_decide (l = None))
  | _ => Panic
  end.

Definition Len (v : value) : outcome nat :=
  match v with
  | VSlice _ l => Ok (length (default [] l))
  | VMap m => Ok (size (default ∅ m))
  | VString s => Ok (String.length s)
  | _ => Panic
  end.

Definition Index (v : value) (i : nat) : outcome value :=
  match v with
  | VSlice _ l =>
      match default [] l !! i with Some x => Ok x | None => Panic end
  | _ => Panic
  end.

(** The elements [v.Index(0)], ..., [v.Index(v.Len()-1)] of a slice. *)
Definition Items (v : value) : outcome (list value) :=
  match v with VSlice _ l => Ok (default [] l) | _ => Panic end.

Definition Fields (v : value) : outcome (list (string * value)) :=
  match v with VStruct _ fs => Ok fs | _ => Panic end.

Definition NumField (v : value) : outcome nat :=
  fs ← Fields v; Ok (length fs).

Definition Field (v : value) (i : nat) : outcome value :=
  fs ← Fields v;
  match fs !! i with Some (_, x) => Ok x | None => Panic end.

(** [v.FieldByName(name)]: the zero Value when there is no such field. *)
Fixpoint fieldNamed (name : string) (fs : list (string * value))
  : option value :=
  match fs with
  | [] => None
  | (f, x) :: r => if decide (f = name) then Some x else fieldNamed name r
  end.

Definition FieldByName (v : value) (name : string) : outcome value :=
  fs ← Fields v; Ok (default Invalid (fieldNamed name fs)).

(** A field is exported when its name starts with an upper-case letter. *)
Definition exported (name : string) : bool :=
  match name with
  | String c _ =>
      let n := Ascii.nat_of_ascii c in bool_decide (65 ≤ n ≤ 90)
  | EmptyString => false
  end.

(** Go leaves the iteration order of [range] over a map and of [MapKeys]
    unspecified.  The order chosen by the run time is an explicit input of
    the model: a rearrangement of the keys. *)
Record MapOrder : Type := {
  visit : list string → list string;
  visit_perm : ∀ ks, visit ks ≡ₚ ks
}.

Definition rangeMap {V : Type} (ord : MapOrder) (m : gmap string V)
  : list (string * V) :=
  omap (λ k, (k,.) <$> m !! k) (visit ord (map_to_list m).*1).

(** [v.MapKeys()] and [v.MapIndex(key)]; a nil map has no keys, and
    [MapIndex] is the zero Value for a key that is not there. *)
Definition MapKeys (ord : MapOrder) (v : value) : outcome (list string) :=
  match v with
  | VMap m => Ok (rangeMap ord (default ∅ m)).*1
  | _ => Panic
  end.

Definition MapIndex (v : value) (key : string) : outcome value :=
  match v with
  | VMap m => Ok (default Invalid (VString <$> default ∅ m !! key))
  | _ => Panic
  end.

(** [reflect.DeepEqual].  Values are trees here, so two pointers are
    deeply equal exactly when both are nil or their targets are. *)
Fixpoint deepValueEqual (x y : value) {struct x} : bool :=
  match x, y with
  | Invalid, Invalid => true
  | VBool a, VBool b => bool_decide (a = b)
  | VInt a, VInt b => bool_decide (a = b)
  | VString a, VString b => bool_decide (a = b)
  | VPtr t p, VPtr t' p' =>
      bool_decide (t = t') &&
      match p, p' with
      | None, None => true
      | Some a, Some b => deepValueEqual a b
      | _, _ => false
      end
  | VStruct n fs, VStruct n' fs' =>
      bool_decide (n = n') &&
      (fix fields (fs fs' : list (string * value)) : bool :=
         match fs, fs' with
         | [], [] => true
         | (f, a) :: r, (f', b) :: r' =>
             bool_decide (f = f') && deepValueEqual a b && fields r r'
         | _, _ => false
         end) fs fs'
  | VMap m, VMap m' => bool_decide (m = m')
  | VSlice t l, VSlice t' l' =>
      bool_decide (t = t') &&
      match l, l' with
      | None, None => true
      | Some a, Some b =>
          (fix items (a b : list value) : bool :=
             match a, b with
             | [], [] => true
             | x :: r, y :: r' => deepValueEqual x y && items r r'
             | _, _ => false
             end) a b
      | _, _ => false
      end
  | _, _ => false
  end.

(** The arguments of [DeepEqual] are [interface{}] values: [None] is the
    nil interface. *)
Definition DeepEqual (x y : option value) : bool :=
  match x, y with
  | None, None => true
  | Some a, Some b => deepValueEqual a b
  | _, _ => false
  end.

(** Nesting depth of a value: the recursion budget a comparator needs. *)
Fixpoint height (v : value) : nat :=
  match v with
  | VPtr _ (Some x) => S (height x)
  | VStruct _ fs =>
      S ((fix fields (fs : list (string * value)) : nat :=
            match fs with
            | [] => 0
            | (_, x) :: r => height x `max` fields r
            end) fs)
  | VSlice _ (Some l) =>
      S ((fix items (l : list value) : nat :=
            match l with
            | [] => 0
            | x :: r => height x `max` items r
            end) l)
  | _ => 0
  end.

(** Typing of values against the struct declarations [decls].  Pointers
    in the models point to scalars and structs only. *)
Definition pointee (t : gotype) : bool :=
  match t with
  | TBool | TInt | TString | TStruct _ => true
  | _ => false
  end.

Fixpoint has_type (decls : string → list (string * gotype))
    (t : gotype) (v : value) {struct v} : bool :=
  match v, t with
  | VBool _, TBool => true
  | VInt _, TInt => true
  | VString _, TString => true
  | VPtr t' p, TPtr t0 =>
      bool_decide (t' = t0) && pointee t0 &&
      match p with None => true | Some x => has_type decls t0 x end
  | VStruct n fs, TStruct n0 =>
      bool_decide (n = n0) &&
      (fix fields (fs : list (string * value))
                  (ds : list (string * gotype)) : bool :=
         match fs, ds with
         | [], [] => true
         | (f, x) :: r, (g, tg) :: r' =>
             bool_decide (f = g) && has_type decls tg x && fields r r'
         | _, _ => false
         end) fs (decls n)
  | VMap _, TMap => true
  | VSlice t' l, TSlice t0 =>
      bool_decide (t' = t0) &&
      match l with
      | None => true
      | Some xs => forallb (has_type decls t0) xs
      end
  | _, _ => false
  end.

End reflect.

(** The [%v] verb of Go's [fmt] package, applied to an [interface{}]
    argument.  It prints run-time addresses for nested pointers, so it is
    an input of the model rather than a function defined here. *)
Record Formatter : Type := { verb_v : option reflect.value → string }.

(** ** Package [internal/models]: the configuration compared by [detector]

    One module per struct, so that fields keep their Go names.  A pointer
    field is an [option] ([None] is nil); a map or slice field is an
    [option] too, the zero value of both being nil. *)

Module models.
Import reflect.

Module SecurityGroup.
Record t : Type := { GroupID : string; GroupName : string }.
End SecurityGroup.

Module CreditSpecification.
Record t : Type := { CPUCredits : string }.
End CreditSpecification.

Module HibernationOptions.
Record t : Type := { Configured : bool }.
End HibernationOptions.

Module EnclaveOptions.
Record t : Type := { Enabled : bool }.
End EnclaveOptions.

Module MetadataOptions.
Record t : Type := {
  HTTPEndpoint : string;
  HTTPTokens : string;
  HTTPPutResponseHopLimit : option Z;
  InstanceMetadataTags : string
}.
End MetadataOptions.

Module LaunchTemplateSpecification.
Record t : Type := { ID : string; Name : string; Version : string }.
End LaunchTemplateSpecification.

Module Timeouts.
Record t : Type := { Create : string; Update : string; Delete : string }.
End Timeouts.

Module EBSBlockDevice.
Record t : Type := {
  DeviceName : string;
  SnapshotID : string;
  VolumeType : string;
  VolumeSize : option Z;
  Iops : option Z;
  DeleteOnTermination : option bool;
  Encrypted : option bool;
  KMSKeyID : string;
  Throughput : option Z
}.
End EBSBlockDevice.

Module EphemeralBlockDevice.
Record t : Type := {
  DeviceName : string;
  NoDevice : option bool;
  VirtualName : string
}.
End EphemeralBlockDevice.

Module NetworkInterface.
Record t : Type := {
  DeviceIndex : Z;
  NetworkInterfaceID : string;
  DeleteOnTermination : option bool;
  NetworkCardIndex : Z
}.
End NetworkInterface.

Module InstanceConfig.
Record t : Type := {
  (* Basic instance information *)
  InstanceID : string;
  InstanceType : string;
  AMI : string;
  KeyName : string;
  Tags : option (gmap string string);
  (* Networking *)
  VPCID : string;
  SubnetID : string;
  SecurityGroups : option (list SecurityGroup.t);
  PublicIPAddress : string;
  PrivateIPAddress : string;
  AssociatePublicIPAddress : option bool;
  SourceDestCheck : option bool;
  PrivateDNSName : string;
  PublicDNSName : string;
  (* Storage *)
  RootVolumeSize : Z;
  RootVolumeType : string;
  RootVolumeIops : Z;
  RootVolumeThroughput : Z;
  RootVolumeEncrypted : option bool;
  RootVolumeKMSKeyID : string;
  EBSOptimized : option bool;
  (* IAM and Monitoring *)
  IAMInstanceProfile : string;
  Monitoring : option bool;
  (* Placement *)
  AvailabilityZone : string;
  Tenancy : string;
  HostID : string;
  PlacementGroup : string;
  (* CPU and Credits *)
  CPUCoreCount : option Z;
  CPUThreadsPerCore : option Z;
  CreditSpecification : option CreditSpecification.t;
  (* Hibernation and Enclave *)
  Hibernation : option HibernationOptions.t;
  EnclaveOptions : option EnclaveOptions.t;
  (* Metadata and User Data *)
  UserData : string;
  MetadataOptions : option MetadataOptions.t;
  (* Additional Configurations *)
  DisableAPITermination : option bool;
  InstanceInitiatedShutdownBehavior : string;
  (* Launch Template *)
  LaunchTemplate : option LaunchTemplateSpecification.t;
  (* Timeouts *)
  Timeouts : option Timeouts.t;
  (* Additional fields *)
  EBSBlockDevices : option (list (option EBSBlockDevice.t));
  EphemeralBlockDevices : option (list (option EphemeralBlockDevice.t));
  NetworkInterfaces : option (list (option NetworkInterface.t))
}.
End InstanceConfig.

(** The struct declarations, as [reflect] sees them. *)
Definition fieldsOf (name : string) : list (string * gotype) :=
  if decide (name = "SecurityGroup") then
    [("GroupID", TString); ("GroupName", TString)]
  else if decide (name = "CreditSpecification") then
    [("CPUCredits", TString)]
  else if decide (name = "HibernationOptions") then
    [("Configured", TBool)]
  else if decide (name = "EnclaveOptions") then
    [("Enabled", TBool)]
  else if decide (name = "MetadataOptions") then
    [("HTTPEndpoint", TString); ("HTTPTokens", TString);
     ("HTTPPutResponseHopLimit", TPtr TInt);
     ("InstanceMetadataTags", TString)]
  else if decide (name = "LaunchTemplateSpecification") then
    [("ID", TString); ("Name", TString); ("Version", TString)]
  else if decide (name = "Timeouts") then
    [("Create", TString); ("Update", TString); ("Delete", TString)]
  else if decide (name = "EBSBlockDevice") then
    [("DeviceName", TString); ("SnapshotID", TString);
     ("VolumeType", TString); ("VolumeSize", TPtr TInt);
     ("Iops", TPtr TInt); ("DeleteOnTermination", TPtr TBool);
     ("Encrypted", TPtr TBool); ("KMSKeyID", TString);
     ("Throughput", TPtr TInt)]
  else if decide (name = "EphemeralBlockDevice") then
    [("DeviceName", TString); ("NoDevice", TPtr TBool);
     ("VirtualName", TString)]
  else if decide (name = "NetworkInterface") then
    [("DeviceIndex", TInt); ("NetworkInterfaceID", TString);
     ("DeleteOnTermination", TPtr TBool); ("NetworkCardIndex", TInt)]
  else if decide (name = "InstanceConfig") then
    [("InstanceID", TString); ("InstanceType", TString); ("AMI", TString);
     ("KeyName", TString); ("Tags", TMap);
     ("VPCID", TString); ("SubnetID", TString);
     ("SecurityGroups", TSlice (TStruct "SecurityGroup"));
     ("PublicIPAddress", TString); ("PrivateIPAddress", TString);
     ("AssociatePublicIPAddress", TPtr TBool);
     ("SourceDestCheck", TPtr TBool);
     ("PrivateDNSName", TString); ("PublicDNSName", TString);
     ("RootVolumeSize", TInt); ("RootVolumeType", TString);
     ("RootVolumeIops", TInt); ("RootVolumeThroughput", TInt);
     ("RootVolumeEncrypted", TPtr TBool); ("RootVolumeKMSKeyID", TString);
     ("EBSOptimized", TPtr TBool);
     ("IAMInstanceProfile", TString); ("Monitoring", TPtr TBool);
     ("AvailabilityZone", TString); ("Tenancy", TString);
     ("HostID", TString); ("PlacementGroup", TString);
     ("CPUCoreCount", TPtr TInt); ("CPUThreadsPerCore", TPtr TInt);
     ("CreditSpecification", TPtr (TStruct "CreditSpecification"));
     ("Hibernation", TPtr (TStruct "HibernationOptions"));
     ("EnclaveOptions", TPtr (TStruct "EnclaveOptions"));
     ("UserData", TString);
     ("MetadataOptions", TPtr (TStruct "MetadataOptions"));
     ("DisableAPITermination", TPtr TBool);
     ("InstanceInitiatedShutdownBehavior", TString);
     ("LaunchTemplate", TPtr (TStruct "LaunchTemplateSpecification"));
     ("Timeouts", TPtr (TStruct "Timeouts"));
     ("EBSBlockDevices", TSlice (TPtr (TStruct "EBSBlockDevice")));
     ("EphemeralBlockDevices",
      TSlice (TPtr (TStruct "EphemeralBlockDevice")));
     ("NetworkInterfaces", TSlice (TPtr (TStruct "NetworkInterface")))]
  else [].

(** [reflect.ValueOf] at each model type. *)
Definition ptrBool (p : option bool) : value := VPtr TBool (VBool <$> p).
Definition ptrInt (p : option Z) : value := VPtr TInt (VInt <$> p).

Definition ValueOfSecurityGroup (sg : SecurityGroup.t) : value :=
  VStruct "SecurityGroup"
    [("GroupID", VString (SecurityGroup.GroupID sg));
     ("GroupName", VString (SecurityGroup.GroupName sg))].

Definition ValueOfSecurityGroups (sgs : option (list SecurityGroup.t))
  : value :=
  VSlice (TStruct "SecurityGroup") (fmap (M:=list) ValueOfSecurityGroup <$> sgs).

Definition ValueOfCreditSpecification (c : CreditSpecification.t) : value :=
  VStruct "CreditSpecification"
    [("CPUCredits", VString (CreditSpecification.CPUCredits c))].

Definition ValueOfHibernationOptions (h : HibernationOptions.t) : value :=
  VStruct "HibernationOptions"
    [("Configured", VBool (HibernationOptions.Configured h))].

Definition ValueOfEnclaveOptions (e : EnclaveOptions.t) : value :=
  VStruct "EnclaveOptions" [("Enabled", VBool (EnclaveOptions.Enabled e))].

Definition ValueOfMetadataOptions (m : MetadataOptions.t) : value :=
  VStruct "MetadataOptions"
    [("HTTPEndpoint", VString (MetadataOptions.HTTPEndpoint m));
     ("HTTPTokens", VString (MetadataOptions.HTTPTokens m));
     ("HTTPPutResponseHopLimit",
      ptrInt (MetadataOptions.HTTPPutResponseHopLimit m));
     ("InstanceMetadataTags",
      VString (MetadataOptions.InstanceMetadataTags m))].

Definition ValueOfLaunchTemplateSpecification
    (l : LaunchTemplateSpecification.t) : value :=
  VStruct "LaunchTemplateSpecification"
    [("ID", VString (LaunchTemplateSpecification.ID l));
     ("Name", VString (LaunchTemplateSpecification.Name l));
     ("Version", VString (LaunchTemplateSpecification.Version l))].

Definition ValueOfTimeouts (t : Timeouts.t) : value :=
  VStruct "Timeouts"
    [("Create", VString (Timeouts.Create t));
     ("Update", VString (Timeouts.Update t));
     ("Delete", VString (Timeouts.Delete t))].

Definition ValueOfEBSBlockDevice (b : EBSBlockDevice.t) : value :=
  VStruct "EBSBlockDevice"
    [("DeviceName", VString (EBSBlockDevice.DeviceName b));
     ("SnapshotID", VString (EBSBlockDevice.SnapshotID b));
     ("VolumeType", VString (EBSBlockDevice.VolumeType b));
     ("VolumeSize", ptrInt (EBSBlockDevice.VolumeSize b));
     ("Iops", ptrInt (EBSBlockDevice.Iops b));
     ("DeleteOnTermination", ptrBool (EBSBlockDevice.DeleteOnTermination b));
     ("Encrypted", ptrBool (EBSBlockDevice.Encrypted b));
     ("KMSKeyID", VString (EBSBlockDevice.KMSKeyID b));
     ("Throughput", ptrInt (EBSBlockDevice.Throughput b))].

Definition ValueOfEphemeralBlockDevice (b : EphemeralBlockDevice.t)
  : value :=
  VStruct "EphemeralBlockDevice"
    [("DeviceName", VString (EphemeralBlockDevice.DeviceName b));
     ("NoDevice", ptrBool (EphemeralBlockDevice.NoDevice b));
     ("VirtualName", VString (EphemeralBlockDevice.VirtualName b))].

Definition ValueOfNetworkInterface (n : NetworkInterface.t) : value :=
  VStruct "NetworkInterface"
    [("DeviceIndex", VInt (NetworkInterface.DeviceIndex n));
     ("NetworkInterfaceID", VString (NetworkInterface.NetworkInterfaceID n));
     ("DeleteOnTermination",
      ptrBool (NetworkInterface.DeleteOnTermination n));
     ("NetworkCardIndex", VInt (NetworkInterface.NetworkCardIndex n))].

(** A pointer to a struct, and a slice of such pointers. *)
Definition ptrTo {A : Type} (name : string) (f : A → value) (p : option A)
  : value :=
  VPtr (TStruct name) (f <$> p).

Definition ptrSlice {A : Type} (name : string) (f : A → value)
    (l : option (list (option A))) : value :=
  VSlice (TPtr (TStruct name)) (fmap (M:=list) (ptrTo name f) <$> l).

Definition ValueOf (c : InstanceConfig.t) : value :=
  VStruct "InstanceConfig"
    [("InstanceID", VString (InstanceConfig.InstanceID c));
     ("InstanceType", VString (InstanceConfig.InstanceType c));
     ("AMI", VString (InstanceConfig.AMI c));
     ("KeyName", VString (InstanceConfig.KeyName c));
     ("Tags", VMap (InstanceConfig.Tags c));
     ("VPCID", VString (InstanceConfig.VPCID c));
     ("SubnetID", VString (InstanceConfig.SubnetID c));
     ("SecurityGroups",
      ValueOfSecurityGroups (InstanceConfig.SecurityGroups c));
     ("PublicIPAddress", VString (InstanceConfig.PublicIPAddress c));
     ("PrivateIPAddress", VString (InstanceConfig.PrivateIPAddress c));
     ("AssociatePublicIPAddress",
      ptrBool (InstanceConfig.AssociatePublicIPAddress c));
     ("SourceDestCheck", ptrBool (InstanceConfig.SourceDestCheck c));
     ("PrivateDNSName", VString (InstanceConfig.PrivateDNSName c));
     ("PublicDNSName", VString (InstanceConfig.PublicDNSName c));
     ("RootVolumeSize", VInt (InstanceConfig.RootVolumeSize c));
     ("RootVolumeType", VString (InstanceConfig.RootVolumeType c));
     ("RootVolumeIops", VInt (InstanceConfig.RootVolumeIops c));
     ("RootVolumeThroughput", VInt (InstanceConfig.RootVolumeThroughput c));
     ("RootVolumeEncrypted", ptrBool (InstanceConfig.RootVolumeEncrypted c));
     ("RootVolumeKMSKeyID", VString (InstanceConfig.RootVolumeKMSKeyID c));
     ("EBSOptimized", ptrBool (InstanceConfig.EBSOptimized c));
     ("IAMInstanceProfile", VString (InstanceConfig.IAMInstanceProfile c));
     ("Monitoring", ptrBool (InstanceConfig.Monitoring c));
     ("AvailabilityZone", VString (InstanceConfig.AvailabilityZone c));
     ("Tenancy", VString (InstanceConfig.Tenancy c));
     ("HostID", VString (InstanceConfig.HostID c));
     ("PlacementGroup", VString (InstanceConfig.PlacementGroup c));
     ("CPUCoreCount", ptrInt (InstanceConfig.CPUCoreCount c));
     ("CPUThreadsPerCore", ptrInt (InstanceConfig.CPUThreadsPerCore c));
     ("CreditSpecification",
      ptrTo "CreditSpecification" ValueOfCreditSpecification
        (InstanceConfig.CreditSpecification c));
     ("Hibernation",
      ptrTo "HibernationOptions" ValueOfHibernationOptions
        (InstanceConfig.Hibernation c));
     ("EnclaveOptions",
      ptrTo "EnclaveOptions" ValueOfEnclaveOptions
        (InstanceConfig.EnclaveOptions c));
     ("UserData", VString (InstanceConfig.UserData c));
     ("MetadataOptions",
      ptrTo "MetadataOptions" ValueOfMetadataOptions
        (InstanceConfig.MetadataOptions c));
     ("DisableAPITermination",
      ptrBool (InstanceConfig.DisableAPITermination c));
     ("InstanceInitiatedShutdownBehavior",
      VString (InstanceConfig.InstanceInitiatedShutdownBehavior c));
     ("LaunchTemplate",
      ptrTo "LaunchTemplateSpecification" ValueOfLaunchTemplateSpecification
        (InstanceConfig.LaunchTemplate c));
     ("Timeouts",
      ptrTo "Timeouts" ValueOfTimeouts (InstanceConfig.Timeouts c));
     ("EBSBlockDevices",
      ptrSlice "EBSBlockDevice" ValueOfEBSBlockDevice
        (InstanceConfig.EBSBlockDevices c));
     ("EphemeralBlockDevices",
      ptrSlice "EphemeralBlockDevice" ValueOfEphemeralBlockDevice
        (InstanceConfig.EphemeralBlockDevices c));
     ("NetworkInterfaces",
      ptrSlice "NetworkInterface" ValueOfNetworkInterface
        (InstanceConfig.NetworkInterfaces c))].

(** The type assertion [x.([]models.SecurityGroup)] read back from a
    reflected value. *)
Definition asSecurityGroup (v : value) : option SecurityGroup.t :=
  match v with
  | VStruct _ [(_, VString id); (_, VString name)] =>
      Some {| SecurityGroup.GroupID := id; SecurityGroup.GroupName := name |}
  | _ => None
  end.

End models.

(** ** Package [internal/detector] *)

Module detector.
Import reflect models.

Inductive DriftType : Type :=
| DriftTypeAdded      (* a field exists in actual but not in expected *)
| DriftTypeRemoved    (* a field exists in expected but not in actual *)
| DriftTypeModified.  (* a field exists in both but with different values *)

(** [Actual] and [Expected] are [interface{}] values: [None] is nil. *)
Record Drift : Type := {
  Type_ : DriftType;
  Path : string;
  Actual : option value;
  Expected : option value;
  Description : string
}.

Record DriftReport : Type := {
  InstanceID : string;
  HasDrift : bool;
  Drifts : list Drift
}.

Record Detector : Type := { ignoredFields : gmap string bool }.

Definition NewDetector : Detector := {| ignoredFields := ∅ |}.

(** [d.ignoredFields[path]]: reading a missing key gives [false]. *)
Definition ignored (d : Detector) (path : string) : bool :=
  default false (ignoredFields d !! path).

Definition safeInterface (v : value) : option value :=
  if IsValid v then Some v else None.

(** [x.(map[string]string)] and [x.([]models.SecurityGroup)] with the
    comma-ok form: the zero value and [false] when the dynamic type is
    another one. *)
Definition assertStringMap (x : value) : option (gmap string string) * bool :=
  match x with
  | VMap m => (m, true)
  | _ => (None, false)
  end.

Definition assertSecurityGroups (x : value)
  : option (list SecurityGroup.t) * bool :=
  match x with
  | VSlice t items =>
      if decide (t = TStruct "SecurityGroup") then
        match items with
        | None => (None, true)
        | Some l =>
            match mapM asSecurityGroup l with
            | Some sgs => (Some sgs, true)
            | None => (None, false)
            end
        end
      else (None, false)
  | _ => (None, false)
  end.

(** [m[sg.GroupID] = sg] for every element, in slice order. *)
Definition byGroupID (sgs : list SecurityGroup.t)
  : gmap string SecurityGroup.t :=
  foldl (λ m sg, <[SecurityGroup.GroupID sg := sg]> m) ∅ sgs.

Section comparators.
Context (fm : Formatter) (ord : MapOrder).

Definition compareMaps (prefix : string) (actual expected : value)
  : outcome (list Drift) :=
  if decide (prefix = "Tags") then
    (* Special handling for Tags map *)
    a ← Interface actual;
    e ← Interface expected;
    let '(actualMap, actualOk) := assertStringMap a in
    let '(expectedMap, expectedOk) := assertStringMap e in
    if negb actualOk && expectedOk then
      Ok [ {| Type_ := DriftTypeRemoved; Path := prefix;
              Actual := None; Expected := Some (VMap expectedMap);
              Description :=
                "Tags are present in expected but missing in actual" |} ]
    else if actualOk && negb expectedOk then
      Ok [ {| Type_ := DriftTypeAdded; Path := prefix;
              Actual := Some (VMap actualMap); Expected := None;
              Description :=
                "Tags are present in actual but missing in expected" |} ]
    else
      let actualMap := default ∅ actualMap in
      let expectedMap := default ∅ expectedMap in
      andThen
        (* Compare tag by tag *)
        (forEach
           (λ '(key, expectedValue),
              match actualMap !! key with
              | Some actualValue =>
                  if decide (actualValue ≠ expectedValue) then
                    Ok [ {| Type_ := DriftTypeModified;
                            Path := prefix +:+ "[" +:+ key +:+ "]";
                            Actual := Some (VString actualValue);
                            Expected := Some (VString expectedValue);
                            Description :=
                              "Tag " +:+ key +:+ " has changed. Actual: "
                              +:+ actualValue +:+ ", Expected: "
                              +:+ expectedValue |} ]
                  else Ok []
              | None =>
                  Ok [ {| Type_ := DriftTypeRemoved;
                          Path := prefix +:+ "[" +:+ key +:+ "]";
                          Actual := None;
                          Expected := Some (VString expectedValue);
                          Description :=
                            "Tag " +:+ key +:+
                            " is present in expected but missing in actual"
                       |} ]
              end)
           (rangeMap ord expectedMap))
        (* Check for tags in actual that aren't in expected *)
        (forEach
           (λ '(key, actualValue),
              match expectedMap !! key with
              | Some _ => Ok []
              | None =>
                  Ok [ {| Type_ := DriftTypeAdded;
                          Path := prefix +:+ "[" +:+ key +:+ "]";
                          Actual := Some (VString actualValue);
                          Expected := None;
                          Description :=
                            "Tag " +:+ key +:+
                            " is present in actual but missing in expected"
                       |} ]
              end)
           (rangeMap ord actualMap))
  else
    (* For non-Tags maps, use the generic comparison *)
    actualNil ← IsNil actual;
    if (actualNil : bool) then
      Ok [ {| Type_ := DriftTypeRemoved; Path := prefix;
              Actual := None; Expected := safeInterface expected;
              Description :=
                "Map " +:+ prefix +:+
                " is present in expected but missing in actual" |} ]
    else
      expectedNil ← IsNil expected;
      if (expectedNil : bool) then
        Ok [ {| Type_ := DriftTypeAdded; Path := prefix;
                Actual := safeInterface actual; Expected := None;
                Description :=
                  "Map " +:+ prefix +:+
                  " is present in actual but missing in expected" |} ]
      else
        andThen
          (* Check for missing keys in actual *)
          (expectedKeys ← MapKeys ord expected;
           forEach
             (λ keyStr,
                actualValue ← MapIndex actual keyStr;
                expectedValue ← MapIndex expected keyStr;
                if negb (IsValid actualValue) then
                  Ok [ {| Type_ := DriftTypeRemoved;
                          Path := prefix +:+ "." +:+ keyStr;
                          Actual := None;
                          Expected := safeInterface expectedValue;
                          Description :=
                            "Key " +:+ keyStr +:+
                            " is present in expected but missing in actual"
                       |} ]
                else if negb (DeepEqual (safeInterface actualValue)
                                        (safeInterface expectedValue)) then
                  Ok [ {| Type_ := DriftTypeModified;
                          Path := prefix +:+ "." +:+ keyStr;
                          Actual := safeInterface actualValue;
                          Expected := safeInterface expectedValue;
                          Description :=
                            "Value for key " +:+ keyStr +:+
                            " has changed. Actual: " +:+
                            verb_v fm (safeInterface actualValue) +:+
                            ", Expected: " +:+
                            verb_v fm (safeInterface expectedValue) |} ]
                else Ok [])
             expectedKeys)
          (* Check for extra keys in actual *)
          (actualKeys ← MapKeys ord actual;
           forEach
             (λ keyStr,
                expectedValue ← MapIndex expected keyStr;
                if negb (IsValid expectedValue) then
                  actualValue ← MapIndex actual keyStr;
                  Ok [ {| Type_ := DriftTypeAdded;
                          Path := prefix +:+ "." +:+ keyStr;
                          Actual := safeInterface actualValue;
                          Expected := None;
                          Description :=
                            "Key " +:+ keyStr +:+
                            " is present in actual but missing in expected"
                       |} ]
                else Ok [])
             actualKeys).

(** [actualMap[idField.String()] = elem] for every element whose first
    field is a string. [NumField] panics on an element that is not a
    struct. *)
Definition indexByFirstField (items : list value)
  : outcome (gmap string value) :=
  foldl
    (λ acc elem,
       m ← acc;
       let elem := deref elem in
       fs ← Fields elem;
       match fs with
       | (_, VString id) :: _ => Ok (<[id := elem]> m)
       | _ => Ok m
       end)
    (Ok ∅) items.

(** [self] is [d.compareStruct], with the recursion budget that is left. *)
Definition compareStructSlices
    (self : string → value → value → outcome (list Drift))
    (prefix : string) (actual expected : value) : outcome (list Drift) :=
  actualItems ← Items actual;
  actualMap ← indexByFirstField actualItems;
  expectedItems ← Items expected;
  expectedMap ← indexByFirstField expectedItems;
  andThen
    (* Compare items *)
    (forEach
       (λ '(id, expectedItem),
          match actualMap !! id with
          | Some actualItem =>
              self (prefix +:+ "[" +:+ id +:+ "]") actualItem expectedItem
          | None =>
              e ← Interface expectedItem;
              Ok [ {| Type_ := DriftTypeRemoved;
                      Path := prefix +:+ "[" +:+ id +:+ "]";
                      Actual := None; Expected := Some e;
                      Description :=
                        "Item with ID " +:+ id +:+
                        " is present in expected but missing in actual" |} ]
          end)
       (rangeMap ord expectedMap))
    (* Check for extra items in actual *)
    (forEach
       (λ '(id, actualItem),
          match expectedMap !! id with
          | Some _ => Ok []
          | None =>
              a ← Interface actualItem;
              Ok [ {| Type_ := DriftTypeAdded;
                      Path := prefix +:+ "[" +:+ id +:+ "]";
                      Actual := Some a; Expected := None;
                      Description :=
                        "Item with ID " +:+ id +:+
                        " is present in actual but missing in expected" |} ]
          end)
       (rangeMap ord actualMap)).

Definition compareSlices
    (self : string → value → value → outcome (list Drift))
    (prefix : string) (actual expected : value) : outcome (list Drift) :=
  if decide (prefix = "SecurityGroups") then
    (* Special handling for SecurityGroups slice *)
    a ← Interface actual;
    e ← Interface expected;
    let '(actualSGs, actualOk) := assertSecurityGroups a in
    let '(expectedSGs, expectedOk) := assertSecurityGroups e in
    if negb actualOk && expectedOk then
      Ok [ {| Type_ := DriftTypeRemoved; Path := prefix;
              Actual := None;
              Expected := Some (ValueOfSecurityGroups expectedSGs);
              Description :=
                "Security groups are present in expected but missing in actual"
           |} ]
    else if actualOk && negb expectedOk then
      Ok [ {| Type_ := DriftTypeAdded; Path := prefix;
              Actual := Some (ValueOfSecurityGroups actualSGs);
              Expected := None;
              Description :=
                "Security groups are present in actual but missing in expected"
           |} ]
    else
      (* Create maps for easier comparison *)
      let actualMap := byGroupID (default [] actualSGs) in
      let expectedMap := byGroupID (default [] expectedSGs) in
      andThen
        (* Check for security groups in expected but not in actual *)
        (forEach
           (λ '(id, expectedSG),
              match actualMap !! id with
              | Some actualSG =>
                  if decide (SecurityGroup.GroupName actualSG
                             ≠ SecurityGroup.GroupName expectedSG) then
                    Ok [ {| Type_ := DriftTypeModified;
                            Path := prefix +:+ "[" +:+ id +:+ "].GroupName";
                            Actual :=
                              Some (VString
                                      (SecurityGroup.GroupName actualSG));
                            Expected :=
                              Some (VString
                                      (SecurityGroup.GroupName expectedSG));
                            Description :=
                              "Security group " +:+ id +:+
                              " name has changed. Actual: " +:+
                              SecurityGroup.GroupName actualSG +:+
                              ", Expected: " +:+
                              SecurityGroup.GroupName expectedSG |} ]
                  else Ok []
              | None =>
                  Ok [ {| Type_ := DriftTypeRemoved;
                          Path := prefix +:+ "[" +:+ id +:+ "]";
                          Actual := None;
                          Expected := Some (ValueOfSecurityGroup expectedSG);
                          Description :=
                            "Security group " +:+ id +:+
                            " is present in expected but missing in actual"
                       |} ]
              end)
           (rangeMap ord expectedMap))
        (* Check for security groups in actual but not in expected *)
        (forEach
           (λ '(id, actualSG),
              match expectedMap !! id with
              | Some _ => Ok []
              | None =>
                  Ok [ {| Type_ := DriftTypeAdded;
                          Path := prefix +:+ "[" +:+ id +:+ "]";
                          Actual := Some (ValueOfSecurityGroup actualSG);
                          Expected := None;
                          Description :=
                            "Security group " +:+ id +:+
                            " is present in actual but missing in expected"
                       |} ]
              end)
           (rangeMap ord actualMap))
  else
    (* Generic slice comparison for other types *)
    actualLen ← Len actual;
    expectedLen ← Len expected;
    if bool_decide (actualLen = 0) && bool_decide (expectedLen = 0) then
      Ok []
    else if bool_decide (actualLen = 0) then
      Ok [ {| Type_ := DriftTypeRemoved; Path := prefix;
              Actual := None; Expected := safeInterface expected;
              Description :=
                "Slice " +:+ prefix +:+
                " is present in expected but empty in actual" |} ]
    else if bool_decide (expectedLen = 0) then
      Ok [ {| Type_ := DriftTypeAdded; Path := prefix;
              Actual := safeInterface actual; Expected := None;
              Description :=
                "Slice " +:+ prefix +:+
                " is present in actual but empty in expected" |} ]
    else
      first ← Index actual 0;
      if bool_decide (kind first = KStruct) then
        (* slices of structs are compared by a unique identifier *)
        compareStructSlices self prefix actual expected
      else
        (* For simple slices, just compare the values *)
        a ← Interface actual;
        e ← Interface expected;
        if negb (DeepEqual (Some a) (Some e)) then
          Ok [ {| Type_ := DriftTypeModified; Path := prefix;
                  Actual := Some a; Expected := Some e;
                  Description :=
                    "Slice " +:+ prefix +:+
                    " has different values. Actual: " +:+
                    verb_v fm (Some a) +:+ ", Expected: " +:+
                    verb_v fm (Some e) |} ]
        else Ok [].

Fixpoint compareStruct (fuel : nat) (d : Detector) (prefix : string)
    (actual expected : value) {struct fuel} : outcome (list Drift) :=
  match fuel with
  | 0 => OutOfFuel
  | S fuel =>
      (* Handle nil or invalid values *)
      if negb (IsValid actual) && negb (IsValid expected) then Ok []
      else if negb (IsValid actual) then
        Ok [ {| Type_ := DriftTypeRemoved; Path := prefix;
                Actual := None; Expected := safeInterface expected;
                Description :=
                  "Field " +:+ prefix +:+
                  " is present in expected but missing in actual" |} ]
      else if negb (IsValid expected) then
        Ok [ {| Type_ := DriftTypeAdded; Path := prefix;
                Actual := safeInterface actual; Expected := None;
                Description :=
                  "Field " +:+ prefix +:+
                  " is present in actual but missing in expected" |} ]
      else
        (* Dereference pointers *)
        let actual := deref actual in
        let expected := deref expected in
        match actual with
        | VStruct _ fields =>
            (* Compare all fields in the struct *)
            forEach
              (λ '(fieldName, actualField),
                 (* Skip unexported fields *)
                 if negb (exported fieldName) then Ok []
                 else
                   let fieldPath :=
                     (if decide (prefix ≠ "") then prefix +:+ "."
                      else prefix) +:+ fieldName in
                   if ignored d fieldPath then Ok []
                   else
                     (* Safely get the field by name from expected *)
                     expectedField ←
                       (if IsValid expected
                           && bool_decide (kind expected = KStruct)
                        then FieldByName expected fieldName
                        else Ok Invalid);
                     compareStruct fuel d fieldPath actualField
                       expectedField)
              fields
        | VMap _ => compareMaps prefix actual expected
        | VSlice _ _ =>
            compareSlices (compareStruct fuel d) prefix actual expected
        | _ =>
            let actualVal := safeInterface actual in
            let expectedVal := safeInterface expected in
            if negb (DeepEqual actualVal expectedVal) then
              Ok [ {| Type_ := DriftTypeModified; Path := prefix;
                      Actual := actualVal; Expected := expectedVal;
                      Description :=
                        "Field " +:+ prefix +:+
                        " has different values. Actual: " +:+
                        verb_v fm actualVal +:+ ", Expected: " +:+
                        verb_v fm expectedVal |} ]
            else Ok []
        end
  end.

(** [DetectDrift] compares actual and expected instance configurations.
    The walk over [*actual] is given the budget its nesting depth needs. *)
Definition DetectDrift (d : Detector)
    (actual expected : option InstanceConfig.t) : outcome DriftReport :=
  let report := {| InstanceID := ""; HasDrift := false; Drifts := [] |} in
  match actual, expected with
  | None, None =>
      (* Both are nil, no drift *)
      Ok report
  | Some present, None | None, Some present =>
      Ok {| InstanceID := InstanceConfig.InstanceID present;
            HasDrift := true;
            Drifts :=
              Drifts report ++
              [ {| Type_ := DriftTypeModified; Path := "";
                   Actual := None; Expected := None;
                   Description := "One of the configurations is nil" |} ]
         |}
  | Some a, Some e =>
      let actualValue := ValueOf a in
      let expectedValue := ValueOf e in
      ds ← compareStruct (S (height actualValue)) d "" actualValue
             expectedValue;
      let drifts := Drifts report ++ ds in
      Ok {| InstanceID := InstanceConfig.InstanceID a;
            HasDrift := bool_decide (0 < length drifts);
            Drifts := drifts |}
  end.

End comparators.
End detector.

(** ** Package [domain/models] *)

Module domain_models.
Import reflect.

Inductive DriftType : Type :=
| DriftTypeAdded      (* a field exists in actual but not in expected *)
| DriftTypeRemoved    (* a field exists in expected but not in actual *)
| DriftTypeModified.  (* a field exists in both but with different values *)

Record Drift : Type := {
  Type_ : DriftType;
  Path : string;
  Actual : option value;
  Expected : option value;
  Description : string
}.

Definition NewDrift (driftType : DriftType) (path : string)
    (actual expected : option value) (description : string) : Drift :=
  {| Type_ := driftType; Path := path; Actual := actual;
     Expected := expected; Description := description |}.

Record DriftReport : Type := {
  InstanceID : string;
  HasDrift : bool;
  Drifts : list Drift
}.

Definition NewDriftReport (instanceID : string) : DriftReport :=
  {| InstanceID := instanceID; HasDrift := false; Drifts := [] |}.

(** [r.AddDrift(drift)]: the report after the call. *)
Definition AddDrift (drift : Drift) (r : DriftReport) : DriftReport :=
  {| InstanceID := InstanceID r;
     HasDrift := true;
     Drifts := Drifts r ++ [drift] |}.

Definition GetDrifts (r : DriftReport) : list Drift := Drifts r.
Definition HasDrifts (r : DriftReport) : bool := HasDrift r.

Module SecurityGroup.
Record t : Type := { GroupID : string; GroupName : string }.
End SecurityGroup.

Module Instance.
Record t : Type := {
  (* Basic instance information *)
  ID : string;
  Type_ : string;
  AMI : string;
  KeyName : string;
  Tags : option (gmap string string);
  (* Networking *)
  VPCID : string;
  SubnetID : string;
  SecurityGroups : option (list SecurityGroup.t);
  PublicIPAddress : string;
  PrivateIPAddress : string;
  AssociatePublicIPAddress : option bool;
  PrivateDNSName : string;
  PublicDNSName : string;
  (* Storage *)
  RootVolumeSize : Z;
  RootVolumeType : string;
  RootVolumeIops : Z;
  RootVolumeEncrypted : option bool;
  (* IAM and Monitoring *)
  IAMInstanceProfile : string;
  Monitoring : option bool;
  (* Placement *)
  AvailabilityZone : string;
  Tenancy : string
}.
(** [i.AddTag(key, value)]: the instance after the call.  A nil [Tags]
    map is made first. *)
Definition AddTag (key value : string) (i : t) : t :=
  {| ID := ID i;
     Type_ := Type_ i;
     AMI := AMI i;
     KeyName := KeyName i;
     Tags := Some (<[key := value]> (default ∅ (Tags i)));
     VPCID := VPCID i;
     SubnetID := SubnetID i;
     SecurityGroups := SecurityGroups i;
     PublicIPAddress := PublicIPAddress i;
     PrivateIPAddress := PrivateIPAddress i;
     AssociatePublicIPAddress := AssociatePublicIPAddress i;
     PrivateDNSName := PrivateDNSName i;
     PublicDNSName := PublicDNSName i;
     RootVolumeSize := RootVolumeSize i;
     RootVolumeType := RootVolumeType i;
     RootVolumeIops := RootVolumeIops i;
     RootVolumeEncrypted := RootVolumeEncrypted i;
     IAMInstanceProfile := IAMInstanceProfile i;
     Monitoring := Monitoring i;
     AvailabilityZone := AvailabilityZone i;
     Tenancy := Tenancy i |}.

(** [i.IsValid()]: the instance has the minimum required fields. *)
Definition IsValid (i : t) : bool :=
  bool_decide (ID i ≠ "") && bool_decide (Type_ i ≠ "")
  && bool_decide (AMI i ≠ "").
End Instance.

(** [NewInstance] creates an [Instance] with the required fields and an
    empty, non-nil [Tags] map. *)
Definition NewInstance (id instanceType ami : string) : Instance.t :=
  {| Instance.ID := id;
     Instance.Type_ := instanceType;
     Instance.AMI := ami;
     Instance.KeyName := "";
     Instance.Tags := Some ∅;
     Instance.VPCID := "";
     Instance.SubnetID := "";
     Instance.SecurityGroups := None;
     Instance.PublicIPAddress := "";
     Instance.PrivateIPAddress := "";
     Instance.AssociatePublicIPAddress := None;
     Instance.PrivateDNSName := "";
     Instance.PublicDNSName := "";
     Instance.RootVolumeSize := 0;
     Instance.RootVolumeType := "";
     Instance.RootVolumeIops := 0;
     Instance.RootVolumeEncrypted := None;
     Instance.IAMInstanceProfile := "";
     Instance.Monitoring := None;
     Instance.AvailabilityZone := "";
     Instance.Tenancy := "" |}.

Definition fieldsOf (name : string) : list (string * gotype) :=
  if decide (name = "SecurityGroup") then
    [("GroupID", TString); ("GroupName", TString)]
  else if decide (name = "Instance") then
    [("ID", TString); ("Type", TString); ("AMI", TString);
     ("KeyName", TString); ("Tags", TMap);
     ("VPCID", TString); ("SubnetID", TString);
     ("SecurityGroups", TSlice (TStruct "SecurityGroup"));
     ("PublicIPAddress", TString); ("PrivateIPAddress", TString);
     ("AssociatePublicIPAddress", TPtr TBool);
     ("PrivateDNSName", TString); ("PublicDNSName", TString);
     ("RootVolumeSize", TInt); ("RootVolumeType", TString);
     ("RootVolumeIops", TInt); ("RootVolumeEncrypted", TPtr TBool);
     ("IAMInstanceProfile", TString); ("Monitoring", TPtr TBool);
     ("AvailabilityZone", TString); ("Tenancy", TString)]
  else [].

Definition ptrBool (p : option bool) : value := VPtr TBool (VBool <$> p).

Definition ValueOfSecurityGroup (sg : SecurityGroup.t) : value :=
  VStruct "SecurityGroup"
    [("GroupID", VString (SecurityGroup.GroupID sg));
     ("GroupName", VString (SecurityGroup.GroupName sg))].

(** [reflect.ValueOf(inst).Elem()] for a non-nil [inst]. *)
Definition ValueOf (i : Instance.t) : value :=
  VStruct "Instance"
    [("ID", VString (Instance.ID i));
     ("Type", VString (Instance.Type_ i));
     ("AMI", VString (Instance.AMI i));
     ("KeyName", VString (Instance.KeyName i));
     ("Tags", VMap (Instance.Tags i));
     ("VPCID", VString (Instance.VPCID i));
     ("SubnetID", VString (Instance.SubnetID i));
     ("SecurityGroups",
      VSlice (TStruct "SecurityGroup")
        (fmap (M:=list) ValueOfSecurityGroup <$> Instance.SecurityGroups i));
     ("PublicIPAddress", VString (Instance.PublicIPAddress i));
     ("PrivateIPAddress", VString (Instance.PrivateIPAddress i));
     ("AssociatePublicIPAddress",
      ptrBool (Instance.AssociatePublicIPAddress i));
     ("PrivateDNSName", VString (Instance.PrivateDNSName i));
     ("PublicDNSName", VString (Instance.PublicDNSName i));
     ("RootVolumeSize", VInt (Instance.RootVolumeSize i));
     ("RootVolumeType", VString (Instance.RootVolumeType i));
     ("RootVolumeIops", VInt (Instance.RootVolumeIops i));
     ("RootVolumeEncrypted", ptrBool (Instance.RootVolumeEncrypted i));
     ("IAMInstanceProfile", VString (Instance.IAMInstanceProfile i));
     ("Monitoring", ptrBool (Instance.Monitoring i));
     ("AvailabilityZone", VString (Instance.AvailabilityZone i));
     ("Tenancy", VString (Instance.Tenancy i))].

(** A non-nil [*Instance] held in an [interface{}]. *)
Definition pointerTo (i : Instance.t) : value :=
  VPtr (TStruct "Instance") (Some (ValueOf i)).

End domain_models.

(** ** Package [domain/services] *)

Module services.
Import reflect domain_models.

Record DomainError : Type := { msg : string }.

Definition NewDomainError (msg : string) : DomainError := {| msg := msg |}.

Definition ErrInvalidInput : DomainError :=
  NewDomainError "invalid input parameters".
Definition ErrInstanceMismatch : DomainError :=
  NewDomainError "instance IDs do not match".

Record DriftDetector : Type := { ignoredFields : gmap string bool }.

Definition NewDriftDetector : DriftDetector := {| ignoredFields := ∅ |}.

Definition ignored (d : DriftDetector) (name : string) : bool :=
  default false (ignoredFields d !! name).

Record DefaultDetectionService : Type := { detector : DriftDetector }.

Definition NewDetectionService : DefaultDetectionService :=
  {| detector := NewDriftDetector |}.

(** [strings.TrimPrefix(s, ".")] *)
Definition trimDot (s : string) : string :=
  match s with
  | String c rest => if decide (c = "."%char) then rest else s
  | EmptyString => s
  end.

Section comparators.
Context (ord : MapOrder).

(** compareMaps compares two map values *)
Definition compareMaps (prefix : string) (actual expected : value)
  : outcome (list Drift) :=
  andThen
    (actualKeys ← MapKeys ord actual;
     forEach
       (λ keyStr,
          actualValue ← MapIndex actual keyStr;
          expectedValue ← MapIndex expected keyStr;
          if negb (IsValid expectedValue) then
            Ok [NewDrift DriftTypeRemoved (prefix +:+ "." +:+ keyStr)
                  None None "Field removed"]
          else
            a ← Interface actualValue;
            e ← Interface expectedValue;
            if negb (DeepEqual (Some a) (Some e)) then
              Ok [NewDrift DriftTypeModified (prefix +:+ "." +:+ keyStr)
                    (Some a) (Some e) "Value modified"]
            else Ok [])
       actualKeys)
    (* Check for added fields *)
    (expectedKeys ← MapKeys ord expected;
     forEach
       (λ keyStr,
          actualValue ← MapIndex actual keyStr;
          if negb (IsValid actualValue) then
            expectedValue ← MapIndex expected keyStr;
            e ← Interface expectedValue;
            Ok [NewDrift DriftTypeAdded (prefix +:+ "." +:+ keyStr)
                  None (Some e) "Field added"]
          else Ok [])
       expectedKeys).

(** compareSlices compares two slice/array values; [self] is
    [d.compareStruct] with the recursion budget that is left. *)
Definition compareSlices
    (self : string → value → value → outcome (list Drift))
    (prefix : string) (actual expected : value) : outcome (list Drift) :=
  actualLen ← Len actual;
  expectedLen ← Len expected;
  if decide (actualLen ≠ expectedLen) then
    a ← Interface actual;
    e ← Interface expected;
    Ok [NewDrift DriftTypeModified prefix (Some a) (Some e)
          "Length mismatch"]
  else
    forEach
      (λ i,
         actualItem ← Index actual i;
         expectedItem ← Index expected i;
         self (prefix +:+ "[" +:+ pretty i +:+ "]") actualItem expectedItem)
      (seq 0 actualLen).

(** compareStruct recursively compares struct fields *)
Fixpoint compareStruct (fuel : nat) (d : DriftDetector) (prefix : string)
    (actual expected : value) {struct fuel} : outcome (list Drift) :=
  match fuel with
  | 0 => OutOfFuel
  | S fuel =>
      if decide (kind actual ≠ kind expected) then
        a ← Interface actual;
        e ← Interface expected;
        Ok [NewDrift DriftTypeModified prefix (Some a) (Some e)
              "Type mismatch"]
      else
        match actual with
        | VStruct _ fields =>
            forEach
              (λ '(i, (fieldName, actualField)),
                 let fieldPath := prefix +:+ "." +:+ fieldName in
                 (* Skip ignored fields *)
                 if ignored d fieldName then Ok []
                 else
                   expectedField ← Field expected i;
                   compareStruct fuel d fieldPath actualField
                     expectedField)
              (zip (seq 0 (length fields)) fields)
        | VMap _ => compareMaps prefix actual expected
        | VSlice _ _ =>
            compareSlices (compareStruct fuel d) prefix actual expected
        | _ =>
            a ← Interface actual;
            e ← Interface expected;
            if negb (DeepEqual (Some a) (Some e)) then
              Ok [NewDrift DriftTypeModified (trimDot prefix)
                    (Some a) (Some e) "Value mismatch"]
            else Ok []
        end
  end.

(** CompareInstances compares two instances and returns a drift report.
    Every drift goes through [report.AddDrift], in the order in which the
    comparison produces it. *)
Definition CompareInstances (d : DriftDetector)
    (actual desired : option Instance.t) : outcome DriftReport :=
  match actual with
  | None => Panic
  | Some a =>
      let report := NewDriftReport (Instance.ID a) in
      let actualVal := ValueOf a in
      let desiredVal := default Invalid (ValueOf <$> desired) in
      ds ← compareStruct (S (height actualVal)) d "" actualVal desiredVal;
      Ok (foldl (λ r drift, AddDrift drift r) report ds)
  end.

(** [DetectDrift] returns the pair [(report, err)]; the context argument
    is not used by the code. *)
Definition DetectDrift (s : DefaultDetectionService)
    (actual desired : option Instance.t)
  : outcome (option DriftReport * option DomainError) :=
  match actual, desired with
  | Some a, Some e =>
      if decide (Instance.ID a ≠ Instance.ID e) then
        Ok (None, Some ErrInstanceMismatch)
      else
        report ← CompareInstances (detector s) actual desired;
        Ok (Some report, None)
  | _, _ => Ok (None, Some ErrInvalidInput)
  end.

(** The three loops of [BatchDetectDrift].  [reports] maps an instance ID
    to a [*DriftReport]. *)
Definition indexDesired (desired : list (option Instance.t))
  : outcome (gmap string Instance.t) :=
  foldl
    (λ acc inst,
       desiredMap ← acc;
       match inst with
       | None => Panic
       | Some i => Ok (<[Instance.ID i := i]> desiredMap)
       end)
    (Ok ∅) desired.

(** One iteration of the loop over [actual]: [inr err] is the early
    [return nil, err]. *)
Definition compareActual (s : DefaultDetectionService)
    (desiredMap : gmap string Instance.t)
    (reports : gmap string (option DriftReport))
    (actualInst : option Instance.t)
  : outcome (gmap string (option DriftReport) + DomainError) :=
  match actualInst with
  | None => Panic
  | Some a =>
      match desiredMap !! Instance.ID a with
      | Some desiredInst =>
          '(report, err) ← DetectDrift s actualInst (Some desiredInst);
          match err with
          | Some e => Ok (inr e)
          | None => Ok (inl (<[Instance.ID a := report]> reports))
          end
      | None =>
          (* instance exists in actual but not in desired *)
          let report := NewDriftReport (Instance.ID a) in
          let report :=
            AddDrift
              (NewDrift DriftTypeRemoved "" None None
                 "Instance exists in actual state but not in desired state")
              report in
          Ok (inl (<[Instance.ID a := Some report]> reports))
      end
  end.

(** One iteration of the loop over [desired]. *)
Definition addMissing (reports : gmap string (option DriftReport))
    (desiredInst : option Instance.t)
  : outcome (gmap string (option DriftReport)) :=
  match desiredInst with
  | None => Panic
  | Some e =>
      match reports !! Instance.ID e with
      | Some _ => Ok reports
      | None =>
          let report := NewDriftReport (Instance.ID e) in
          let report :=
            AddDrift
              (NewDrift DriftTypeAdded "" None (Some (pointerTo e))
                 "Instance exists in desired state but not in actual state")
              report in
          Ok (<[Instance.ID e := Some report]> reports)
      end
  end.

Definition BatchDetectDrift (s : DefaultDetectionService)
    (actual desired : list (option Instance.t))
  : outcome (option (gmap string (option DriftReport)) * option DomainError) :=
  (* Create a map of desired instances by ID for quick lookup *)
  desiredMap ← indexDesired desired;
  (* Compare each actual instance with its desired state *)
  compared ←
    foldl
      (λ acc actualInst,
         st ← acc;
         match st with
         | inl reports => compareActual s desiredMap reports actualInst
         | inr err => Ok (inr err)
         end)
      (Ok (inl ∅)) actual;
  match compared with
  | inr err => Ok (None, Some err)
  | inl reports =>
      (* Check for instances that exist in desired but not in actual *)
      reports ←
        foldl (λ acc desiredInst, r ← acc; addMissing r desiredInst)
          (Ok reports) desired;
      Ok (Some reports, None)
  end.

(** GetDriftHistory is a placeholder that returns an empty slice. *)
Definition GetDriftHistory (s : DefaultDetectionService)
    (instanceID : string) (limit : Z)
  : list DriftReport * option DomainError :=
  ([], None).

End comparators.
End services.

(** ** Package [application/dtos] *)

Module dtos.
Import reflect domain_models.





End dtos.

(** ** Package [application/commands]: the drift detection use case *)

Module commands.
Import reflect domain_models.

(** Go [error] values reaching the handler: a domain error of the
    detection service, an error of a repository (known by its message),
    or [fmt.Errorf("...: %w", err)] around another error. *)
Inductive error : Type :=
| Domain (e : services.DomainError)
| Other (msg : string)
| Wrap (prefix : string) (cause : error).

Fixpoint Error (e : error) : string :=
  match e with
  | Domain e => services.msg e
  | Other msg => msg
  | Wrap prefix cause => prefix +:+ Error cause
  end.

Record DetectDriftCommand : Type := {
  InstanceID : string;
  TerraformStateFile : string;
  TerraformDir : string
}.

(** The interfaces of [domain/repositories] and [domain/services], as far
    as the handler calls them.  A call returns the pair [(value, err)];
    the context argument is passed through and not modelled. *)
Record InstanceRepository : Type := {
  GetByID : string → outcome (option Instance.t * option error)
}.

Record TerraformStateRepository : Type := {
  GetInstanceConfigs :
    string → outcome (list (option Instance.t) * option error);
  GetInstanceConfigsFromDir :
    string → outcome (list (option Instance.t) * option error)
}.

Record DetectionService : Type := {
  DetectDrift :
    option Instance.t → option Instance.t →
    outcome (option DriftReport * option error)
}.

(** [*services.DefaultDetectionService] as a [DetectionService]. *)
Definition DefaultService (ord : MapOrder)
    (s : services.DefaultDetectionService) : DetectionService :=
  {| DetectDrift actual desired :=
       match services.DetectDrift ord s actual desired with
       | Ok (report, err) => Ok (report, Domain <$> err)
       | Panic => Panic
       | OutOfFuel => OutOfFuel
       end |}.

Record DetectDriftHandler : Type := {
  detectionService : DetectionService;
  instanceRepo : InstanceRepository;
  tfStateRepo : TerraformStateRepository
}.

Definition NewDetectDriftHandler (detectionService : DetectionService)
    (instanceRepo : InstanceRepository)
    (tfStateRepo : TerraformStateRepository) : DetectDriftHandler :=
  {| detectionService := detectionService;
     instanceRepo := instanceRepo;
     tfStateRepo := tfStateRepo |}.

(** The loop that finds the matching desired instance: the first element
    whose ID is the requested one.  Reading the ID of a nil element
    panics. *)
Fixpoint findDesired (id : string) (desiredInstances : list (option Instance.t))
  : outcome (option Instance.t) :=
  match desiredInstances with
  | [] => Ok None
  | None :: _ => Panic
  | Some inst :: rest =>
      if decide (Instance.ID inst = id) then Ok (Some inst)
      else findDesired id rest
  end.

(** [Handle] processes the [DetectDriftCommand]. *)
Definition Handle (h : DetectDriftHandler) (cmd : DetectDriftCommand)
  : outcome (option DriftReport * option error) :=
  (* Get actual instance from AWS *)
  '(actualInstance, err) ← GetByID (instanceRepo h) (InstanceID cmd);
  match err with
  | Some err =>
      Ok (None, Some (Wrap "failed to get instance from AWS: " err))
  | None =>
      (* Get desired state from Terraform *)
      let fetched :=
        if decide (TerraformStateFile cmd ≠ "") then
          r ← GetInstanceConfigs (tfStateRepo h) (TerraformStateFile cmd);
          Ok (Some r)
        else if decide (TerraformDir cmd ≠ "") then
          r ← GetInstanceConfigsFromDir (tfStateRepo h) (TerraformDir cmd);
          Ok (Some r)
        else Ok None in
      fetched ← fetched;
      match fetched with
      | None =>
          Ok (None,
              Some (Other
                      "either terraform state file or directory must be provided"))
      | Some (desiredInstances, Some err) =>
          Ok (None,
              Some (Wrap "failed to get desired state from Terraform: " err))
      | Some (desiredInstances, None) =>
          (* Find the matching desired instance *)
          desiredInstance ← findDesired (InstanceID cmd) desiredInstances;
          match desiredInstance with
          | None =>
              Ok (None,
                  Some (Other ("instance " +:+ InstanceID cmd +:+
                               " not found in Terraform state")))
          | Some _ =>
              (* Perform drift detection *)
              '(report, err) ←
                DetectDrift (detectionService h) actualInstance
                  desiredInstance;
              match err with
              | Some err =>
                  Ok (None,
                      Some (Wrap "failed to detect drift: " err))
              | None => Ok (report, None)
              end
          end
      end
  end.

End commands.

(** ** Package [internal/aws]: from the EC2 API to [InstanceConfig] *)

Module aws.
Import reflect models.

(** The fields of the SDK's [types.Instance] that the conversion reads.
    [*string] fields are [option string]; the two slices are only ranged
    over, so nil and empty are the same list. *)
Module types.
Record GroupIdentifier : Type := {
  GroupId : option string;
  GroupName : option string
}.
Record Tag : Type := { Key : option string; Value : option string }.
Record Instance : Type := {
  InstanceId : option string;
  InstanceType : string;
  ImageId : option string;
  VpcId : option string;
  SubnetId : option string;
  KeyName : option string;
  PublicIpAddress : option string;
  PrivateIpAddress : option string;
  SecurityGroups : list GroupIdentifier;
  Tags : list Tag
}.
End types.

(** [aws.ToString]: the empty string for a nil pointer. *)
Definition ToString (p : option string) : string := default "" p.

(** [append] onto a slice that may be nil. *)
Definition append {A : Type} (s : option (list A)) (x : A)
  : option (list A) :=
  Some (default [] s ++ [x]).

(** [convertToInstanceConfig] converts an AWS EC2 instance to the internal
    [InstanceConfig] model. *)
Definition convertToInstanceConfig (instance : types.Instance)
  : InstanceConfig.t :=
  (* Extract security groups *)
  let securityGroups :=
    foldl
      (λ sgs sg,
         append sgs
           {| SecurityGroup.GroupID := ToString (types.GroupId sg);
              SecurityGroup.GroupName := ToString (types.GroupName sg) |})
      None (types.SecurityGroups instance) in
  (* Extract tags *)
  let tags :=
    foldl
      (λ tags tag,
         match types.Key tag, types.Value tag with
         | Some key, Some value => <[key := value]> tags
         | _, _ => tags
         end)
      (∅ : gmap string string) (types.Tags instance) in
  {| InstanceConfig.InstanceID := ToString (types.InstanceId instance);
     InstanceConfig.InstanceType := types.InstanceType instance;
     InstanceConfig.AMI := ToString (types.ImageId instance);
     InstanceConfig.KeyName := ToString (types.KeyName instance);
     InstanceConfig.Tags := Some tags;
     InstanceConfig.VPCID := ToString (types.VpcId instance);
     InstanceConfig.SubnetID := ToString (types.SubnetId instance);
     InstanceConfig.SecurityGroups := securityGroups;
     InstanceConfig.PublicIPAddress :=
       ToString (types.PublicIpAddress instance);
     InstanceConfig.PrivateIPAddress :=
       ToString (types.PrivateIpAddress instance);
     InstanceConfig.AssociatePublicIPAddress := None;
     InstanceConfig.SourceDestCheck := None;
     InstanceConfig.PrivateDNSName := "";
     InstanceConfig.PublicDNSName := "";
     InstanceConfig.RootVolumeSize := 0;
     InstanceConfig.RootVolumeType := "";
     InstanceConfig.RootVolumeIops := 0;
     InstanceConfig.RootVolumeThroughput := 0;
     InstanceConfig.RootVolumeEncrypted := None;
     InstanceConfig.RootVolumeKMSKeyID := "";
     InstanceConfig.EBSOptimized := None;
     InstanceConfig.IAMInstanceProfile := "";
     InstanceConfig.Monitoring := None;
     InstanceConfig.AvailabilityZone := "";
     InstanceConfig.Tenancy := "";
     InstanceConfig.HostID := "";
     InstanceConfig.PlacementGroup := "";
     InstanceConfig.CPUCoreCount := None;
     InstanceConfig.CPUThreadsPerCore := None;
     InstanceConfig.CreditSpecification := None;
     InstanceConfig.Hibernation := None;
     InstanceConfig.EnclaveOptions := None;
     InstanceConfig.UserData := "";
     InstanceConfig.MetadataOptions := None;
     InstanceConfig.DisableAPITermination := None;
     InstanceConfig.InstanceInitiatedShutdownBehavior := "";
     InstanceConfig.LaunchTemplate := None;
     InstanceConfig.Timeouts := None;
     InstanceConfig.EBSBlockDevices := None;
     InstanceConfig.EphemeralBlockDevices := None;
     InstanceConfig.NetworkInterfaces := None |}.

End aws.

(** ** Package [internal/logger] *)

Module logger.
Inductive LogLevel : Type :=
| LevelDebug | LevelInfo | LevelWarn | LevelError | LevelFatal.
End logger.

(** ** Package [cmd]: matching and validating configurations *)

Module cmd.
Import reflect models.

(** A call of [log.Debug] or [log.Warn]: the level, the format string
    and the arguments that follow it. *)
Record LogCall : Type := {
  level : logger.LogLevel;
  format : string;
  args : list string
}.

(** The first loop of [findMatchingConfig]: the first configuration with
    the given instance ID.  Reading a field of a nil element panics. *)
Fixpoint matchByID (instanceID : string)
    (tfConfigs : list (option InstanceConfig.t))
  : outcome (option InstanceConfig.t) :=
  match tfConfigs with
  | [] => Ok None
  | None :: _ => Panic
  | Some cfg :: rest =>
      if decide (InstanceConfig.InstanceID cfg = instanceID) then
        Ok (Some cfg)
      else matchByID instanceID rest
  end.

(** The second loop: the first configuration whose [Name] tag is there and
    equal to [nameTag].  Indexing a nil map finds nothing. *)
Fixpoint matchByName (nameTag : string)
    (tfConfigs : list (option InstanceConfig.t))
  : outcome (option InstanceConfig.t) :=
  match tfConfigs with
  | [] => Ok None
  | None :: _ => Panic
  | Some cfg :: rest =>
      match default ∅ (InstanceConfig.Tags cfg) !! "Name" with
      | Some cfgName =>
          if decide (cfgName = nameTag) then Ok (Some cfg)
          else matchByName nameTag rest
      | None => matchByName nameTag rest
      end
  end.

(** [findMatchingConfig] finds the Terraform configuration that matches
    the given AWS instance; it returns the configuration, or nil, and
    makes the calls to the logger that are listed. *)
Definition findMatchingConfig (awsConfig : option InstanceConfig.t)
    (tfConfigs : list (option InstanceConfig.t))
  : outcome (option InstanceConfig.t * list LogCall) :=
  match awsConfig with
  | None => Panic
  | Some awsConfig =>
      (* First try to match by instance ID *)
      byID ← matchByID (InstanceConfig.InstanceID awsConfig) tfConfigs;
      match byID with
      | Some cfg =>
          Ok (Some cfg,
              [ {| level := logger.LevelDebug;
                   format := "Found matching config by instance ID";
                   args := ["instance_id"; InstanceConfig.InstanceID cfg] |} ])
      | None =>
          let fallback :=
            Ok (default None (head tfConfigs),
                [ {| level := logger.LevelWarn;
                     format :=
                       "No exact matching Terraform configuration found, using first available config";
                     args := [] |} ]) in
          (* Then try to match by tags (Name tag is most common) *)
          match default ∅ (InstanceConfig.Tags awsConfig) !! "Name" with
          | Some nameTag =>
              byName ← matchByName nameTag tfConfigs;
              match byName with
              | Some cfg =>
                  Ok (Some cfg,
                      [ {| level := logger.LevelDebug;
                           format := "Found matching config by Name tag";
                           args := ["name"; nameTag] |} ])
              | None => fallback
              end
          | None => fallback
          end
      end
  end.

(** [config.Tags = tags]: the configuration after the assignment. *)
Definition setTags (tags : option (gmap string string))
    (c : InstanceConfig.t) : InstanceConfig.t :=
  {| InstanceConfig.InstanceID := InstanceConfig.InstanceID c;
     InstanceConfig.InstanceType := InstanceConfig.InstanceType c;
     InstanceConfig.AMI := InstanceConfig.AMI c;
     InstanceConfig.KeyName := InstanceConfig.KeyName c;
     InstanceConfig.Tags := tags;
     InstanceConfig.VPCID := InstanceConfig.VPCID c;
     InstanceConfig.SubnetID := InstanceConfig.SubnetID c;
     InstanceConfig.SecurityGroups := InstanceConfig.SecurityGroups c;
     InstanceConfig.PublicIPAddress := InstanceConfig.PublicIPAddress c;
     InstanceConfig.PrivateIPAddress := InstanceConfig.PrivateIPAddress c;
     InstanceConfig.AssociatePublicIPAddress := InstanceConfig.AssociatePublicIPAddress c;
     InstanceConfig.SourceDestCheck := InstanceConfig.SourceDestCheck c;
     InstanceConfig.PrivateDNSName := InstanceConfig.PrivateDNSName c;
     InstanceConfig.PublicDNSName := InstanceConfig.PublicDNSName c;
     InstanceConfig.RootVolumeSize := InstanceConfig.RootVolumeSize c;
     InstanceConfig.RootVolumeType := InstanceConfig.RootVolumeType c;
     InstanceConfig.RootVolumeIops := InstanceConfig.RootVolumeIops c;
     InstanceConfig.RootVolumeThroughput := InstanceConfig.RootVolumeThroughput c;
     InstanceConfig.RootVolumeEncrypted := InstanceConfig.RootVolumeEncrypted c;
     InstanceConfig.RootVolumeKMSKeyID := InstanceConfig.RootVolumeKMSKeyID c;
     InstanceConfig.EBSOptimized := InstanceConfig.EBSOptimized c;
     InstanceConfig.IAMInstanceProfile := InstanceConfig.IAMInstanceProfile c;
     InstanceConfig.Monitoring := InstanceConfig.Monitoring c;
     InstanceConfig.AvailabilityZone := InstanceConfig.AvailabilityZone c;
     InstanceConfig.Tenancy := InstanceConfig.Tenancy c;
     InstanceConfig.HostID := InstanceConfig.HostID c;
     InstanceConfig.PlacementGroup := InstanceConfig.PlacementGroup c;
     InstanceConfig.CPUCoreCount := InstanceConfig.CPUCoreCount c;
     InstanceConfig.CPUThreadsPerCore := InstanceConfig.CPUThreadsPerCore c;
     InstanceConfig.CreditSpecification := InstanceConfig.CreditSpecification c;
     InstanceConfig.Hibernation := InstanceConfig.Hibernation c;
     InstanceConfig.EnclaveOptions := InstanceConfig.EnclaveOptions c;
     InstanceConfig.UserData := InstanceConfig.UserData c;
     InstanceConfig.MetadataOptions := InstanceConfig.MetadataOptions c;
     InstanceConfig.DisableAPITermination := InstanceConfig.DisableAPITermination c;
     InstanceConfig.InstanceInitiatedShutdownBehavior := InstanceConfig.InstanceInitiatedShutdownBehavior c;
     InstanceConfig.LaunchTemplate := InstanceConfig.LaunchTemplate c;
     InstanceConfig.Timeouts := InstanceConfig.Timeouts c;
     InstanceConfig.EBSBlockDevices := InstanceConfig.EBSBlockDevices c;
     InstanceConfig.EphemeralBlockDevices := InstanceConfig.EphemeralBlockDevices c;
     InstanceConfig.NetworkInterfaces := InstanceConfig.NetworkInterfaces c |}.

(** The loop of [validateMockConfig] over the security groups, from index
    [i] on: the index of the first group without a [GroupID]. *)
Fixpoint missingGroupID (i : nat) (sgs : list SecurityGroup.t)
  : option nat :=
  match sgs with
  | [] => None
  | sg :: rest =>
      if decide (SecurityGroup.GroupID sg = "") then Some i
      else missingGroupID (S i) rest
  end.

(** [validateMockConfig] validates the structure of the mock
    configuration.  It returns the configuration as the call leaves it (a
    nil [Tags] map is replaced by an empty one once the instance ID is
    accepted) and the error, if any. *)
Definition validateMockConfig (config : option InstanceConfig.t)
  : outcome (InstanceConfig.t * option string) :=
  match config with
  | None => Panic
  | Some config =>
      if decide (InstanceConfig.InstanceID config = "") then
        Ok (config, Some "mock configuration must include InstanceID")
      else
        (* Validate tags if present *)
        let config :=
          match InstanceConfig.Tags config with
          | None => setTags (Some ∅) config
          | Some _ => config
          end in
        (* Validate security groups if present *)
        match missingGroupID 0
                (default [] (InstanceConfig.SecurityGroups config)) with
        | Some i =>
            Ok (config,
                Some ("security group at index " +:+ pretty i +:+
                      " is missing GroupID"))
        | None => Ok (config, None)
        end
  end.

End cmd.

(** ** Concrete run-time choices and inputs used in examples *)

Module samples.
Import reflect.

(** Two iteration orders a Go run time may pick. *)
Definition inOrder : MapOrder :=
  {| visit := id; visit_perm := λ ks, reflexivity ks |}.
Definition reversed : MapOrder :=
  {| visit := reverse; visit_perm := reverse_Permutation |}.

(** A rendering that prints scalars and nil the way [%v] does, and
    nothing for composite values. *)
Definition plain : Formatter :=
  {| verb_v := λ x,
       match x with
       | None => "<nil>"
       | Some (VString s) => s
       | Some (VInt n) => pretty n
       | Some (VBool b) => if b then "true" else "false"
       | Some _ => ""
       end |}.

Definition sg (id name : string) : models.SecurityGroup.t :=
  {| models.SecurityGroup.GroupID := id;
     models.SecurityGroup.GroupName := name |}.

(** An [InstanceConfig] literal that sets the named fields and leaves
    every other field at its zero value. *)
Definition config (id type : string)
    (tags : option (gmap string string))
    (sgs : option (list models.SecurityGroup.t))
    (credit : option models.CreditSpecification.t)
  : models.InstanceConfig.t :=
  {| models.InstanceConfig.InstanceID := id;
     models.InstanceConfig.InstanceType := type;
     models.InstanceConfig.AMI := "";
     models.InstanceConfig.KeyName := "";
     models.InstanceConfig.Tags := tags;
     models.InstanceConfig.VPCID := "";
     models.InstanceConfig.SubnetID := "";
     models.InstanceConfig.SecurityGroups := sgs;
     models.InstanceConfig.PublicIPAddress := "";
     models.InstanceConfig.PrivateIPAddress := "";
     models.InstanceConfig.AssociatePublicIPAddress := None;
     models.InstanceConfig.SourceDestCheck := None;
     models.InstanceConfig.PrivateDNSName := "";
     models.InstanceConfig.PublicDNSName := "";
     models.InstanceConfig.RootVolumeSize := 0;
     models.InstanceConfig.RootVolumeType := "";
     models.InstanceConfig.RootVolumeIops := 0;
     models.InstanceConfig.RootVolumeThroughput := 0;
     models.InstanceConfig.RootVolumeEncrypted := None;
     models.InstanceConfig.RootVolumeKMSKeyID := "";
     models.InstanceConfig.EBSOptimized := None;
     models.InstanceConfig.IAMInstanceProfile := "";
     models.InstanceConfig.Monitoring := None;
     models.InstanceConfig.AvailabilityZone := "";
     models.InstanceConfig.Tenancy := "";
     models.InstanceConfig.HostID := "";
     models.InstanceConfig.PlacementGroup := "";
     models.InstanceConfig.CPUCoreCount := None;
     models.InstanceConfig.CPUThreadsPerCore := None;
     models.InstanceConfig.CreditSpecification := credit;
     models.InstanceConfig.Hibernation := None;
     models.InstanceConfig.EnclaveOptions := None;
     models.InstanceConfig.UserData := "";
     models.InstanceConfig.MetadataOptions := None;
     models.InstanceConfig.DisableAPITermination := None;
     models.InstanceConfig.InstanceInitiatedShutdownBehavior := "";
     models.InstanceConfig.LaunchTemplate := None;
     models.InstanceConfig.Timeouts := None;
     models.InstanceConfig.EBSBlockDevices := None;
     models.InstanceConfig.EphemeralBlockDevices := None;
     models.InstanceConfig.NetworkInterfaces := None |}.


(** An [Instance] literal, likewise. *)
Definition instance (id type : string)
    (tags : option (gmap string string))
    (sgs : option (list domain_models.SecurityGroup.t))
  : domain_models.Instance.t :=
  {| domain_models.Instance.ID := id;
     domain_models.Instance.Type_ := type;
     domain_models.Instance.AMI := "";
     domain_models.Instance.KeyName := "";
     domain_models.Instance.Tags := tags;
     domain_models.Instance.VPCID := "";
     domain_models.Instance.SubnetID := "";
     domain_models.Instance.SecurityGroups := sgs;
     domain_models.Instance.PublicIPAddress := "";
     domain_models.Instance.PrivateIPAddress := "";
     domain_models.Instance.AssociatePublicIPAddress := None;
     domain_models.Instance.PrivateDNSName := "";
     domain_models.Instance.PublicDNSName := "";
     domain_models.Instance.RootVolumeSize := 0;
     domain_models.Instance.RootVolumeType := "";
     domain_models.Instance.RootVolumeIops := 0;
     domain_models.Instance.RootVolumeEncrypted := None;
     domain_models.Instance.IAMInstanceProfile := "";
     domain_models.Instance.Monitoring := None;
     domain_models.Instance.AvailabilityZone := "";
     domain_models.Instance.Tenancy := "" |}.

End samples.

(** ** Notions used to state the properties *)

(** What a step appended, and whether it returned at all. *)
Definition logOf {D : Type} (m : outcome (list D)) : list D :=
  match m with Ok ds => ds | _ => [] end.

Definition is_Ok {A : Type} (m : outcome A) : Prop := ∃ a, m = Ok a.

Module facts.
Import reflect.

(** The fields of a struct value against the fields of its declaration. *)
Definition fields_typed (decls : string → list (string * gotype))
    (fs : list (string * value)) (ds : list (string * gotype)) : Prop :=
  Forall2 (λ f d, f.1 = d.1 ∧ has_type decls d.2 f.2 = true) fs ds.

(** No map occurs anywhere inside the value. *)
Fixpoint mapFree (v : value) : bool :=
  match v with
  | VMap _ => false
  | VPtr _ (Some x) => mapFree x
  | VStruct _ fs =>
      (fix fields (fs : list (string * value)) : bool :=
         match fs with
         | [] => true
         | (_, x) :: r => mapFree x && fields r
         end) fs
  | VSlice _ (Some l) => forallb mapFree l
  | _ => true
  end.

(** [q] lies strictly beneath [p]: it extends [p] by a field selector or
    by an index or key. *)
Definition beneath (p q : string) : Prop :=
  ∃ rest, q = p +:+ "." +:+ rest ∨ q = p +:+ "[" +:+ rest.

(** The desired instances indexed by ID, as [BatchDetectDrift] builds
    them. *)
Definition byID (l : list domain_models.Instance.t)
    (m : gmap string domain_models.Instance.t)
  : gmap string domain_models.Instance.t :=
  foldl (λ m i, <[domain_models.Instance.ID i := i]> m) m l.

Definition keyed (m : gmap string domain_models.Instance.t) : Prop :=
  ∀ id i, m !! id = Some i → domain_models.Instance.ID i = id.

(** No entry of the result is a nil report, and every report has the
    property [Q]. *)
Definition filled (Q : domain_models.DriftReport → Prop)
    (reports : gmap string (option domain_models.DriftReport)) : Prop :=
  ∀ id v, reports !! id = Some v → ∃ r, v = Some r ∧ Q r.

(** The reports [BatchDetectDrift] makes up for an instance that is on
    one side only. *)
Definition onlyInActual (a : domain_models.Instance.t)
  : domain_models.DriftReport :=
  domain_models.AddDrift
    (domain_models.NewDrift domain_models.DriftTypeRemoved "" None None
       "Instance exists in actual state but not in desired state")
    (domain_models.NewDriftReport (domain_models.Instance.ID a)).

Definition onlyInDesired (e : domain_models.Instance.t)
  : domain_models.DriftReport :=
  domain_models.AddDrift
    (domain_models.NewDrift domain_models.DriftTypeAdded "" None
       (Some (domain_models.pointerTo e))
       "Instance exists in desired state but not in actual state")
    (domain_models.NewDriftReport (domain_models.Instance.ID e)).

Definition ids (l : list domain_models.Instance.t) : gset string :=
  list_to_set (domain_models.Instance.ID <$> l).

(** A security group with the key it is indexed by. *)
Definition entry (sg : models.SecurityGroup.t)
  : string * models.SecurityGroup.t :=
  (models.SecurityGroup.GroupID sg, sg).

(** What the kind of a drift says about its two values.  In the
    detector, [Added] carries the actual value only, [Removed] the
    expected value only; in the domain service, [Removed] carries no
    value and [Added] the expected value only.  In both, the two values of
    a [Modified] drift differ. *)
Definition drift_ok (x : detector.Drift) : Prop :=
  match detector.Type_ x with
  | detector.DriftTypeAdded =>
      is_Some (detector.Actual x) ∧ detector.Expected x = None
  | detector.DriftTypeRemoved =>
      is_Some (detector.Expected x) ∧ detector.Actual x = None
  | detector.DriftTypeModified => detector.Actual x ≠ detector.Expected x
  end.

Definition domain_drift_ok (x : domain_models.Drift) : Prop :=
  match domain_models.Type_ x with
  | domain_models.DriftTypeAdded =>
      domain_models.Actual x = None ∧ is_Some (domain_models.Expected x)
  | domain_models.DriftTypeRemoved =>
      domain_models.Actual x = None ∧ domain_models.Expected x = None
  | domain_models.DriftTypeModified =>
      is_Some (domain_models.Actual x) ∧
      is_Some (domain_models.Expected x) ∧
      domain_models.Actual x ≠ domain_models.Expected x
  end.

(** The invariant the specification states for every drift. *)
Definition domain_drift_as_specified (x : domain_models.Drift) : Prop :=
  match domain_models.Type_ x with
  | domain_models.DriftTypeAdded =>
      is_Some (domain_models.Actual x) ∧ domain_models.Expected x = None
  | domain_models.DriftTypeRemoved =>
      is_Some (domain_models.Expected x) ∧ domain_models.Actual x = None
  | domain_models.DriftTypeModified =>
      is_Some (domain_models.Actual x) ∧
      is_Some (domain_models.Expected x) ∧
      domain_models.Actual x ≠ domain_models.Expected x
  end.

(** The [hasDrift] invariant of a report, in either package. *)
Definition report_ok (r : domain_models.DriftReport) : Prop :=
  domain_models.HasDrift r
  = bool_decide (0 < length (domain_models.Drifts r)).

Definition detector_report_ok (r : detector.DriftReport) : Prop :=
  detector.HasDrift r = bool_decide (0 < length (detector.Drifts r)).

(** The path of a struct field under [prefix], as [compareStruct] builds
    it. *)
Definition fieldPath (prefix fieldName : string) : string :=
  (if decide (prefix ≠ "") then prefix +:+ "." else prefix) +:+ fieldName.

(** The drift [compareStruct] appends for a value that is missing on the
    expected side. *)
Definition addedField (prefix : string) (actual : value) : detector.Drift :=
  {| detector.Type_ := detector.DriftTypeAdded;
     detector.Path := prefix;
     detector.Actual := detector.safeInterface actual;
     detector.Expected := None;
     detector.Description :=
       "Field " +:+ prefix +:+
       " is present in actual but missing in expected" |}.

(** The drift [DetectDrift] appends when one configuration is nil. *)
Definition oneSideNil : detector.Drift :=
  {| detector.Type_ := detector.DriftTypeModified;
     detector.Path := "";
     detector.Actual := None;
     detector.Expected := None;
     detector.Description := "One of the configurations is nil" |}.


(** The drift the detector's [compareSlices] appends for the security
    group ID [id], given the group indexed under that ID on either side,
    if any. *)
Definition groupDrift (id : string)
    (actual expected : option models.SecurityGroup.t)
  : option detector.Drift :=
  match actual, expected with
  | Some actualSG, Some expectedSG =>
      if decide (models.SecurityGroup.GroupName actualSG
                 ≠ models.SecurityGroup.GroupName expectedSG) then
        Some {| detector.Type_ := detector.DriftTypeModified;
                detector.Path :=
                  "SecurityGroups" +:+ "[" +:+ id +:+ "].GroupName";
                detector.Actual :=
                  Some (VString (models.SecurityGroup.GroupName actualSG));
                detector.Expected :=
                  Some (VString (models.SecurityGroup.GroupName expectedSG));
                detector.Description :=
                  "Security group " +:+ id +:+
                  " name has changed. Actual: " +:+
                  models.SecurityGroup.GroupName actualSG +:+
                  ", Expected: " +:+
                  models.SecurityGroup.GroupName expectedSG |}
      else None
  | None, Some expectedSG =>
      Some {| detector.Type_ := detector.DriftTypeRemoved;
              detector.Path := "SecurityGroups" +:+ "[" +:+ id +:+ "]";
              detector.Actual := None;
              detector.Expected :=
                Some (models.ValueOfSecurityGroup expectedSG);
              detector.Description :=
                "Security group " +:+ id +:+
                " is present in expected but missing in actual" |}
  | Some actualSG, None =>
      Some {| detector.Type_ := detector.DriftTypeAdded;
              detector.Path := "SecurityGroups" +:+ "[" +:+ id +:+ "]";
              detector.Actual := Some (models.ValueOfSecurityGroup actualSG);
              detector.Expected := None;
              detector.Description :=
                "Security group " +:+ id +:+
                " is present in actual but missing in expected" |}
  | None, None => None
  end.



(** A tag of the EC2 API that has both a key and a value. *)
Definition complete (tag : aws.types.Tag) : option (string * string) :=
  key ← aws.types.Key tag; value ← aws.types.Value tag; Some (key, value).

Definition ofGroupIdentifier (sg : aws.types.GroupIdentifier)
  : models.SecurityGroup.t :=
  {| models.SecurityGroup.GroupID := aws.ToString (aws.types.GroupId sg);
     models.SecurityGroup.GroupName :=
       aws.ToString (aws.types.GroupName sg) |}.

(** The drift the detector's [compareMaps] appends for the tag [key],
    given the value of the tag on either side, if any. *)
Definition tagDrift (key : string) (actual expected : option string)
  : option detector.Drift :=
  match actual, expected with
  | Some actualValue, Some expectedValue =>
      if decide (actualValue ≠ expectedValue) then
        Some {| detector.Type_ := detector.DriftTypeModified;
                detector.Path := "Tags" +:+ "[" +:+ key +:+ "]";
                detector.Actual := Some (VString actualValue);
                detector.Expected := Some (VString expectedValue);
                detector.Description :=
                  "Tag " +:+ key +:+ " has changed. Actual: "
                  +:+ actualValue +:+ ", Expected: " +:+ expectedValue |}
      else None
  | None, Some expectedValue =>
      Some {| detector.Type_ := detector.DriftTypeRemoved;
              detector.Path := "Tags" +:+ "[" +:+ key +:+ "]";
              detector.Actual := None;
              detector.Expected := Some (VString expectedValue);
              detector.Description :=
                "Tag " +:+ key +:+
                " is present in expected but missing in actual" |}
  | Some actualValue, None =>
      Some {| detector.Type_ := detector.DriftTypeAdded;
              detector.Path := "Tags" +:+ "[" +:+ key +:+ "]";
              detector.Actual := Some (VString actualValue);
              detector.Expected := None;
              detector.Description :=
                "Tag " +:+ key +:+
                " is present in actual but missing in expected" |}
  | None, None => None
  end.

(** The instances of a list that carry the given ID, in list order. *)
Definition withID (id : string) (l : list domain_models.Instance.t)
  : list domain_models.Instance.t :=
  filter (λ i, domain_models.Instance.ID i = id) l.

(** The report the first loop of [BatchDetectDrift] stores for an actual
    instance. *)
Definition compared (ord : reflect.MapOrder)
    (s : services.DefaultDetectionService)
    (desiredMap : gmap string domain_models.Instance.t)
    (a : domain_models.Instance.t) : domain_models.DriftReport :=
  match desiredMap !! domain_models.Instance.ID a with
  | Some e =>
      match services.CompareInstances ord (services.detector s)
              (Some a) (Some e) with
      | Ok r => r
      | _ => domain_models.NewDriftReport (domain_models.Instance.ID a)
      end
  | None => onlyInActual a
  end.

(** Two values between which the service finds no difference: equal
    scalars and pointers, maps with the same entries and slices with
    similar items, a nil map or slice counting as an empty one, and
    structs with similar fields. *)
Fixpoint similar (x y : value) {struct x} : bool :=
  match x, y with
  | VMap m, VMap m' => bool_decide (default ∅ m = default ∅ m')
  | VSlice _ l, VSlice _ l' =>
      match l, l' with
      | Some a, Some b =>
          (fix items (a b : list value) : bool :=
             match a, b with
             | [], [] => true
             | x :: r, y :: r' => similar x y && items r r'
             | _, _ => false
             end) a b
      | Some a, None => match a with [] => true | _ => false end
      | None, Some b => match b with [] => true | _ => false end
      | None, None => true
      end
  | VStruct _ fs, VStruct _ fs' =>
      (fix fields (fs fs' : list (string * value)) : bool :=
         match fs, fs' with
         | [], [] => true
         | (_, a) :: r, (_, b) :: r' => similar a b && fields r r'
         | _, _ => false
         end) fs fs'
  | _, _ => deepValueEqual x y
  end.

(** The instance with its nil collections made empty. *)
Definition settled (i : domain_models.Instance.t)
  : domain_models.Instance.t :=
  {| domain_models.Instance.ID := domain_models.Instance.ID i;
     domain_models.Instance.Type_ := domain_models.Instance.Type_ i;
     domain_models.Instance.AMI := domain_models.Instance.AMI i;
     domain_models.Instance.KeyName := domain_models.Instance.KeyName i;
     domain_models.Instance.Tags :=
       Some (default ∅ (domain_models.Instance.Tags i));
     domain_models.Instance.VPCID := domain_models.Instance.VPCID i;
     domain_models.Instance.SubnetID := domain_models.Instance.SubnetID i;
     domain_models.Instance.SecurityGroups :=
       Some (default [] (domain_models.Instance.SecurityGroups i));
     domain_models.Instance.PublicIPAddress :=
       domain_models.Instance.PublicIPAddress i;
     domain_models.Instance.PrivateIPAddress :=
       domain_models.Instance.PrivateIPAddress i;
     domain_models.Instance.AssociatePublicIPAddress :=
       domain_models.Instance.AssociatePublicIPAddress i;
     domain_models.Instance.PrivateDNSName :=
       domain_models.Instance.PrivateDNSName i;
     domain_models.Instance.PublicDNSName :=
       domain_models.Instance.PublicDNSName i;
     domain_models.Instance.RootVolumeSize :=
       domain_models.Instance.RootVolumeSize i;
     domain_models.Instance.RootVolumeType :=
       domain_models.Instance.RootVolumeType i;
     domain_models.Instance.RootVolumeIops :=
       domain_models.Instance.RootVolumeIops i;
     domain_models.Instance.RootVolumeEncrypted :=
       domain_models.Instance.RootVolumeEncrypted i;
     domain_models.Instance.IAMInstanceProfile :=
       domain_models.Instance.IAMInstanceProfile i;
     domain_models.Instance.Monitoring :=
       domain_models.Instance.Monitoring i;
     domain_models.Instance.AvailabilityZone :=
       domain_models.Instance.AvailabilityZone i;
     domain_models.Instance.Tenancy := domain_models.Instance.Tenancy i |}.

(** A value without maps and slices, whose structs have fields and only
    exported ones: the values [compareStruct] walks through field by
    field and pointer by pointer. *)
Fixpoint walkable (v : value) : bool :=
  match v with
  | Invalid | VMap _ | VSlice _ _ => false
  | VPtr _ (Some x) => walkable x
  | VStruct _ fs =>
      match fs with [] => false | _ => true end &&
      (fix fields (fs : list (string * value)) : bool :=
         match fs with
         | [] => true
         | (f, x) :: r => exported f && walkable x && fields r
         end) fs
  | _ => true
  end.

(** What the detector takes for equal at a field of the configuration:
    [Tags] with the same entries, [SecurityGroups] with the same index by
    group ID, any other slice with the same items in the same order (a
    nil map or slice counting as an empty one), and any other value equal
    to the other. *)
Definition agreeAt (f : string) (x y : value) : Prop :=
  match x, y with
  | VMap m, VMap m' => default ∅ m = default ∅ m'
  | VSlice _ l, VSlice _ l' =>
      if decide (f = "SecurityGroups") then
        detector.byGroupID (default [] (detector.assertSecurityGroups x).1)
        = detector.byGroupID (default [] (detector.assertSecurityGroups y).1)
      else default [] l = default [] l'
  | _, _ => x = y
  end.

(** The shapes of the fields of a configuration: the map is [Tags], the
    slice of structs is [SecurityGroups], every other slice holds
    pointers, and the other fields are walkable. *)
Definition shallow (f : string) (x : value) : Prop :=
  match x with
  | VMap _ => f = "Tags"
  | VSlice t _ =>
      if decide (f = "SecurityGroups") then
        ∃ sgs, x = models.ValueOfSecurityGroups sgs
      else ∃ t0, t = TPtr t0
  | _ => f ≠ "Tags" ∧ f ≠ "SecurityGroups" ∧ walkable x = true
  end.

(** The configuration without its collections. *)
Definition withoutCollections (c : models.InstanceConfig.t)
  : models.InstanceConfig.t :=
  {| models.InstanceConfig.InstanceID := models.InstanceConfig.InstanceID c;
     models.InstanceConfig.InstanceType := models.InstanceConfig.InstanceType c;
     models.InstanceConfig.AMI := models.InstanceConfig.AMI c;
     models.InstanceConfig.KeyName := models.InstanceConfig.KeyName c;
     models.InstanceConfig.Tags := None;
     models.InstanceConfig.VPCID := models.InstanceConfig.VPCID c;
     models.InstanceConfig.SubnetID := models.InstanceConfig.SubnetID c;
     models.InstanceConfig.SecurityGroups := None;
     models.InstanceConfig.PublicIPAddress := models.InstanceConfig.PublicIPAddress c;
     models.InstanceConfig.PrivateIPAddress := models.InstanceConfig.PrivateIPAddress c;
     models.InstanceConfig.AssociatePublicIPAddress := models.InstanceConfig.AssociatePublicIPAddress c;
     models.InstanceConfig.SourceDestCheck := models.InstanceConfig.SourceDestCheck c;
     models.InstanceConfig.PrivateDNSName := models.InstanceConfig.PrivateDNSName c;
     models.InstanceConfig.PublicDNSName := models.InstanceConfig.PublicDNSName c;
     models.InstanceConfig.RootVolumeSize := models.InstanceConfig.RootVolumeSize c;
     models.InstanceConfig.RootVolumeType := models.InstanceConfig.RootVolumeType c;
     models.InstanceConfig.RootVolumeIops := models.InstanceConfig.RootVolumeIops c;
     models.InstanceConfig.RootVolumeThroughput := models.InstanceConfig.RootVolumeThroughput c;
     models.InstanceConfig.RootVolumeEncrypted := models.InstanceConfig.RootVolumeEncrypted c;
     models.InstanceConfig.RootVolumeKMSKeyID := models.InstanceConfig.RootVolumeKMSKeyID c;
     models.InstanceConfig.EBSOptimized := models.InstanceConfig.EBSOptimized c;
     models.InstanceConfig.IAMInstanceProfile := models.InstanceConfig.IAMInstanceProfile c;
     models.InstanceConfig.Monitoring := models.InstanceConfig.Monitoring c;
     models.InstanceConfig.AvailabilityZone := models.InstanceConfig.AvailabilityZone c;
     models.InstanceConfig.Tenancy := models.InstanceConfig.Tenancy c;
     models.InstanceConfig.HostID := models.InstanceConfig.HostID c;
     models.InstanceConfig.PlacementGroup := models.InstanceConfig.PlacementGroup c;
     models.InstanceConfig.CPUCoreCount := models.InstanceConfig.CPUCoreCount c;
     models.InstanceConfig.CPUThreadsPerCore := models.InstanceConfig.CPUThreadsPerCore c;
     models.InstanceConfig.CreditSpecification := models.InstanceConfig.CreditSpecification c;
     models.InstanceConfig.Hibernation := models.InstanceConfig.Hibernation c;
     models.InstanceConfig.EnclaveOptions := models.InstanceConfig.EnclaveOptions c;
     models.InstanceConfig.UserData := models.InstanceConfig.UserData c;
     models.InstanceConfig.MetadataOptions := models.InstanceConfig.MetadataOptions c;
     models.InstanceConfig.DisableAPITermination := models.InstanceConfig.DisableAPITermination c;
     models.InstanceConfig.InstanceInitiatedShutdownBehavior := models.InstanceConfig.InstanceInitiatedShutdownBehavior c;
     models.InstanceConfig.LaunchTemplate := models.InstanceConfig.LaunchTemplate c;
     models.InstanceConfig.Timeouts := models.InstanceConfig.Timeouts c;
     models.InstanceConfig.EBSBlockDevices := None;
     models.InstanceConfig.EphemeralBlockDevices := None;
     models.InstanceConfig.NetworkInterfaces := None |}.

(** Two configurations between which the detector finds no difference:
    they are equal outside their collections, their [Tags] hold the same
    entries, their [SecurityGroups] give the same index by group ID, and
    their block devices and network interfaces are the same lists, a nil
    map or slice counting as an empty one. *)
Definition agree (a e : models.InstanceConfig.t) : Prop :=
  withoutCollections a = withoutCollections e ∧
  default ∅ (models.InstanceConfig.Tags a)
  = default ∅ (models.InstanceConfig.Tags e) ∧
  detector.byGroupID (default [] (models.InstanceConfig.SecurityGroups a))
  = detector.byGroupID (default [] (models.InstanceConfig.SecurityGroups e)) ∧
  default [] (models.InstanceConfig.EBSBlockDevices a)
  = default [] (models.InstanceConfig.EBSBlockDevices e) ∧
  default [] (models.InstanceConfig.EphemeralBlockDevices a)
  = default [] (models.InstanceConfig.EphemeralBlockDevices e) ∧
  default [] (models.InstanceConfig.NetworkInterfaces a)
  = default [] (models.InstanceConfig.NetworkInterfaces e).

End facts.
Import facts.

(** * Properties *)

(** ** Outcomes and loops *)

Section outcome_facts.
Context {X D : Type}.
Implicit Types (body : X → outcome (list D)) (xs : list X).
Implicit Types (m : outcome (list D)) (ds : list D).

Lemma is_Ok_Ok {A : Type} (a : A) : is_Ok (Ok a).
Proof. unfold is_Ok. eauto. Qed.

Lemma is_Ok_logOf m : is_Ok m → m = Ok (logOf m).
Proof. by intros [ds ->]. Qed.

Lemma andThen_Ok_inv m1 m2 ds :
  andThen m1 m2 = Ok ds →
  ∃ a b, m1 = Ok a ∧ m2 = Ok b ∧ ds = a ++ b.
Proof.
  destruct m1 as [a| |], m2 as [b| |]; cbn; try discriminate.
  intros [= <-]. by exists a, b.
Qed.

Lemma andThen_is_Ok m1 m2 : is_Ok m1 → is_Ok m2 → is_Ok (andThen m1 m2).
Proof. intros [a ->] [b ->]. by eexists. Qed.

Lemma forEach_cons body x xs :
  forEach body (x :: xs) = andThen (body x) (forEach body xs).
Proof. reflexivity. Qed.

(** A loop whose every iteration returns, returns what the iterations
    appended, in order. *)
Lemma forEach_Ok body xs :
  (∀ x, x ∈ xs → is_Ok (body x)) →
  forEach body xs = Ok (xs ≫= λ x, logOf (body x)).
Proof.
  induction xs as [|x xs IH]; intros Hall; [done|].
  rewrite forEach_cons, IH by (intros; apply Hall; apply list_elem_of_further; assumption).
  destruct (Hall x ltac:(apply list_elem_of_here)) as [ds Hds]. rewrite Hds. cbn. by rewrite Hds.
Qed.

Lemma forEach_Ok_inv body xs ds :
  forEach body xs = Ok ds →
  (∀ x, x ∈ xs → is_Ok (body x)) ∧ ds = xs ≫= λ x, logOf (body x).
Proof.
  revert ds. induction xs as [|x xs IH]; intros ds.
  - intros [= <-]. split; [|done]. intros x Hx. by apply elem_of_nil in Hx.
  - rewrite forEach_cons. intros (a & b & Ha & Hb & ->)%andThen_Ok_inv.
    destruct (IH _ Hb) as [Hall ->]. split.
    + intros y [->|Hy]%elem_of_cons; [by exists a | by apply Hall].
    + cbn. by rewrite Ha.
Qed.

Lemma forEach_nothing body xs :
  (∀ x, x ∈ xs → body x = Ok []) → forEach body xs = Ok [].
Proof.
  induction xs as [|x xs IH]; intros Hall; [done|].
  rewrite forEach_cons, IH by (intros; apply Hall; apply list_elem_of_further; assumption).
  by rewrite Hall by apply list_elem_of_here.
Qed.

Lemma forEach_Forall (P : D → Prop) body xs ds :
  forEach body xs = Ok ds →
  (∀ x dx, x ∈ xs → body x = Ok dx → Forall P dx) →
  Forall P ds.
Proof.
  intros [Hall ->]%forEach_Ok_inv HP. apply Forall_bind, Forall_forall.
  intros x Hx. destruct (Hall x Hx) as [dx Hdx].
  cbn. rewrite Hdx. cbn. by eapply HP.
Qed.



End outcome_facts.

(** ** Iteration over maps *)

Section range_facts.
Import reflect.
Context {V : Type}.
Implicit Types (m : gmap string V) (ord : MapOrder).

Lemma omap_lookup_fst m (l : list (string * V)) :
  (∀ k v, (k, v) ∈ l → m !! k = Some v) →
  omap (λ k, (k,.) <$> m !! k) l.*1 = l.
Proof.
  induction l as [|[k v] l IH]; intros Hl; [done|]. cbn.
  rewrite (Hl k v) by apply list_elem_of_here. cbn. f_equal. apply IH.
  intros; apply Hl; by apply list_elem_of_further.
Qed.

(** Every entry is visited exactly once, whatever the order. *)
Lemma rangeMap_Permutation ord m : rangeMap ord m ≡ₚ map_to_list m.
Proof.
  unfold rangeMap. rewrite (visit_perm ord).
  rewrite omap_lookup_fst; [done|].
  intros k v. apply elem_of_map_to_list.
Qed.

Lemma elem_of_rangeMap ord m k v : (k, v) ∈ rangeMap ord m ↔ m !! k = Some v.
Proof. rewrite rangeMap_Permutation. apply elem_of_map_to_list. Qed.


Lemma rangeMap_empty ord : rangeMap ord (∅ : gmap string V) = [].
Proof.
  apply Permutation_nil_r. rewrite rangeMap_Permutation.
  by rewrite map_to_list_empty.
Qed.

End range_facts.

(** ** Reflected values: depth, typing, deep equality *)

Section value_facts.
Import reflect.

Lemma height_field n fs f x : (f, x) ∈ fs → height x < height (VStruct n fs).
Proof.
  cbn. induction fs as [|[g y] fs IH]; intros Hin.
  - by apply elem_of_nil in Hin.
  - apply elem_of_cons in Hin as [[= <- <-]|Hin]; [lia|].
    specialize (IH Hin). lia.
Qed.

Lemma height_item t l x : x ∈ l → height x < height (VSlice t (Some l)).
Proof.
  cbn. induction l as [|y l IH]; intros Hin.
  - by apply elem_of_nil in Hin.
  - apply elem_of_cons in Hin as [<-|Hin]; [lia|].
    specialize (IH Hin). lia.
Qed.

Lemma height_deref v : height (deref v) ≤ height v.
Proof. destruct v as [| | | |t [x|]| | |]; cbn; lia. Qed.

Lemma deref_valid_eq v :
  match v with VPtr _ _ => True | _ => deref v = v end.
Proof. by destruct v. Qed.

Context (decls : string → list (string * gotype)).

Lemma has_type_VStruct t n fs :
  has_type decls t (VStruct n fs) = true ↔
  t = TStruct n ∧ fields_typed decls fs (decls n).
Proof.
  destruct t as [| | | | | |n0]; cbn; try (split; [done|by intros [? _]]).
  rewrite andb_true_iff, bool_decide_eq_true.
  enough (∀ ds,
    (fix fields (fs : list (string * value))
                (ds : list (string * gotype)) : bool :=
       match fs, ds with
       | [], [] => true
       | (f, x) :: r, (g, tg) :: r' =>
           bool_decide (f = g) && has_type decls tg x && fields r r'
       | _, _ => false
       end) fs ds = true ↔ fields_typed decls fs ds) as Hfields.
  { rewrite Hfields. split.
    - intros [-> ?]. done.
    - intros [[= ->] ?]. done. }
  induction fs as [|[f x] fs IH]; intros [|[g tg] ds]; cbn.
  - split; [constructor|done].
  - split; [done|by inversion 1].
  - split; [done|by inversion 1].
  - rewrite !andb_true_iff, bool_decide_eq_true, IH. split.
    + intros [[-> ?] ?]. by constructor.
    + inversion 1 as [|???? [??]]; simplify_eq/=. done.
Qed.

Lemma has_type_VPtr t t' p :
  has_type decls t (VPtr t' p) = true ↔
  t = TPtr t' ∧ pointee t' = true ∧
  ∀ x, p = Some x → has_type decls t' x = true.
Proof.
  destruct t as [| | |t0| | |]; cbn; try (split; [done|by intros [? _]]).
  rewrite !andb_true_iff, bool_decide_eq_true. split.
  - intros [[-> ?] Hp]. repeat split; [done|]. by intros x ->.
  - intros ([= ->] & ? & Hp). repeat split; [done|].
    destruct p as [x|]; [by apply Hp|done].
Qed.

Lemma has_type_VSlice t t' l :
  has_type decls t (VSlice t' l) = true ↔
  t = TSlice t' ∧
  ∀ xs, l = Some xs → Forall (λ x, has_type decls t' x = true) xs.
Proof.
  destruct t as [| | | |t0| |]; cbn; try (split; [done|by intros [? _]]).
  rewrite !andb_true_iff, bool_decide_eq_true. split.
  - intros [-> Hl]. split; [done|]. intros xs ->.
    apply Forall_forall. intros x Hx%list_elem_of_In.
    by eapply forallb_forall in Hl.
  - intros [[= ->] Hl]. split; [done|]. destruct l as [xs|]; [|done].
    apply forallb_forall. intros x Hx%list_elem_of_In.
    specialize (Hl _ eq_refl). by eapply Forall_forall in Hl.
Qed.

Lemma has_type_VMap t m : has_type decls t (VMap m) = true ↔ t = TMap.
Proof. destruct t; cbn; split; done. Qed.

Lemma has_type_valid t v : has_type decls t v = true → IsValid v = true.
Proof. by destruct v. Qed.

(** The shape of a typed value is fixed by its type. *)
Lemma has_type_TStruct n v :
  has_type decls (TStruct n) v = true →
  ∃ fs, v = VStruct n fs ∧ fields_typed decls fs (decls n).
Proof.
  destruct v as [| | | | |n' fs| |]; try done. intros [[= ->] ?]%has_type_VStruct.
  by exists fs.
Qed.

Lemma has_type_TPtr t v :
  has_type decls (TPtr t) v = true →
  ∃ p, v = VPtr t p ∧ pointee t = true ∧
       ∀ x, p = Some x → has_type decls t x = true.
Proof.
  destruct v as [| | | |t' p| | |]; try done.
  intros ([= ->] & ? & ?)%has_type_VPtr. by exists p.
Qed.

Lemma has_type_TSlice t v :
  has_type decls (TSlice t) v = true →
  ∃ l, v = VSlice t l ∧
       ∀ xs, l = Some xs → Forall (λ x, has_type decls t x = true) xs.
Proof.
  destruct v as [| | | | | | |t' l]; try done.
  intros [[= ->] ?]%has_type_VSlice. by exists l.
Qed.

Lemma has_type_TMap v : has_type decls TMap v = true → ∃ m, v = VMap m.
Proof. destruct v; try done. by eexists. Qed.

Lemma has_type_kind t a e :
  has_type decls t a = true → has_type decls t e = true → kind a = kind e.
Proof. destruct t, a; try done; destruct e; done. Qed.

Lemma fields_typed_lookup fs ds i f x :
  fields_typed decls fs ds → fs !! i = Some (f, x) →
  ∃ tg, ds !! i = Some (f, tg) ∧ has_type decls tg x = true.
Proof.
  intros Hfs Hi. destruct (Forall2_lookup_l _ _ _ _ _ Hfs Hi)
    as ([g tg] & Hd & Hname & Hty); simplify_eq/=. by exists tg.
Qed.

Lemma fields_typed_lookup_r fs ds i f tg :
  fields_typed decls fs ds → ds !! i = Some (f, tg) →
  ∃ x, fs !! i = Some (f, x) ∧ has_type decls tg x = true.
Proof.
  intros Hfs Hi. destruct (Forall2_lookup_r _ _ _ _ _ Hfs Hi)
    as ([g x] & Hd & Hname & Hty); simplify_eq/=. by exists x.
Qed.

Lemma fields_typed_names fs ds : fields_typed decls fs ds → fs.*1 = ds.*1.
Proof. induction 1 as [|[??] [??] ?? [??]]; simplify_eq/=; by f_equal. Qed.

(** With distinct field names, [FieldByName] finds the field itself. *)
Lemma fieldNamed_elem_of fs f x :
  NoDup fs.*1 → (f, x) ∈ fs → fieldNamed f fs = Some x.
Proof.
  induction fs as [|[g y] fs IH]; cbn; intros Hnd Hin.
  - by apply elem_of_nil in Hin.
  - apply NoDup_cons in Hnd as [Hg Hnd].
    apply elem_of_cons in Hin as [[= <- <-]|Hin].
    + by rewrite decide_True.
    + rewrite decide_False; [by apply IH|].
      intros ->. apply Hg. apply list_elem_of_fmap. by exists (f, x).
Qed.

Lemma fields_typed_fieldNamed fs fs' ds f x :
  NoDup ds.*1 → fields_typed decls fs ds → fields_typed decls fs' ds → (f, x) ∈ fs →
  ∃ tg x', has_type decls tg x = true ∧ fieldNamed f fs' = Some x' ∧
           has_type decls tg x' = true.
Proof.
  intros Hnd Hfs Hfs' [i Hi]%list_elem_of_lookup.
  destruct (fields_typed_lookup _ _ _ _ _ Hfs Hi) as (tg & Hd & Hx).
  destruct (fields_typed_lookup_r _ _ _ _ _ Hfs' Hd) as (x' & Hi' & Hx').
  exists tg, x'. repeat split; [done| |done].
  apply fieldNamed_elem_of.
  - by rewrite (fields_typed_names _ _ Hfs').
  - apply list_elem_of_lookup. by exists i.
Qed.

Lemma pointee_shape t x :
  pointee t = true → has_type decls t x = true →
  match x with
  | VBool _ | VInt _ | VString _ | VStruct _ _ => True
  | _ => False
  end.
Proof. destruct t, x; done. Qed.

End value_facts.

Section deep_equal_facts.
Import reflect.

(** [DeepEqual] holds of a value and itself. *)
Lemma deepValueEqual_refl_height n :
  ∀ v, height v < n → deepValueEqual v v = true.
Proof.
  induction n as [|n IH]; [lia|].
  intros [| | | |t [x|]|name fs| |t [l|]] Hh; cbn in *;
    rewrite ?bool_decide_eq_true_2 by done; try done.
  - apply IH. lia.
  - cbn. induction fs as [|[f x] fs IHfs]; [done|].
    rewrite bool_decide_eq_true_2 by done. cbn.
    rewrite IH by lia. cbn. apply IHfs. lia.
  - cbn. induction l as [|x l IHl]; [done|].
    rewrite IH by lia. cbn. apply IHl. lia.
Qed.

Lemma deepValueEqual_refl v : deepValueEqual v v = true.
Proof. apply (deepValueEqual_refl_height (S (height v))). lia. Qed.

Lemma DeepEqual_refl x : DeepEqual x x = true.
Proof. destruct x; [apply deepValueEqual_refl|done]. Qed.

Lemma DeepEqual_false_ne x y : DeepEqual x y = false → x ≠ y.
Proof. intros Hne ->. by rewrite DeepEqual_refl in Hne. Qed.

End deep_equal_facts.

(** ** [domain/services]: the comparison always returns *)

Section services_total.
Import reflect domain_models services.
Context (ord : MapOrder) (d : DriftDetector).
Context (decls : string → list (string * gotype)).

Lemma Interface_valid v : IsValid v = true → Interface v = Ok v.
Proof. by destruct v. Qed.

Lemma elem_of_rangeMap_keys {V} (m : gmap string V) k :
  k ∈ (rangeMap ord m).*1 ↔ is_Some (m !! k).
Proof.
  rewrite list_elem_of_fmap. split.
  - intros ([k' v] & -> & Hin%elem_of_rangeMap). by exists v.
  - intros [v Hv]. exists (k, v). split; [done|]. by apply elem_of_rangeMap.
Qed.

Lemma elem_of_zip_seq {A} (l : list A) i x :
  (i, x) ∈ zip (seq 0 (length l)) l → l !! i = Some x.
Proof.
  intros [k Hk]%list_elem_of_lookup.
  apply lookup_zip_with_Some in Hk as (j & y & [= <- <-] & Hj & Hy).
  apply lookup_seq in Hj as [-> _]. done.
Qed.

Lemma services_compareMaps_total p m m' :
  is_Ok (services.compareMaps ord p (VMap m) (VMap m')).
Proof.
  unfold services.compareMaps. apply andThen_is_Ok; cbn.
  - rewrite forEach_Ok; [apply is_Ok_Ok|].
    intros k [v Hv]%elem_of_rangeMap_keys. cbn. rewrite Hv. cbn.
    destruct (default ∅ m' !! k) as [v'|]; cbn; [|apply is_Ok_Ok].
    destruct (negb _); apply is_Ok_Ok.
  - rewrite forEach_Ok; [apply is_Ok_Ok|].
    intros k [v Hv]%elem_of_rangeMap_keys. cbn. rewrite Hv. cbn.
    destruct (default ∅ m !! k) as [v'|]; cbn; apply is_Ok_Ok.
Qed.

Lemma services_compareSlices_total self p t l l' :
  (∀ i x y q, default [] l !! i = Some x → default [] l' !! i = Some y →
     is_Ok (self q x y)) →
  is_Ok (services.compareSlices self p (VSlice t l) (VSlice t l')).
Proof.
  intros Hself. unfold services.compareSlices. cbn.
  destruct (decide _) as [Hne|Heq]; [apply is_Ok_Ok|].
  apply dec_stable in Heq.
  rewrite forEach_Ok; [apply is_Ok_Ok|].
  intros i [_ Hi]%elem_of_seq. cbn in Hi.
  destruct (lookup_lt_is_Some_2 (default [] l) i) as [x Hx]; [lia|].
  destruct (lookup_lt_is_Some_2 (default [] l') i) as [y Hy]; [lia|].
  cbn. rewrite Hx, Hy. cbn. by eapply Hself.
Qed.

Lemma services_compareStruct_total fuel :
  ∀ p t a e,
    has_type decls t a = true → has_type decls t e = true →
    height a < fuel →
    is_Ok (services.compareStruct ord fuel d p a e).
Proof.
  induction fuel as [|fuel IH]; intros p t a e Ha He Hh; [lia|].
  cbn [services.compareStruct].
  rewrite decide_False by (by rewrite (has_type_kind _ _ _ _ Ha He); intros ?).
  assert (Hscalar :
    is_Ok (a' ← Interface a; e' ← Interface e;
           if negb (DeepEqual (Some a') (Some e')) then
             Ok [NewDrift DriftTypeModified (trimDot p) (Some a') (Some e')
                   "Value mismatch"]
           else Ok [])).
  { rewrite !Interface_valid by by eapply has_type_valid. cbn.
    destruct (negb _); apply is_Ok_Ok. }
  destruct a as [| | | | |n fs|m|t' l]; try done; clear Hscalar.
  - (* struct *)
    apply has_type_VStruct in Ha as [-> Hfs].
    apply has_type_TStruct in He as (fs' & -> & Hfs').
    rewrite forEach_Ok; [apply is_Ok_Ok|].
    intros [i [f x]] Hi%elem_of_zip_seq.
    destruct (ignored d f); [apply is_Ok_Ok|].
    destruct (fields_typed_lookup _ _ _ _ _ _ Hfs Hi) as (tg & Hd & Hx).
    destruct (fields_typed_lookup_r _ _ _ _ _ _ Hfs' Hd) as (x' & Hi' & Hx').
    cbn. rewrite Hi'. cbn. eapply IH; [done..|].
    assert (height x < height (VStruct n fs)); [|lia].
    eapply height_field, list_elem_of_lookup_2, Hi.
  - (* map *)
    apply has_type_VMap in Ha as ->. apply has_type_TMap in He as [m' ->].
    apply services_compareMaps_total.
  - (* slice *)
    apply has_type_VSlice in Ha as [-> Hl].
    apply has_type_TSlice in He as (l' & -> & Hl').
    apply services_compareSlices_total. intros i x y q Hx Hy.
    destruct l as [xs|]; [|done]. destruct l' as [ys|]; [|done].
    cbn in Hx, Hy. eapply (IH _ t').
    + apply (Forall_lookup_1 _ _ _ _ (Hl _ eq_refl) Hx).
    + apply (Forall_lookup_1 _ _ _ _ (Hl' _ eq_refl) Hy).
    + assert (height x < height (VSlice t' (Some xs))); [|lia].
      eapply height_item, list_elem_of_lookup_2, Hx.
Qed.

End services_total.

Section services_instances.
Import reflect domain_models services.

Lemma domain_ptrBool_typed decls o :
  has_type decls (TPtr TBool) (domain_models.ptrBool o) = true.
Proof. by destruct o. Qed.

Lemma domain_SecurityGroup_typed sg :
  has_type domain_models.fieldsOf (TStruct "SecurityGroup")
    (domain_models.ValueOfSecurityGroup sg) = true.
Proof. reflexivity. Qed.

Lemma domain_SecurityGroups_typed sgs :
  has_type domain_models.fieldsOf (TSlice (TStruct "SecurityGroup"))
    (VSlice (TStruct "SecurityGroup")
       (fmap (M:=list) domain_models.ValueOfSecurityGroup <$> sgs)) = true.
Proof.
  apply has_type_VSlice. split; [done|]. intros xs Hxs.
  destruct sgs as [l|]; simplify_eq/=. apply Forall_fmap, Forall_forall.
  intros sg _. apply domain_SecurityGroup_typed.
Qed.

Lemma domain_ValueOf_typed i :
  has_type domain_models.fieldsOf (TStruct "Instance")
    (domain_models.ValueOf i) = true.
Proof.
  apply has_type_VStruct. split; [done|].
  let ds := eval vm_compute in (domain_models.fieldsOf "Instance") in
  change (domain_models.fieldsOf "Instance") with ds.
  unfold fields_typed.
  repeat (constructor; [split; [reflexivity|]|]); try constructor;
    cbn [fst snd];
    auto using domain_ptrBool_typed, domain_SecurityGroups_typed.
Qed.

(** [CompareInstances] returns a report for every pair of instances. *)
Lemma CompareInstances_total ord d a e :
  is_Ok (CompareInstances ord d (Some a) (Some e)).
Proof.
  unfold CompareInstances.
  change (default Invalid (domain_models.ValueOf <$> Some e))
    with (domain_models.ValueOf e).
  destruct (services_compareStruct_total ord d domain_models.fieldsOf
              (S (height (domain_models.ValueOf a))) ""
              (TStruct "Instance") (domain_models.ValueOf a)
              (domain_models.ValueOf e)) as [ds Hds];
    [apply domain_ValueOf_typed..|lia|].
  rewrite Hds. apply is_Ok_Ok.
Qed.

End services_instances.

(** ** [DefaultDetectionService.DetectDrift] *)

Section services_DetectDrift.
Import reflect domain_models services.

(** C10.  [DetectDrift] returns an error and no report exactly when a
    precondition is violated: [ErrInvalidInput] when the actual or the
    desired instance is nil, [ErrInstanceMismatch] when both are given and
    their IDs differ.  For every other pair it returns a report and a nil
    error: the comparison itself never fails. *)
Theorem DetectDrift_error_iff_precondition ord s actual desired :
  ((actual = None ∨ desired = None) ↔
     DetectDrift ord s actual desired = Ok (None, Some ErrInvalidInput)) ∧
  ((∃ a e, actual = Some a ∧ desired = Some e ∧
           Instance.ID a ≠ Instance.ID e) ↔
     DetectDrift ord s actual desired = Ok (None, Some ErrInstanceMismatch)) ∧
  ((∃ a e, actual = Some a ∧ desired = Some e ∧
           Instance.ID a = Instance.ID e) ↔
     ∃ report, DetectDrift ord s actual desired = Ok (Some report, None)).
Proof.
  destruct actual as [a|], desired as [e|].
  2-4: (cbn; split; [split; [done|auto]|];
        split; (split; [by intros (?&?&?&?&?)|]); [done|by intros [? ?]]).
  destruct (CompareInstances_total ord (detector s) a e) as [r Hr].
  change (DetectDrift ord s (Some a) (Some e)) with
    (if decide (Instance.ID a ≠ Instance.ID e)
     then Ok (None, Some ErrInstanceMismatch)
     else report ← CompareInstances ord (detector s) (Some a) (Some e);
          Ok (Some report, None)).
  destruct (decide (Instance.ID a ≠ Instance.ID e)) as [Hne|Heq].
  - split; [split; [by intros [?|?]|done]|].
    split; [split; [done|by exists a, e]|].
    split; [|by intros [? ?]]. intros (?&?&?&?&?); simplify_eq.
  - apply dec_stable in Heq. rewrite Hr. cbn.
    split; [split; [by intros [?|?]|done]|].
    split; [split; [|done]; intros (?&?&?&?&?); simplify_eq|].
    split; [by exists r|by exists a, e].
Qed.

End services_DetectDrift.

(** ** [DefaultDetectionService.BatchDetectDrift] *)

Section services_batch.
Import reflect domain_models services.
Context (ord : MapOrder) (s : DefaultDetectionService).

(** The loops are followed with a property [Q] that every report put into
    the result has. *)
Context (Q : DriftReport → Prop).
Context (Q_compared : ∀ a e r,
  CompareInstances ord (detector s) (Some a) (Some e) = Ok r → Q r).
Context (Q_only_actual : ∀ a, Q (onlyInActual a)).
Context (Q_only_desired : ∀ e, Q (onlyInDesired e)).

Lemma indexDesired_acc l m :
  foldl
    (λ acc inst,
       desiredMap ← acc;
       match inst with
       | None => Panic
       | Some i => Ok (<[Instance.ID i := i]> desiredMap)
       end)
    (Ok m) (Some <$> l) = Ok (byID l m).
Proof. revert m. induction l as [|i l IH]; intros m; [done|]. apply IH. Qed.

Lemma indexDesired_Some l : indexDesired (Some <$> l) = Ok (byID l ∅).
Proof. apply indexDesired_acc. Qed.

Lemma byID_keyed l m : keyed m → keyed (byID l m).
Proof.
  revert m. induction l as [|i l IH]; intros m Hm; [done|]. apply IH.
  intros id j. rewrite lookup_insert. case_decide; [|by apply Hm].
  by intros [= <-].
Qed.

Lemma filled_insert reports id r :
  Q r → filled Q reports → filled Q (<[id := Some r]> reports).
Proof.
  intros Hr Hf id' v. rewrite lookup_insert. case_decide; [|by apply Hf].
  intros [= <-]. by exists r.
Qed.

(** One step of the first loop: the instance gets an entry, and the loop
    goes on. *)
Lemma compareActual_Some desiredMap reports a :
  keyed desiredMap →
  ∃ r, Q r ∧
       compareActual ord s desiredMap reports (Some a)
       = Ok (inl (<[Instance.ID a := Some r]> reports)).
Proof.
  intros Hkeyed. unfold compareActual.
  destruct (desiredMap !! Instance.ID a) as [e|] eqn:He.
  - apply Hkeyed in He.
    destruct (CompareInstances_total ord (detector s) a e) as [r Hr].
    exists r. split; [by eapply Q_compared|].
    unfold DetectDrift. rewrite decide_False by (by intros ?).
    by rewrite Hr.
  - exists (onlyInActual a). split; [apply Q_only_actual|done].
Qed.

Lemma compareActual_loop desiredMap l reports :
  keyed desiredMap → filled Q reports →
  ∃ reports',
    foldl
      (λ acc actualInst,
         st ← acc;
         match st with
         | inl reports => compareActual ord s desiredMap reports actualInst
         | inr err => Ok (inr err)
         end)
      (Ok (inl reports)) (Some <$> l) = Ok (inl reports') ∧
    filled Q reports' ∧ dom reports' = ids l ∪ dom reports.
Proof.
  intros Hkeyed. revert reports.
  induction l as [|a l IH]; intros reports Hf.
  - exists reports. repeat split; [done|]. unfold ids. set_solver.
  - destruct (compareActual_Some desiredMap reports a Hkeyed)
      as (r & HQ & Hr).
    cbn [fmap list_fmap foldl mbind outcome_bind]. rewrite Hr.
    destruct (IH (<[Instance.ID a := Some r]> reports))
      as (reports' & Hloop & Hf' & Hdom); [by apply filled_insert|].
    exists reports'. repeat split; [done..|].
    rewrite Hdom, dom_insert_L. unfold ids. set_solver.
Qed.

Lemma addMissing_loop l reports :
  filled Q reports →
  ∃ reports',
    foldl (λ acc desiredInst, r ← acc; addMissing r desiredInst)
      (Ok reports) (Some <$> l) = Ok reports' ∧
    filled Q reports' ∧ dom reports' = ids l ∪ dom reports.
Proof.
  revert reports. induction l as [|e l IH]; intros reports Hf.
  - exists reports. repeat split; [done|]. unfold ids. set_solver.
  - cbn [fmap list_fmap foldl mbind outcome_bind addMissing].
    destruct (reports !! Instance.ID e) as [v|] eqn:He.
    + destruct (IH reports Hf) as (reports' & Hloop & Hf' & Hdom).
      exists reports'. repeat split; [done..|]. rewrite Hdom.
      assert (Instance.ID e ∈ dom reports) by (apply elem_of_dom; eauto).
      unfold ids. set_solver.
    + destruct (IH (<[Instance.ID e := Some (onlyInDesired e)]> reports))
        as (reports' & Hloop & Hf' & Hdom); [by apply filled_insert|].
      exists reports'. repeat split; [done..|].
      rewrite Hdom, dom_insert_L. unfold ids. set_solver.
Qed.

(** The batch returns a mapping whose keys are the IDs passed in and whose
    reports all have the property. *)
Lemma BatchDetectDrift_filled (actual desired : list Instance.t) :
  ∃ reports,
    BatchDetectDrift ord s (Some <$> actual) (Some <$> desired)
      = Ok (Some reports, None) ∧
    filled Q reports ∧ dom reports = ids desired ∪ ids actual.
Proof.
  unfold BatchDetectDrift. rewrite indexDesired_Some.
  cbn [mbind outcome_bind].
  destruct (compareActual_loop (byID desired ∅) actual ∅)
    as (reports1 & -> & Hf1 & Hdom1); [by apply byID_keyed|done|].
  cbn [mbind outcome_bind].
  destruct (addMissing_loop desired reports1 Hf1)
    as (reports2 & -> & Hf2 & Hdom2).
  exists reports2. repeat split; [done|].
  rewrite Hdom2, Hdom1. set_solver.
Qed.

End services_batch.

Section services_batch_ids.
Import reflect domain_models services.
Context (ord : MapOrder) (s : DefaultDetectionService).

(** C2.  For every batch of instances, [BatchDetectDrift] returns a
    result mapping and a nil error; the mapping holds a report for every
    instance ID that was passed in, on either side, and for no other ID.
    No comparison makes the call fail or drop another instance's
    report. *)
Theorem BatchDetectDrift_reports_every_id (actual desired : list Instance.t) :
  ∃ reports,
    BatchDetectDrift ord s (Some <$> actual) (Some <$> desired)
      = Ok (Some reports, None) ∧
    ∀ id,
      (id ∈ Instance.ID <$> actual ∨ id ∈ Instance.ID <$> desired) ↔
      ∃ report, reports !! id = Some (Some report).
Proof.
  destruct (BatchDetectDrift_filled ord s (λ _, True)) with actual desired
    as (reports & Hbatch & Hf & Hdom); [done..|].
  exists reports. split; [done|]. intros id.
  transitivity (id ∈ dom reports).
  - rewrite Hdom. unfold ids. set_solver.
  - rewrite elem_of_dom. split.
    + intros [v Hv]. destruct (Hf _ _ Hv) as (r & -> & _). by exists r.
    + intros [r Hr]. by eexists.
Qed.

(** A nil element is not an instance: the ID of every element is read
    before any comparison, and the call panics. *)
Lemma BatchDetectDrift_nil_element :
  BatchDetectDrift ord s
    [Some (samples.instance "i-1" "t2.micro" None None); None] [] = Panic.
Proof. reflexivity. Qed.

End services_batch_ids.

(** ** [internal/detector]: the comparison always returns *)

Section detector_total.
Import reflect models detector.
Context (fm : Formatter) (ord : MapOrder) (d : Detector).
Context (decls : string → list (string * gotype)).
Context (decls_nodup : ∀ n, NoDup (decls n).*1).

Lemma detector_compareMaps_total p m m' :
  is_Ok (detector.compareMaps fm ord p (VMap m) (VMap m')).
Proof.
  unfold detector.compareMaps. destruct (decide (p = "Tags")); cbn.
  - apply andThen_is_Ok; (rewrite forEach_Ok; [apply is_Ok_Ok|]).
    + intros [k v] _. destruct (default ∅ m !! k); [|apply is_Ok_Ok].
      destruct (decide _); apply is_Ok_Ok.
    + intros [k v] _. destruct (default ∅ m' !! k); apply is_Ok_Ok.
  - destruct (bool_decide (m = None)); [apply is_Ok_Ok|]. cbn.
    destruct (bool_decide (m' = None)); [apply is_Ok_Ok|].
    apply andThen_is_Ok; cbn; (rewrite forEach_Ok; [apply is_Ok_Ok|]).
    + intros k _. cbn. destruct (negb _); [apply is_Ok_Ok|].
      destruct (negb _); apply is_Ok_Ok.
    + intros k _. cbn. destruct (negb _); apply is_Ok_Ok.
Qed.

(** Indexing a slice of structs by first field never panics, and only
    holds elements of the slice. *)
Lemma indexByFirstField_acc items n (m0 : gmap string value) :
  Forall (λ x, has_type decls (TStruct n) x = true) items →
  ∃ m : gmap string value,
    foldl
      (λ acc elem,
         m ← acc;
         let elem := deref elem in
         fs ← Fields elem;
         match fs with
         | (_, VString id) :: _ => Ok (<[id := elem]> m)
         | _ => Ok m
         end)
      (Ok m0) items = Ok m ∧
    ∀ id x, m !! id = Some x → m0 !! id = Some x ∨ x ∈ items.
Proof.
  revert m0. induction items as [|x items IH]; intros m0 Hty.
  - exists m0. split; [done|]. by left.
  - apply Forall_cons in Hty as [Hx Hty].
    apply has_type_TStruct in Hx as (fs & -> & _).
    cbn [foldl mbind outcome_bind deref Fields].
    set (m1 := match fs with
               | (_, VString id) :: _ => <[id := VStruct n fs]> m0
               | _ => m0
               end).
    destruct (IH m1 Hty) as (m & Hm & Hin). exists m. split.
    + rewrite <- Hm. f_equal. subst m1.
      by destruct fs as [|[? []] ?].
    + intros id x Hx. destruct (Hin id x Hx) as [H1|H1].
      * subst m1. destruct fs as [|[f v] fs']; [by left|].
        destruct v; try by left.
        rewrite lookup_insert in H1. case_decide; [|by left].
        simplify_eq. right. apply list_elem_of_here.
      * right. by apply list_elem_of_further.
Qed.

Lemma indexByFirstField_structs items n :
  Forall (λ x, has_type decls (TStruct n) x = true) items →
  ∃ m, indexByFirstField items = Ok m ∧
       ∀ id x, m !! id = Some x → x ∈ items.
Proof.
  intros Hty. destruct (indexByFirstField_acc items n ∅ Hty) as (m & Hm & Hin).
  exists m. split; [done|]. intros id x Hx.
  destruct (Hin id x Hx) as [H1|H1]; [|done]. by rewrite lookup_empty in H1.
Qed.

Lemma detector_compareSlices_total self p t l l' :
  Forall (λ x, has_type decls t x = true) (default [] l) →
  Forall (λ x, has_type decls t x = true) (default [] l') →
  (∀ q x y, x ∈ default [] l → has_type decls t x = true →
            has_type decls t y = true → is_Ok (self q x y)) →
  is_Ok (detector.compareSlices fm ord self p (VSlice t l) (VSlice t l')).
Proof.
  intros Hl Hl' Hself. unfold detector.compareSlices.
  destruct (decide (p = "SecurityGroups")) as [_|_].
  { cbn [Interface mbind outcome_bind].
    destruct (assertSecurityGroups (VSlice t l)) as [actualSGs actualOk].
    destruct (assertSecurityGroups (VSlice t l')) as [expectedSGs expectedOk].
    destruct (negb actualOk && expectedOk); [apply is_Ok_Ok|].
    destruct (actualOk && negb expectedOk); [apply is_Ok_Ok|].
    apply andThen_is_Ok; (rewrite forEach_Ok; [apply is_Ok_Ok|]).
    - intros [k v] _. destruct (_ !! k); [|apply is_Ok_Ok].
      destruct (decide _); apply is_Ok_Ok.
    - intros [k v] _. destruct (_ !! k); apply is_Ok_Ok. }
  cbn [Len mbind outcome_bind].
  destruct (bool_decide (length (default [] l) = 0)) eqn:Hlen; cbn [andb];
    [destruct (bool_decide (length (default [] l') = 0)); apply is_Ok_Ok|].
  destruct (bool_decide (length (default [] l') = 0));
    [apply is_Ok_Ok|].
  apply bool_decide_eq_false in Hlen.
  destruct (default [] l) as [|first items] eqn:Hitems; [done|].
  cbn [Index]. rewrite Hitems. cbn [lookup list_lookup mbind outcome_bind].
  destruct (bool_decide (kind first = KStruct)) eqn:Hkind.
  - (* slices of structs *)
    apply bool_decide_eq_true in Hkind.
    pose proof (Forall_inv Hl) as Hfirst.
    destruct first as [| | | | |n fs| |]; try done.
    apply has_type_VStruct in Hfirst as [-> _].
    unfold detector.compareStructSlices. cbn [Items mbind outcome_bind].
    rewrite Hitems.
    destruct (indexByFirstField_structs _ n Hl) as (am & -> & Ham).
    destruct (indexByFirstField_structs _ n Hl') as (em & -> & Hem).
    cbn [mbind outcome_bind].
    apply andThen_is_Ok; (rewrite forEach_Ok; [apply is_Ok_Ok|]).
    + intros [id y] Hy%elem_of_rangeMap. apply Hem in Hy.
      pose proof (proj1 (Forall_forall _ _) Hl' _ Hy) as Hty.
      cbn beta in Hty.
      destruct (am !! id) as [x|] eqn:Hx.
      * apply Ham in Hx.
        pose proof (proj1 (Forall_forall _ _) Hl _ Hx) as Htx.
        by apply Hself.
      * rewrite (Interface_valid _ (has_type_valid _ _ _ Hty)).
        apply is_Ok_Ok.
    + intros [id x] Hx%elem_of_rangeMap. apply Ham in Hx.
      pose proof (proj1 (Forall_forall _ _) Hl _ Hx) as Htx.
      cbn beta in Htx.
      destruct (em !! id); [apply is_Ok_Ok|].
      rewrite (Interface_valid _ (has_type_valid _ _ _ Htx)).
      apply is_Ok_Ok.
  - cbn [Interface mbind outcome_bind]. destruct (negb _); apply is_Ok_Ok.
Qed.

Lemma detector_compareStruct_total fuel :
  ∀ p t a e,
    has_type decls t a = true →
    e = Invalid ∨ has_type decls t e = true →
    height a < fuel →
    is_Ok (detector.compareStruct fm ord fuel d p a e).
Proof.
  induction fuel as [|fuel IH]; intros p t a e Ha He Hh; [lia|].
  cbn [detector.compareStruct].
  rewrite (has_type_valid _ _ _ Ha). cbn [negb andb].
  destruct He as [->|He]; [apply is_Ok_Ok|].
  rewrite (has_type_valid _ _ _ He). cbn [negb].
  (* the loop over the fields of a struct, against a struct of the same
     type or against the zero Value *)
  assert (Hloop : ∀ n fs e',
    fields_typed decls fs (decls n) →
    height (VStruct n fs) ≤ fuel →
    e' = Invalid ∨ (∃ fs', e' = VStruct n fs' ∧
                           fields_typed decls fs' (decls n)) →
    is_Ok
      (forEach
         (λ '(fieldName, actualField),
            if negb (exported fieldName) then Ok []
            else
              let fieldPath :=
                (if decide (p ≠ "") then p +:+ "." else p) +:+ fieldName in
              if ignored d fieldPath then Ok []
              else
                expectedField ←
                  (if IsValid e' && bool_decide (kind e' = KStruct)
                   then FieldByName e' fieldName
                   else Ok Invalid);
                detector.compareStruct fm ord fuel d fieldPath actualField
                  expectedField)
         fs)).
  { intros n fs e' Hfs Hfuel He'.
    rewrite forEach_Ok; [apply is_Ok_Ok|]. intros [f x] Hin.
    destruct (negb (exported f)); [apply is_Ok_Ok|]. cbn zeta.
    destruct (ignored d _); [apply is_Ok_Ok|].
    pose proof (height_field n fs f x Hin) as Hx.
    destruct He' as [->|(fs' & -> & Hfs')]; cbn.
    - destruct (list_elem_of_lookup_1 _ _ Hin) as [i Hi].
      destruct (fields_typed_lookup _ _ _ _ _ _ Hfs Hi) as (tg & _ & Htg).
      eapply IH; [done|by left|lia].
    - destruct (fields_typed_fieldNamed decls fs fs' (decls n) f x)
        as (tg & x' & Htx & -> & Htx'); [done..|].
      cbn. eapply IH; [done|by right|lia]. }
  destruct a as [|b|z|str|t' [x|]|n fs|m|t' l]; try done;
    cbn [deref];
    try (destruct (negb _); apply is_Ok_Ok).
  - (* a pointer to a scalar or to a struct *)
    apply has_type_VPtr in Ha as (-> & Hpt & Hx).
    specialize (Hx _ eq_refl).
    apply has_type_TPtr in He as (p' & -> & _ & Hx').
    pose proof (pointee_shape _ _ _ Hpt Hx) as Hshape.
    destruct x as [|b|z|str| |n fs| |]; try done;
      try (destruct (negb _); apply is_Ok_Ok).
    apply has_type_VStruct in Hx as [-> Hfs].
    apply Hloop with n; [done|cbn in Hh |- *; lia|].
    destruct p' as [x'|]; [right|by left]. cbn.
    specialize (Hx' _ eq_refl).
    apply has_type_TStruct in Hx' as (fs' & -> & Hfs'). by exists fs'.
  - (* a struct *)
    apply has_type_VStruct in Ha as [-> Hfs].
    apply has_type_TStruct in He as (fs' & -> & Hfs').
    apply Hloop with n; [done|lia|]. right. by exists fs'.
  - (* a map *)
    apply has_type_VMap in Ha as ->. apply has_type_TMap in He as [m' ->].
    apply detector_compareMaps_total.
  - (* a slice *)
    apply has_type_VSlice in Ha as [-> Hl].
    apply has_type_TSlice in He as (l' & -> & Hl').
    apply detector_compareSlices_total.
    + destruct l; [by apply Hl|constructor].
    + destruct l'; [by apply Hl'|constructor].
    + intros q x y Hin Hx Hy. eapply IH; [done|by right|].
      destruct l as [xs|]; [|by apply elem_of_nil in Hin].
      pose proof (height_item t' xs x Hin). lia.
Qed.

End detector_total.

Section detector_configs.
Import reflect models detector.

Lemma fieldsOf_NoDup n : NoDup (models.fieldsOf n).*1.
Proof.
  unfold models.fieldsOf. repeat case_decide;
    apply (bool_decide_unpack _); vm_compute; exact I.
Qed.

Lemma ptrBool_typed decls o : has_type decls (TPtr TBool) (ptrBool o) = true.
Proof. by destruct o. Qed.

Lemma ptrInt_typed decls o : has_type decls (TPtr TInt) (ptrInt o) = true.
Proof. by destruct o. Qed.

Lemma SecurityGroups_typed sgs :
  has_type models.fieldsOf (TSlice (TStruct "SecurityGroup"))
    (ValueOfSecurityGroups sgs) = true.
Proof.
  apply has_type_VSlice. split; [done|]. intros xs Hxs.
  destruct sgs as [l|]; simplify_eq/=. apply Forall_fmap, Forall_forall.
  intros sg _. reflexivity.
Qed.

Lemma ptrTo_typed {A} name (f : A → value) o :
  (∀ x, has_type models.fieldsOf (TStruct name) (f x) = true) →
  has_type models.fieldsOf (TPtr (TStruct name)) (ptrTo name f o) = true.
Proof.
  intros Hf. apply has_type_VPtr. split; [done|]. split; [done|].
  intros x Hx. destruct o; simplify_eq/=. apply Hf.
Qed.

Lemma ptrSlice_typed {A} name (f : A → value) l :
  (∀ x, has_type models.fieldsOf (TStruct name) (f x) = true) →
  has_type models.fieldsOf (TSlice (TPtr (TStruct name)))
    (ptrSlice name f l) = true.
Proof.
  intros Hf. apply has_type_VSlice. split; [done|]. intros xs Hxs.
  destruct l as [l|]; simplify_eq/=. apply Forall_fmap, Forall_forall.
  intros o _. by apply ptrTo_typed.
Qed.

Ltac typed_struct name :=
  apply has_type_VStruct; split; [done|];
  let ds := eval vm_compute in (models.fieldsOf name) in
  change (models.fieldsOf name) with ds;
  unfold fields_typed;
  repeat (constructor; [split; [reflexivity|]|]); try constructor;
  cbn [fst snd];
  auto using ptrBool_typed, ptrInt_typed, SecurityGroups_typed.

Lemma MetadataOptions_typed m :
  has_type models.fieldsOf (TStruct "MetadataOptions")
    (ValueOfMetadataOptions m) = true.
Proof. typed_struct "MetadataOptions". Qed.

Lemma EBSBlockDevice_typed b :
  has_type models.fieldsOf (TStruct "EBSBlockDevice")
    (ValueOfEBSBlockDevice b) = true.
Proof. typed_struct "EBSBlockDevice". Qed.

Lemma EphemeralBlockDevice_typed b :
  has_type models.fieldsOf (TStruct "EphemeralBlockDevice")
    (ValueOfEphemeralBlockDevice b) = true.
Proof. typed_struct "EphemeralBlockDevice". Qed.

Lemma NetworkInterface_typed n :
  has_type models.fieldsOf (TStruct "NetworkInterface")
    (ValueOfNetworkInterface n) = true.
Proof. typed_struct "NetworkInterface". Qed.

Lemma ValueOf_typed c :
  has_type models.fieldsOf (TStruct "InstanceConfig") (models.ValueOf c)
  = true.
Proof.
  typed_struct "InstanceConfig";
    first [ apply ptrTo_typed | apply ptrSlice_typed ];
    auto using MetadataOptions_typed, EBSBlockDevice_typed,
      EphemeralBlockDevice_typed, NetworkInterface_typed.
Qed.

(** The field-by-field comparison of two configurations returns. *)
Lemma compareStruct_configs_total fm ord d a e :
  is_Ok (detector.compareStruct fm ord (S (height (models.ValueOf a))) d ""
           (models.ValueOf a) (models.ValueOf e)).
Proof.
  eapply (detector_compareStruct_total fm ord d models.fieldsOf
            fieldsOf_NoDup); [apply ValueOf_typed| |lia].
  right. apply ValueOf_typed.
Qed.

Lemma DetectDrift_total fm ord d actual expected :
  is_Ok (detector.DetectDrift fm ord d actual expected).
Proof.
  destruct actual as [a|], expected as [e|]; try apply is_Ok_Ok.
  unfold detector.DetectDrift.
  destruct (compareStruct_configs_total fm ord d a e) as [ds ->].
  apply is_Ok_Ok.
Qed.

End detector_configs.

(** ** [internal/detector]: a value compared with itself *)

Section detector_refl.
Import reflect models detector.
Context (fm : Formatter) (ord : MapOrder) (d : Detector).
Context (decls : string → list (string * gotype)).
Context (decls_nodup : ∀ n, NoDup (decls n).*1).

Lemma compareMaps_Tags_refl m :
  detector.compareMaps fm ord "Tags" (VMap m) (VMap m) = Ok [].
Proof.
  unfold detector.compareMaps. rewrite decide_True by done. cbn.
  rewrite !forEach_nothing; [done| |].
  - intros [k v] Hin%elem_of_rangeMap. by rewrite Hin.
  - intros [k v] Hin%elem_of_rangeMap. rewrite Hin.
    by rewrite decide_False by (by intros ?).
Qed.

(** The [SecurityGroups] branch: a slice against itself. *)
Lemma compareSlices_SecurityGroups_refl self v :
  IsValid v = true →
  detector.compareSlices fm ord self "SecurityGroups" v v = Ok [].
Proof.
  intros Hv. unfold detector.compareSlices. rewrite decide_True by done.
  rewrite (Interface_valid v Hv). cbn [mbind outcome_bind].
  destruct (assertSecurityGroups v) as [sgs ok].
  replace (negb ok && ok) with false by by destruct ok.
  replace (ok && negb ok) with false by by destruct ok.
  rewrite !forEach_nothing; [done| |].
  - intros [k x] Hin%elem_of_rangeMap. by rewrite Hin.
  - intros [k x] Hin%elem_of_rangeMap. rewrite Hin.
    by rewrite decide_False by (by intros ?).
Qed.

Lemma compareSlices_refl self p t l :
  Forall (λ x, has_type decls t x = true) (default [] l) →
  (∀ q x, x ∈ default [] l → self q x x = Ok []) →
  detector.compareSlices fm ord self p (VSlice t l) (VSlice t l) = Ok [].
Proof.
  intros Hl Hself. destruct (decide (p = "SecurityGroups")) as [->|Hp].
  { by apply compareSlices_SecurityGroups_refl. }
  unfold detector.compareSlices. rewrite decide_False by done.
  cbn [Len mbind outcome_bind].
  destruct (bool_decide (length (default [] l) = 0)) eqn:Hlen; cbn [andb];
    [done|].
  apply bool_decide_eq_false in Hlen.
  destruct (default [] l) as [|first items] eqn:Hitems; [done|].
  cbn [Index]. rewrite Hitems. cbn [lookup list_lookup mbind outcome_bind].
  destruct (bool_decide (kind first = KStruct)) eqn:Hkind.
  - apply bool_decide_eq_true in Hkind.
    pose proof (Forall_inv Hl) as Hfirst.
    destruct first as [| | | | |n fs| |]; try done.
    apply has_type_VStruct in Hfirst as [-> _].
    unfold detector.compareStructSlices. cbn [Items mbind outcome_bind].
    rewrite Hitems.
    destruct (indexByFirstField_structs decls _ n Hl) as (am & -> & Ham).
    cbn [mbind outcome_bind].
    rewrite !forEach_nothing; [done| |].
    + intros [id x] Hin%elem_of_rangeMap. by rewrite Hin.
    + intros [id x] Hin%elem_of_rangeMap. rewrite Hin.
      apply Hself. by apply Ham in Hin.
  - cbn [Interface mbind outcome_bind]. by rewrite DeepEqual_refl.
Qed.

(** A typed value without maps shows no drift against itself, at any
    path. *)
Lemma compareStruct_refl fuel :
  ∀ p t a,
    has_type decls t a = true → mapFree a = true → height a < fuel →
    detector.compareStruct fm ord fuel d p a a = Ok [].
Proof.
  induction fuel as [|fuel IH]; intros p t a Ha Hfree Hh; [lia|].
  cbn [detector.compareStruct].
  rewrite (has_type_valid _ _ _ Ha). cbn [negb andb].
  assert (Hloop : ∀ n fs,
    fields_typed decls fs (decls n) →
    mapFree (VStruct n fs) = true →
    height (VStruct n fs) ≤ fuel →
    forEach
      (λ '(fieldName, actualField),
         if negb (exported fieldName) then Ok []
         else
           let fieldPath :=
             (if decide (p ≠ "") then p +:+ "." else p) +:+ fieldName in
           if ignored d fieldPath then Ok []
           else
             expectedField ←
               (if IsValid (VStruct n fs)
                   && bool_decide (kind (VStruct n fs) = KStruct)
                then FieldByName (VStruct n fs) fieldName
                else Ok Invalid);
             detector.compareStruct fm ord fuel d fieldPath actualField
               expectedField)
      fs = Ok []).
  { intros n fs Hfs Hmf Hfuel. apply forEach_nothing. intros [f x] Hin.
    destruct (negb (exported f)); [done|]. cbn zeta.
    destruct (ignored d _); [done|].
    pose proof (height_field n fs f x Hin) as Hx.
    cbn. rewrite (fieldNamed_elem_of fs f x); [|
      by rewrite (fields_typed_names _ _ _ Hfs) | done].
    cbn. destruct (list_elem_of_lookup_1 _ _ Hin) as [i Hi].
    destruct (fields_typed_lookup _ _ _ _ _ _ Hfs Hi) as (tg & _ & Htg).
    eapply IH; [done| |lia].
    clear -Hin Hmf. cbn in Hmf.
    induction fs as [|[g y] fs IHfs]; [by apply elem_of_nil in Hin|].
    apply andb_true_iff in Hmf as [Hy Hmf].
    apply elem_of_cons in Hin as [[= <- <-]|Hin]; [done|by apply IHfs]. }
  destruct a as [|b|z|str|t' [x|]|n fs|m|t' l]; try done;
    cbn [deref];
    try (by rewrite DeepEqual_refl).
  - apply has_type_VPtr in Ha as (-> & Hpt & Hx).
    specialize (Hx _ eq_refl).
    pose proof (pointee_shape _ _ _ Hpt Hx) as Hshape.
    destruct x as [|b|z|str| |n fs| |]; try done;
      try (by rewrite DeepEqual_refl).
    apply has_type_VStruct in Hx as [-> Hfs].
    apply Hloop; [done|done|cbn in Hh |- *; lia].
  - apply has_type_VStruct in Ha as [-> Hfs]. apply Hloop; [done|done|lia].
  - apply has_type_VSlice in Ha as [-> Hl].
    apply (compareSlices_refl _ _ t').
    + destruct l; [by apply Hl|constructor].
    + intros q x Hin. destruct l as [xs|]; [|by apply elem_of_nil in Hin].
      eapply (IH _ t').
      * specialize (Hl _ eq_refl). by eapply Forall_forall in Hl.
      * cbn in Hfree. eapply forallb_forall in Hfree; [done|].
        by apply list_elem_of_In.
      * pose proof (height_item t' xs x Hin). lia.
Qed.

End detector_refl.

Section detector_self.
Import reflect models detector.
Context (fm : Formatter) (ord : MapOrder) (d : Detector).

Lemma mapFree_ptrBool o : mapFree (ptrBool o) = true.
Proof. by destruct o. Qed.

Lemma mapFree_ptrInt o : mapFree (ptrInt o) = true.
Proof. by destruct o. Qed.

Lemma mapFree_SecurityGroups sgs : mapFree (ValueOfSecurityGroups sgs) = true.
Proof.
  destruct sgs as [l|]; [|done]. cbn. apply forallb_forall.
  intros x (sg & -> & _)%list_elem_of_In%list_elem_of_fmap. done.
Qed.

Lemma mapFree_ptrTo {A} name (f : A → value) o :
  (∀ x, mapFree (f x) = true) → mapFree (ptrTo name f o) = true.
Proof. intros Hf. destruct o; [apply Hf|done]. Qed.

Lemma mapFree_ptrSlice {A} name (f : A → value) l :
  (∀ x, mapFree (f x) = true) → mapFree (ptrSlice name f l) = true.
Proof.
  intros Hf. destruct l as [l|]; [|done]. cbn. apply forallb_forall.
  intros x (o & -> & _)%list_elem_of_In%list_elem_of_fmap.
  by apply mapFree_ptrTo.
Qed.

Lemma mapFree_MetadataOptions m : mapFree (ValueOfMetadataOptions m) = true.
Proof.
  unfold ValueOfMetadataOptions. cbn [mapFree andb].
  by rewrite mapFree_ptrInt.
Qed.

Lemma mapFree_EBSBlockDevice b : mapFree (ValueOfEBSBlockDevice b) = true.
Proof.
  unfold ValueOfEBSBlockDevice. cbn [mapFree andb].
  by rewrite !mapFree_ptrInt, !mapFree_ptrBool.
Qed.

Lemma mapFree_EphemeralBlockDevice b :
  mapFree (ValueOfEphemeralBlockDevice b) = true.
Proof.
  unfold ValueOfEphemeralBlockDevice. cbn [mapFree andb].
  by rewrite mapFree_ptrBool.
Qed.

Lemma mapFree_NetworkInterface n :
  mapFree (ValueOfNetworkInterface n) = true.
Proof.
  unfold ValueOfNetworkInterface. cbn [mapFree andb].
  by rewrite mapFree_ptrBool.
Qed.

(** [Tags] is the only map of a configuration. *)
Lemma ValueOf_fields_mapFree c n fs :
  models.ValueOf c = VStruct n fs →
  ∀ f x, (f, x) ∈ fs → f ≠ "Tags" → mapFree x = true.
Proof.
  intros [= <- <-] f x Hin Hne.
  repeat (apply elem_of_cons in Hin as [[= -> ->]|Hin];
          [first [ done
                 | apply mapFree_ptrBool | apply mapFree_ptrInt
                 | apply mapFree_SecurityGroups
                 | apply mapFree_ptrTo; by intros []
                 | apply mapFree_ptrTo; apply mapFree_MetadataOptions
                 | apply mapFree_ptrSlice; apply mapFree_EBSBlockDevice
                 | apply mapFree_ptrSlice; apply mapFree_EphemeralBlockDevice
                 | apply mapFree_ptrSlice; apply mapFree_NetworkInterface ]
          |]).
  by apply elem_of_nil in Hin.
Qed.

Lemma ValueOf_Tags c n fs :
  models.ValueOf c = VStruct n fs →
  ∀ x, ("Tags", x) ∈ fs → x = VMap (InstanceConfig.Tags c).
Proof.
  intros [= <- <-] x Hin.
  repeat (apply elem_of_cons in Hin as [Hin|Hin]; [by simplify_eq|]).
  by apply elem_of_nil in Hin.
Qed.

(** The field-by-field walk of a configuration against itself appends
    nothing. *)
Lemma compareStruct_config_refl c :
  detector.compareStruct fm ord (S (height (models.ValueOf c))) d ""
    (models.ValueOf c) (models.ValueOf c) = Ok [].
Proof.
  pose proof (ValueOf_typed c) as Hty.
  destruct (has_type_TStruct _ _ _ Hty) as (fs & Hc & Hfs).
  pose proof (ValueOf_fields_mapFree c _ fs Hc) as Hfree.
  pose proof (ValueOf_Tags c _ fs Hc) as Htags.
  rewrite Hc in *.
  assert (NoDup fs.*1) as Hnd.
  { rewrite (fields_typed_names _ _ _ Hfs). apply fieldsOf_NoDup. }
  cbn [detector.compareStruct IsValid negb andb deref].
  apply forEach_nothing. intros [f x] Hin.
  destruct (negb (exported f)); [done|]. cbn zeta.
  rewrite decide_False by (by intros ?). change ("" +:+ f) with f.
  destruct (ignored d f); [done|].
  cbn [IsValid kind andb FieldByName Fields mbind outcome_bind].
  rewrite bool_decide_eq_true_2 by done.
  rewrite (fieldNamed_elem_of fs f x Hnd Hin).
  cbn [default mbind outcome_bind].
  pose proof (height_field "InstanceConfig" _ _ _ Hin) as Hh.
  destruct (decide (f = "Tags")) as [->|Hne].
  - rewrite (Htags _ Hin).
    set (h := height (VStruct "InstanceConfig" fs)) in *.
    destruct h as [|h]; [lia|].
    cbn [detector.compareStruct IsValid negb andb deref].
    apply compareMaps_Tags_refl.
  - destruct (list_elem_of_lookup_1 _ _ Hin) as [i Hi].
    destruct (fields_typed_lookup _ _ _ _ _ _ Hfs Hi) as (tg & _ & Htg).
    eapply (compareStruct_refl fm ord d models.fieldsOf fieldsOf_NoDup);
      [done|by eapply Hfree|exact Hh].
Qed.

(** C7.  Comparing a configuration with itself yields a report without
    drift: the drift sequence is empty and [HasDrift] is false, for every
    detector (set of ignored fields), formatter and map iteration order.
    The same holds when both sides are nil. *)
Theorem DetectDrift_self_no_drift (v : option InstanceConfig.t) :
  detector.DetectDrift fm ord d v v =
  Ok {| InstanceID := default "" (InstanceConfig.InstanceID <$> v);
        HasDrift := false;
        Drifts := [] |}.
Proof.
  destruct v as [c|]; [|done]. unfold detector.DetectDrift.
  by rewrite compareStruct_config_refl.
Qed.

End detector_self.

(** ** The [hasDrift] invariant *)

Section has_drift.
Import reflect.

Lemma AddDrift_ok drift r : report_ok (domain_models.AddDrift drift r).
Proof.
  unfold report_ok. cbn. rewrite length_app. cbn.
  symmetry. apply bool_decide_eq_true. lia.
Qed.

Lemma foldl_AddDrift_ok ds r :
  report_ok r →
  report_ok (foldl (λ r drift, domain_models.AddDrift drift r) r ds).
Proof.
  revert r. induction ds as [|drift ds IH]; intros r Hr; [done|].
  cbn. apply IH, AddDrift_ok.
Qed.

(** C8.  [HasDrift == (len(Drifts) > 0)] holds of every report after each
    operation: of the empty report made by [NewDriftReport]; of any
    report after [AddDrift]; of the report [CompareInstances] assembles;
    and of the report [Detector.DetectDrift] returns, whichever of its
    three paths is taken.  Both comparisons do return a report. *)
Theorem HasDrift_iff_drifts :
  (∀ id, report_ok (domain_models.NewDriftReport id)) ∧
  (∀ drift r, report_ok (domain_models.AddDrift drift r)) ∧
  (∀ ord d a e,
     ∃ r, services.CompareInstances ord d (Some a) (Some e) = Ok r ∧
          report_ok r) ∧
  (∀ fm ord d actual expected,
     ∃ r, detector.DetectDrift fm ord d actual expected = Ok r ∧
          detector_report_ok r).
Proof.
  split; [done|]. split; [apply AddDrift_ok|]. split.
  - intros ord d a e.
    destruct (CompareInstances_total ord d a e) as [r Hr].
    exists r. split; [done|].
    unfold services.CompareInstances in Hr.
    destruct (services.compareStruct _ _ _ _ _ _) as [ds| |];
      [|done..].
    cbn [mbind outcome_bind] in Hr. injection Hr as <-.
    by apply foldl_AddDrift_ok.
  - intros fm ord d actual expected.
    destruct (DetectDrift_total fm ord d actual expected) as [r Hr].
    exists r. split; [done|].
    destruct actual as [a|], expected as [e|];
      [|by injection Hr as <-..].
    unfold detector.DetectDrift in Hr.
    destruct (detector.compareStruct _ _ _ _ _ _ _) as [ds| |];
      [|done..].
    cbn [mbind outcome_bind] in Hr. by injection Hr as <-.
Qed.

End has_drift.

(** ** One configuration is nil *)

Section one_side_nil.
Import reflect.

(** C4, the code at the failing inputs.  The claim asks for one [Added]
    drift (observed side present) or one [Removed] drift (declared side
    present) at the root path, carrying the present configuration.  When
    exactly one of the two configurations is nil, [DetectDrift] does
    append exactly one drift at the root path, but its kind is [Modified]
    whichever side is present, and neither the actual nor the expected
    value is attached.  The report carries the present side's instance ID
    and [HasDrift] is true. *)
Theorem DetectDrift_one_nil fm ord d (c : models.InstanceConfig.t) :
  detector.DetectDrift fm ord d (Some c) None
  = Ok {| detector.InstanceID := models.InstanceConfig.InstanceID c;
          detector.HasDrift := true;
          detector.Drifts := [oneSideNil] |} ∧
  detector.DetectDrift fm ord d None (Some c)
  = Ok {| detector.InstanceID := models.InstanceConfig.InstanceID c;
          detector.HasDrift := true;
          detector.Drifts := [oneSideNil] |}.
Proof. done. Qed.

(** In particular, with the observed side present and the declared side
    nil, no drift of kind [Added] carrying the observed configuration is
    reported. *)
Lemma DetectDrift_one_nil_not_added :
  ¬ ∃ r drift,
      detector.DetectDrift samples.plain samples.inOrder detector.NewDetector
        (Some (samples.config "i-1" "t2.micro" None None None)) None = Ok r ∧
      detector.Drifts r = [drift] ∧
      detector.Type_ drift = detector.DriftTypeAdded ∧
      is_Some (detector.Actual drift).
Proof. intros (r & drift & [= <-] & [= <-] & Hkind & _). done. Qed.

End one_side_nil.

(** ** Slices *)

Section slices.
Import reflect.




End slices.

(** ** A struct that is present on one side only *)

Section absent_struct.
Import reflect models detector.
Context (fm : Formatter) (ord : MapOrder) (d : Detector).

Lemma compareStruct_missing fuel p a :
  IsValid a = true →
  detector.compareStruct fm ord (S fuel) d p a Invalid = Ok [addedField p a].
Proof. intros Ha. cbn. by rewrite Ha. Qed.

(** What the walk does with an absent expected side.  A value that is
    missing altogether on the expected side (the zero Value) gives one
    [Added] drift at its own path and nothing beneath it.  A struct behind
    a pointer that is non-nil in actual and nil in expected gives no drift
    at the pointer field's own path: each exported, non-ignored field of
    the struct is reported as [Added] at [field.Sub], one level beneath,
    with the sub-field's actual value, and the walk goes no deeper. *)
Lemma compareStruct_nil_struct_pointer fuel p :
  (∀ a, IsValid a = true →
     detector.compareStruct fm ord (S fuel) d p a Invalid
     = Ok [addedField p a]) ∧
  (∀ t t' n fs,
     detector.compareStruct fm ord (S (S fuel)) d p
       (VPtr t (Some (VStruct n fs))) (VPtr t' None)
     = Ok (fs ≫= λ '(f, x),
             if negb (exported f) || ignored d (fieldPath p f)
                || negb (IsValid x)
             then []
             else [addedField (fieldPath p f) x])).
Proof.
  split; [apply compareStruct_missing|]. intros t t' n fs.
  cbn [detector.compareStruct IsValid negb andb deref].
  induction fs as [|[f x] fs IH]; [done|].
  rewrite forEach_cons, IH. clear IH. cbn [mbind list_bind].
  destruct (negb (exported f)); [done|]. cbn zeta. fold (fieldPath p f).
  destruct (ignored d (fieldPath p f)); [done|].
  cbn [IsValid andb mbind outcome_bind orb].
  destruct (IsValid x) eqn:Hx; [reflexivity|]. by destruct x.
Qed.

(** C3, the code at the failing input.  The claim asks that a record
    field present in the observed configuration and absent (nil) in the
    declared one be reported at the field's own path only, with no drift
    beneath it.  With [CreditSpecification] set in the observed
    configuration and nil in the declared one, [DetectDrift] reports a
    drift beneath the field's path ([CreditSpecification.CPUCredits]) and
    none at the field's own path. *)
Lemma DetectDrift_reports_beneath_absent_struct :
  let credit := {| CreditSpecification.CPUCredits := "standard" |} in
  ∃ r,
    detector.DetectDrift samples.plain samples.inOrder NewDetector
      (Some (samples.config "i-1" "t2.micro" None None (Some credit)))
      (Some (samples.config "i-1" "t2.micro" None None None)) = Ok r ∧
    (∃ drift, drift ∈ Drifts r ∧ beneath "CreditSpecification" (Path drift)) ∧
    (∀ drift, drift ∈ Drifts r → Path drift ≠ "CreditSpecification").
Proof.
  intros credit. eexists. split; [vm_compute; reflexivity|]. split.
  - eexists. split; [apply list_elem_of_here|]. by exists "CPUCredits"; left.
  - by intros drift ->%list_elem_of_singleton.
Qed.

End absent_struct.

(** ** The order of map iteration *)

Section orders.
Import reflect models detector.
Context (fm : Formatter) (ord1 ord2 : MapOrder) (d : Detector).




Ltac outcome_cases m :=
  let H := fresh "Hm" in
  destruct m eqn:H; cbn [mbind outcome_bind]; try discriminate.





End orders.


(** ** Collections matched by identity *)

Section keyed_collections.
Import reflect models detector.
Context (fm : Formatter) (ord : MapOrder).

Lemma asSecurityGroup_ValueOf sg :
  asSecurityGroup (ValueOfSecurityGroup sg) = Some sg.
Proof. by destruct sg. Qed.

Lemma assertSecurityGroups_ValueOf sgs :
  assertSecurityGroups (ValueOfSecurityGroups sgs) = (sgs, true).
Proof.
  destruct sgs as [l|]; [|done]. cbn.
  by rewrite (mapM_fmap_Some _ _ _ asSecurityGroup_ValueOf).
Qed.

Lemma byGroupID_acc sgs (m : gmap string SecurityGroup.t) :
  NoDup (SecurityGroup.GroupID <$> sgs) →
  foldl (λ m sg, <[SecurityGroup.GroupID sg := sg]> m) m sgs
  = list_to_map (entry <$> sgs) ∪ m.
Proof.
  revert m. induction sgs as [|sg sgs IH]; intros m Hnd.
  - cbn. by rewrite (left_id_L ∅ (∪)).
  - apply NoDup_cons in Hnd as [Hsg Hnd]. cbn [foldl].
    rewrite IH by done. cbn [fmap list_fmap list_to_map foldr entry].
    cbn. rewrite <- insert_union_l. symmetry. apply insert_union_r.
    apply not_elem_of_list_to_map. by rewrite <- list_fmap_compose.
Qed.

(** With distinct group IDs, the index built from a slice does not depend
    on the order of its elements. *)
Lemma byGroupID_Permutation sgs1 sgs2 :
  NoDup (SecurityGroup.GroupID <$> sgs1) → sgs1 ≡ₚ sgs2 →
  byGroupID sgs1 = byGroupID sgs2.
Proof.
  intros Hnd Hperm. unfold byGroupID.
  rewrite !byGroupID_acc by (by rewrite <- ?Hperm). f_equal.
  apply list_to_map_proper; [|by rewrite Hperm].
  by rewrite <- list_fmap_compose.
Qed.

(** C6.  Reordering the entries of a keyed collection yields no drift.
    For [Tags], two maps built from the same entries in any two orders
    compare without drift; for [SecurityGroups], a slice and any
    rearrangement of it compare without drift.  The entries of a keyed
    collection have pairwise distinct identities (tag keys, group IDs). *)
Theorem reordered_collections_no_drift self tags1 tags2 sgs1 sgs2 :
  NoDup tags1.*1 → tags1 ≡ₚ tags2 →
  NoDup (SecurityGroup.GroupID <$> sgs1) → sgs1 ≡ₚ sgs2 →
  detector.compareMaps fm ord "Tags"
    (VMap (Some (list_to_map tags1))) (VMap (Some (list_to_map tags2)))
  = Ok [] ∧
  detector.compareSlices fm ord self "SecurityGroups"
    (ValueOfSecurityGroups (Some sgs1)) (ValueOfSecurityGroups (Some sgs2))
  = Ok [].
Proof.
  intros Htags Hperm Hsgs Hperm'. split.
  - rewrite <- (list_to_map_proper tags1 tags2 Htags Hperm).
    apply compareMaps_Tags_refl.
  - unfold detector.compareSlices. rewrite decide_True by done.
    cbn [Interface ValueOfSecurityGroups mbind outcome_bind fmap option_fmap
         option_map].
    pose proof (assertSecurityGroups_ValueOf (Some sgs1)) as H1.
    pose proof (assertSecurityGroups_ValueOf (Some sgs2)) as H2.
    cbn [ValueOfSecurityGroups fmap option_fmap option_map] in H1, H2.
    rewrite H1, H2. cbn [negb andb default]. unfold id.
    rewrite <- (byGroupID_Permutation sgs1 sgs2 Hsgs Hperm').
    rewrite !forEach_nothing; [done| |].
    + intros [k x] Hin%elem_of_rangeMap. by rewrite Hin.
    + intros [k x] Hin%elem_of_rangeMap. rewrite Hin.
      by rewrite decide_False by (by intros ?).
Qed.

End keyed_collections.

(** Distinct identities are needed: the index keeps the last group with a
    given ID, so a slice that repeats an ID under two names shows a drift
    against a rearrangement of itself. *)
Lemma repeated_group_id_reordered :
  detector.compareSlices samples.plain samples.inOrder
    (detector.compareStruct samples.plain samples.inOrder 2
       detector.NewDetector)
    "SecurityGroups"
    (models.ValueOfSecurityGroups
       (Some [samples.sg "sg-1" "web"; samples.sg "sg-1" "db"]))
    (models.ValueOfSecurityGroups
       (Some [samples.sg "sg-1" "db"; samples.sg "sg-1" "web"]))
  ≠ Ok [].
Proof. intros H. vm_compute in H. discriminate H. Qed.

(** The theorem applies to a real reordering. *)
Lemma reordered_collections_no_drift_example :
  detector.compareMaps samples.plain samples.reversed "Tags"
    (reflect.VMap (Some (list_to_map [("Name", "web"); ("Env", "prod")])))
    (reflect.VMap (Some (list_to_map [("Env", "prod"); ("Name", "web")])))
  = Ok [] ∧
  detector.compareSlices samples.plain samples.reversed
    (detector.compareStruct samples.plain samples.reversed 2 detector.NewDetector)
    "SecurityGroups"
    (models.ValueOfSecurityGroups
       (Some [samples.sg "sg-1" "web"; samples.sg "sg-2" "db"]))
    (models.ValueOfSecurityGroups
       (Some [samples.sg "sg-2" "db"; samples.sg "sg-1" "web"]))
  = Ok [].
Proof.
  apply reordered_collections_no_drift.
  - apply (bool_decide_unpack _). vm_compute. exact I.
  - apply perm_swap.
  - apply (bool_decide_unpack _). vm_compute. exact I.
  - apply perm_swap.
Defined.

(** ** Slices, by position or by identity *)

Section membership.
Context {X D : Type}.


End membership.

Section slices_by_identity.
Import reflect models detector.
Context (fm : Formatter) (ord : MapOrder).



End slices_by_identity.

Section slices_as_coded.
Import reflect models detector.

Lemma compareSlices_SecurityGroups_drifts fm ord self sgs sgs' :
  ∃ ds,
    detector.compareSlices fm ord self "SecurityGroups"
      (ValueOfSecurityGroups sgs) (ValueOfSecurityGroups sgs') = Ok ds ∧
    ∀ drift,
      drift ∈ ds ↔
      ∃ id, groupDrift id (byGroupID (default [] sgs) !! id)
              (byGroupID (default [] sgs') !! id) = Some drift.
Proof.
  unfold detector.compareSlices.
  rewrite decide_True by done.
  assert (∀ s, Interface (ValueOfSecurityGroups s)
               = Ok (ValueOfSecurityGroups s)) as Hi by done.
  rewrite !Hi. cbn [mbind outcome_bind].
  rewrite !assertSecurityGroups_ValueOf. cbn [negb andb].
  set (am := byGroupID (default [] sgs)).
  set (em := byGroupID (default [] sgs')).
  match goal with
  | |- ∃ ds, andThen (forEach ?b1 ?l1) (forEach ?b2 ?l2) = _ ∧ _ =>
      pose proof (forEach_Ok b1 l1) as H1;
      pose proof (forEach_Ok b2 l2) as H2
  end.
  rewrite H1, H2.
  2:{ intros [id x] _. destruct (em !! id); apply is_Ok_Ok. }
  2:{ intros [id y] _. destruct (am !! id) as [x|]; [|apply is_Ok_Ok].
      case_decide; apply is_Ok_Ok. }
  eexists. split; [reflexivity|]. intros drift.
  rewrite elem_of_app, !list_elem_of_bind. split.
  - intros [([id y] & Hd & Hin%elem_of_rangeMap)
           |([id x] & Hd & Hin%elem_of_rangeMap)]; exists id.
    + fold em in Hin. rewrite Hin. cbn beta iota in Hd.
      destruct (am !! id) as [x|]; cbn.
      * case_decide; cbn in Hd; [|by apply elem_of_nil in Hd].
         by apply list_elem_of_singleton in Hd as ->.
      * by apply list_elem_of_singleton in Hd as ->.
    + fold am in Hin. rewrite Hin. cbn beta iota in Hd.
      destruct (em !! id) as [y|]; cbn in *;
        [by apply elem_of_nil in Hd|].
      by apply list_elem_of_singleton in Hd as ->.
  - intros (id & Hd).
    destruct (am !! id) as [x|] eqn:Hx, (em !! id) as [y|] eqn:Hy;
      cbn in Hd; [| | |done].
    + left. exists (id, y). split; [|by apply elem_of_rangeMap].
      cbn beta iota. rewrite Hx. case_decide; [|done].
      injection Hd as <-. apply list_elem_of_here.
    + right. exists (id, x). split; [|by apply elem_of_rangeMap].
      cbn beta iota. rewrite Hy. injection Hd as <-.
      apply list_elem_of_here.
    + left. exists (id, y). split; [|by apply elem_of_rangeMap].
      cbn beta iota. rewrite Hx. injection Hd as <-.
      apply list_elem_of_here.
Qed.


End slices_as_coded.

(** ** Kinds of drift and the values they carry *)

Section detector_drift_values.
Import reflect models detector.
Context (fm : Formatter) (ord : MapOrder) (d : Detector).
Context (decls : string → list (string * gotype)).
Context (decls_nodup : ∀ n, NoDup (decls n).*1).

Lemma andThen_Forall {D} (P : D → Prop) (m1 m2 : outcome (list D)) ds :
  andThen m1 m2 = Ok ds →
  (∀ a, m1 = Ok a → Forall P a) → (∀ b, m2 = Ok b → Forall P b) →
  Forall P ds.
Proof.
  intros (a & b & -> & -> & ->)%andThen_Ok_inv H1 H2.
  apply Forall_app. split; [by apply H1|by apply H2].
Qed.

Ltac emitted :=
  intros [= <-]; repeat constructor; try done;
  try (unfold drift_ok; cbn;
       first [ congruence
             | by apply (DeepEqual_false_ne (Some _) (Some _))
             | by apply DeepEqual_false_ne ]).

Lemma compareMaps_drift_ok p m m' ds :
  detector.compareMaps fm ord p (VMap m) (VMap m') = Ok ds →
  Forall drift_ok ds.
Proof.
  unfold detector.compareMaps. destruct (decide (p = "Tags")) as [_|_]; cbn.
  - intros Hds. eapply andThen_Forall; [done| |];
      intros ds' Hds'; eapply forEach_Forall; [done| |done|].
    + intros [k v] dx _. destruct (_ !! k) as [v'|]; [|emitted].
      destruct (decide _); emitted.
    + intros [k v] dx _. destruct (_ !! k); emitted.
  - destruct (bool_decide (m = None)); [emitted|]. cbn.
    destruct (bool_decide (m' = None)); [emitted|].
    intros Hds. eapply andThen_Forall; [done| |];
      intros ds' Hds'; eapply forEach_Forall; [done| |done|].
    + intros k dx [v Hv]%elem_of_rangeMap_keys. cbn. rewrite Hv. cbn.
      destruct (default ∅ m !! k); cbn; [|emitted].
      destruct (negb _) eqn:Hne; [|emitted].
      apply negb_true_iff in Hne. emitted.
    + intros k dx [v Hv]%elem_of_rangeMap_keys. cbn. rewrite Hv. cbn.
      destruct (default ∅ m' !! k); cbn; emitted.
Qed.

Lemma compareSlices_drift_ok self p t l l' ds :
  Forall (λ x, has_type decls t x = true) (default [] l) →
  Forall (λ x, has_type decls t x = true) (default [] l') →
  (∀ q x y dx, x ∈ default [] l → has_type decls t x = true →
               has_type decls t y = true →
               self q x y = Ok dx → Forall drift_ok dx) →
  detector.compareSlices fm ord self p (VSlice t l) (VSlice t l') = Ok ds →
  Forall drift_ok ds.
Proof.
  intros Hl Hl' Hself. unfold detector.compareSlices.
  destruct (decide (p = "SecurityGroups")) as [_|_].
  { cbn [Interface mbind outcome_bind].
    destruct (assertSecurityGroups (VSlice t l)) as [actualSGs actualOk].
    destruct (assertSecurityGroups (VSlice t l')) as [expectedSGs expectedOk].
    destruct (negb actualOk && expectedOk); [emitted|].
    destruct (actualOk && negb expectedOk); [emitted|].
    intros Hds. eapply andThen_Forall; [done| |];
      intros ds' Hds'; eapply forEach_Forall; [done| |done|].
    - intros [k v] dx _. destruct (_ !! k); [|emitted].
      destruct (decide _); emitted.
    - intros [k v] dx _. destruct (_ !! k); emitted. }
  cbn [Len mbind outcome_bind].
  destruct (bool_decide (length (default [] l) = 0)) eqn:Hlen; cbn [andb].
  { destruct (bool_decide (length (default [] l') = 0)); emitted. }
  destruct (bool_decide (length (default [] l') = 0)); [emitted|].
  apply bool_decide_eq_false in Hlen.
  destruct (default [] l) as [|first items] eqn:Hitems; [done|].
  cbn [Index]. rewrite Hitems. cbn [lookup list_lookup mbind outcome_bind].
  destruct (bool_decide (kind first = KStruct)) eqn:Hkind.
  - apply bool_decide_eq_true in Hkind.
    pose proof (Forall_inv Hl) as Hfirst.
    destruct first as [| | | | |n fs| |]; try done.
    apply has_type_VStruct in Hfirst as [-> _].
    unfold detector.compareStructSlices. cbn [Items mbind outcome_bind].
    rewrite Hitems.
    destruct (indexByFirstField_structs decls _ n Hl) as (am & -> & Ham).
    destruct (indexByFirstField_structs decls _ n Hl') as (em & -> & Hem).
    cbn [mbind outcome_bind].
    intros Hds. eapply andThen_Forall; [done| |];
      intros ds' Hds'; eapply forEach_Forall; [done| |done|].
    + intros [id y] dx Hy%elem_of_rangeMap. apply Hem in Hy.
      pose proof (proj1 (Forall_forall _ _) Hl' _ Hy) as Hty.
      cbn beta in Hty.
      destruct (am !! id) as [x|] eqn:Hx.
      * apply Ham in Hx.
        pose proof (proj1 (Forall_forall _ _) Hl _ Hx) as Htx.
        by apply Hself.
      * rewrite (Interface_valid _ (has_type_valid _ _ _ Hty)). emitted.
    + intros [id x] dx Hx%elem_of_rangeMap. apply Ham in Hx.
      pose proof (proj1 (Forall_forall _ _) Hl _ Hx) as Htx.
      cbn beta in Htx.
      destruct (em !! id); [emitted|].
      rewrite (Interface_valid _ (has_type_valid _ _ _ Htx)). emitted.
  - cbn [Interface mbind outcome_bind].
    destruct (negb _) eqn:Hne; [|emitted].
    apply negb_true_iff in Hne. emitted.
Qed.

Lemma compareStruct_drift_ok fuel :
  ∀ p t a e ds,
    has_type decls t a = true →
    e = Invalid ∨ has_type decls t e = true →
    detector.compareStruct fm ord fuel d p a e = Ok ds →
    Forall drift_ok ds.
Proof.
  induction fuel as [|fuel IH]; intros p t a e ds Ha He; [done|].
  cbn [detector.compareStruct].
  rewrite (has_type_valid _ _ _ Ha). cbn [negb andb].
  destruct He as [->|He].
  { cbn [IsValid negb]. unfold safeInterface.
    rewrite (has_type_valid _ _ _ Ha). emitted. }
  rewrite (has_type_valid _ _ _ He). cbn [negb].
  assert (Hscalar : ∀ a' e',
    (if negb (DeepEqual (safeInterface a') (safeInterface e')) then
       Ok [ {| Type_ := DriftTypeModified; Path := p;
               Actual := safeInterface a'; Expected := safeInterface e';
               Description :=
                 "Field " +:+ p +:+ " has different values. Actual: " +:+
                 verb_v fm (safeInterface a') +:+ ", Expected: " +:+
                 verb_v fm (safeInterface e') |} ]
     else Ok []) = Ok ds → Forall drift_ok ds).
  { intros a' e'. destruct (negb _) eqn:Hne; [|emitted].
    apply negb_true_iff in Hne. emitted. }
  assert (Hloop : ∀ n fs e',
    fields_typed decls fs (decls n) →
    e' = Invalid ∨ (∃ fs', e' = VStruct n fs' ∧
                           fields_typed decls fs' (decls n)) →
    forEach
      (λ '(fieldName, actualField),
         if negb (exported fieldName) then Ok []
         else
           let fieldPath :=
             (if decide (p ≠ "") then p +:+ "." else p) +:+ fieldName in
           if ignored d fieldPath then Ok []
           else
             expectedField ←
               (if IsValid e' && bool_decide (kind e' = KStruct)
                then FieldByName e' fieldName
                else Ok Invalid);
             detector.compareStruct fm ord fuel d fieldPath actualField
               expectedField)
      fs = Ok ds → Forall drift_ok ds).
  { intros n fs e' Hfs He' Hds.
    eapply forEach_Forall; [done|]. intros [f x] dx Hin.
    destruct (negb (exported f)); [emitted|]. cbn zeta.
    destruct (ignored d _); [emitted|].
    destruct He' as [->|(fs' & -> & Hfs')]; cbn.
    - destruct (list_elem_of_lookup_1 _ _ Hin) as [i Hi].
      destruct (fields_typed_lookup _ _ _ _ _ _ Hfs Hi) as (tg & _ & Htg).
      eapply IH; [done|by left].
    - destruct (fields_typed_fieldNamed decls fs fs' (decls n) f x)
        as (tg & x' & Htx & -> & Htx'); [done..|].
      cbn. eapply IH; [done|by right]. }
  destruct a as [|b|z|str|t' [x|]|n fs|m|t' l]; try done;
    cbn [deref]; try apply Hscalar.
  - apply has_type_VPtr in Ha as (-> & Hpt & Hx).
    specialize (Hx _ eq_refl).
    apply has_type_TPtr in He as (p' & -> & _ & Hx').
    pose proof (pointee_shape _ _ _ Hpt Hx) as Hshape.
    destruct x as [|b|z|str| |n fs| |]; try done; try apply Hscalar.
    apply has_type_VStruct in Hx as [-> Hfs].
    apply Hloop with n; [done|].
    destruct p' as [x'|]; [right|by left]. cbn.
    specialize (Hx' _ eq_refl).
    apply has_type_TStruct in Hx' as (fs' & -> & Hfs'). by exists fs'.
  - apply has_type_VStruct in Ha as [-> Hfs].
    apply has_type_TStruct in He as (fs' & -> & Hfs').
    apply Hloop with n; [done|]. right. by exists fs'.
  - apply has_type_VMap in Ha as ->. apply has_type_TMap in He as [m' ->].
    apply compareMaps_drift_ok.
  - apply has_type_VSlice in Ha as [-> Hl].
    apply has_type_TSlice in He as (l' & -> & Hl').
    apply compareSlices_drift_ok.
    + destruct l; [by apply Hl|constructor].
    + destruct l'; [by apply Hl'|constructor].
    + intros q x y dx Hin Hx Hy. eapply IH; [done|by right].
Qed.

End detector_drift_values.

Section services_drift_values.
Import reflect domain_models services.
Context (ord : MapOrder) (d : DriftDetector).

Ltac outcome_cases m :=
  let H := fresh "Hm" in
  destruct m eqn:H; cbn [mbind outcome_bind]; try discriminate.

Ltac emitted :=
  intros [= <-]; repeat constructor; try done;
  try (unfold domain_drift_ok; cbn; repeat split; try done;
       first [ congruence
             | by apply (DeepEqual_false_ne (Some _) (Some _)) ]).

Lemma services_compareMaps_drift_ok p a e ds :
  services.compareMaps ord p a e = Ok ds → Forall domain_drift_ok ds.
Proof.
  unfold services.compareMaps. intros Hds.
  eapply andThen_Forall; [done| |]; intros ds'.
  - outcome_cases (MapKeys ord a). intros Hds'.
    eapply forEach_Forall; [done|]. intros k dx _. cbn beta.
    outcome_cases (MapIndex a k). outcome_cases (MapIndex e k).
    destruct (negb (IsValid a2)); [emitted|].
    outcome_cases (Interface a1). outcome_cases (Interface a2).
    destruct (negb _) eqn:Hne; [|emitted].
    apply negb_true_iff in Hne. emitted.
  - outcome_cases (MapKeys ord e). intros Hds'.
    eapply forEach_Forall; [done|]. intros k dx _. cbn beta.
    outcome_cases (MapIndex a k).
    destruct (negb (IsValid a1)); [|emitted].
    outcome_cases (MapIndex e k). outcome_cases (Interface a2). emitted.
Qed.

Lemma services_compareSlices_drift_ok self p a e ds :
  (∀ q x y dx, self q x y = Ok dx → Forall domain_drift_ok dx) →
  services.compareSlices self p a e = Ok ds → Forall domain_drift_ok ds.
Proof.
  intros Hself. unfold services.compareSlices.
  outcome_cases (Len a). outcome_cases (Len e).
  destruct (decide (a0 ≠ a1)) as [Hne|_].
  - outcome_cases (Interface a). outcome_cases (Interface e).
    destruct a, e; simplify_eq/=; emitted.
  - intros Hds. eapply forEach_Forall; [done|]. intros i dx _. cbn beta.
    outcome_cases (Index a i). outcome_cases (Index e i). apply Hself.
Qed.

Lemma services_compareStruct_drift_ok fuel :
  ∀ p a e ds,
    services.compareStruct ord fuel d p a e = Ok ds →
    Forall domain_drift_ok ds.
Proof.
  induction fuel as [|fuel IH]; intros p a e ds; [done|].
  cbn [services.compareStruct].
  destruct (decide (kind a ≠ kind e)) as [Hne|_].
  { outcome_cases (Interface a). outcome_cases (Interface e).
    destruct a, e; simplify_eq/=; emitted. }
  assert (Hscalar :
    (a' ← Interface a; e' ← Interface e;
     if negb (DeepEqual (Some a') (Some e')) then
       Ok [NewDrift DriftTypeModified (trimDot p) (Some a') (Some e')
             "Value mismatch"]
     else Ok []) = Ok ds → Forall domain_drift_ok ds).
  { outcome_cases (Interface a). outcome_cases (Interface e).
    destruct (negb _) eqn:Hne; [|emitted].
    apply negb_true_iff in Hne. emitted. }
  destruct a as [| | | | |n fs|m|t' l]; try apply Hscalar; clear Hscalar.
  - intros Hds. eapply forEach_Forall; [done|]. intros [i [f x]] dx _.
    destruct (ignored d f); [emitted|].
    outcome_cases (Field e i). apply IH.
  - apply services_compareMaps_drift_ok.
  - apply services_compareSlices_drift_ok. intros q x y. apply IH.
Qed.

Lemma foldl_AddDrift_Drifts ds r :
  Drifts (foldl (λ r drift, AddDrift drift r) r ds) = Drifts r ++ ds.
Proof.
  revert r. induction ds as [|drift ds IH]; intros r; cbn.
  - by rewrite app_nil_r.
  - rewrite IH. cbn. by rewrite <- app_assoc.
Qed.

Lemma CompareInstances_drift_ok a e r :
  CompareInstances ord d a e = Ok r → Forall domain_drift_ok (Drifts r).
Proof.
  unfold CompareInstances. destruct a as [a|]; [|done].
  destruct (services.compareStruct _ _ _ _ _ _) as [ds| |] eqn:Hds;
    [|done..].
  cbn [mbind outcome_bind]. intros [= <-]. rewrite foldl_AddDrift_Drifts.
  by eapply services_compareStruct_drift_ok.
Qed.

End services_drift_values.

(** What the kind of a drift does say about its values.  Every drift the
    detector reports for two non-nil configurations satisfies: [Added] has the actual value set and
    the expected value absent; [Removed] has the expected value set and
    the actual value absent; the two values of a [Modified] drift differ.
    Every drift the domain service reports, for one pair of instances or
    in a batch, satisfies instead: [Modified] has both values set and they
    differ; [Removed] carries no value; [Added] carries the expected value
    only. *)
Lemma drift_values_follow_kind :
  (∀ fm ord d a e,
     ∃ r, detector.DetectDrift fm ord d (Some a) (Some e) = Ok r ∧
          Forall drift_ok (detector.Drifts r)) ∧
  (∀ ord d a e,
     ∃ r, services.CompareInstances ord d (Some a) (Some e) = Ok r ∧
          Forall domain_drift_ok (domain_models.Drifts r)) ∧
  (∀ ord s (actual desired : list domain_models.Instance.t),
     ∃ reports,
       services.BatchDetectDrift ord s (Some <$> actual) (Some <$> desired)
         = Ok (Some reports, None) ∧
       ∀ id r, reports !! id = Some (Some r) →
               Forall domain_drift_ok (domain_models.Drifts r)).
Proof.
  repeat split.
  - intros fm ord d a e.
    destruct (DetectDrift_total fm ord d (Some a) (Some e)) as [r Hr].
    exists r. split; [done|]. unfold detector.DetectDrift in Hr.
    destruct (detector.compareStruct _ _ _ _ _ _ _) as [ds| |] eqn:Hds;
      [|done..].
    cbn [mbind outcome_bind] in Hr. injection Hr as <-. cbn.
    eapply (compareStruct_drift_ok fm ord d models.fieldsOf fieldsOf_NoDup);
      [apply ValueOf_typed| |done].
    right. apply ValueOf_typed.
  - intros ord d a e.
    destruct (CompareInstances_total ord d a e) as [r Hr].
    exists r. split; [done|]. by eapply CompareInstances_drift_ok.
  - intros ord s actual desired.
    destruct (BatchDetectDrift_filled ord s
                (λ r, Forall domain_drift_ok (domain_models.Drifts r)))
      with actual desired as (reports & Hbatch & Hf & _).
    + intros a e r. apply CompareInstances_drift_ok.
    + intros a. by repeat constructor.
    + intros e. repeat constructor. by eexists.
    + exists reports. split; [done|]. intros id r Hr.
      destruct (Hf _ _ Hr) as (r' & [= <-] & HQ). done.
Qed.

(** A pointer that is nil on one side passes the validity checks of
    [compareStruct] and is dereferenced to the zero Value: the drift is
    [Modified] with one value absent. *)
Lemma compareStruct_nil_scalar_pointer fm ord d :
  detector.compareStruct fm ord 1 d "Monitoring"
    (models.ptrBool None) (models.ptrBool (Some true))
  = Ok [ {| detector.Type_ := detector.DriftTypeModified;
            detector.Path := "Monitoring";
            detector.Actual := None;
            detector.Expected := Some (reflect.VBool true);
            detector.Description :=
              "Field Monitoring has different values. Actual: " +:+
              verb_v fm None +:+ ", Expected: " +:+
              verb_v fm (Some (reflect.VBool true)) |} ].
Proof. reflexivity. Qed.

(** C9, the code at the failing input.  The claim asks that a [Removed]
    drift have its expected value set and its actual value absent (and an
    [Added] drift the actual value set and the expected value absent).
    For an instance that is only in the actual state, [BatchDetectDrift]
    reports a drift of kind [Removed] that carries neither value. *)
Lemma BatchDetectDrift_removed_without_value :
  ∃ reports r drift,
    services.BatchDetectDrift samples.inOrder services.NewDetectionService
      [Some (samples.instance "i-1" "t2.micro" None None)] []
      = Ok (Some reports, None) ∧
    reports !! "i-1" = Some (Some r) ∧
    drift ∈ domain_models.Drifts r ∧
    domain_models.Type_ drift = domain_models.DriftTypeRemoved ∧
    ¬ domain_drift_as_specified drift.
Proof.
  eexists _, _, _. split; [reflexivity|].
  split; [apply lookup_insert_eq|].
  split; [apply list_elem_of_here|]. split; [done|].
  by intros [[? [=]] _].
Qed.

(** * Further properties of the code *)

(** ** Tags, key by key *)

Section tags_by_key.
Import reflect models detector.
Context (fm : Formatter) (ord : MapOrder).

Lemma tagDrift_None key a e : tagDrift key a e = None ↔ a = e.
Proof.
  destruct a as [a|], e as [e|]; cbn; try (split; done).
  case_decide as Hne.
  - split; [done|]. by intros [= ->].
  - split; [|done]. intros _. f_equal.
    destruct (decide (a = e)); [done|by destruct Hne].
Qed.

Lemma compareMaps_Tags_drifts (m m' : option (gmap string string)) :
  ∃ ds,
    compareMaps fm ord "Tags" (VMap m) (VMap m') = Ok ds ∧
    (∀ drift,
       drift ∈ ds ↔
       ∃ key, tagDrift key (default ∅ m !! key) (default ∅ m' !! key)
              = Some drift) ∧
    (ds = [] ↔ default ∅ m = default ∅ m').
Proof.
  unfold compareMaps. rewrite decide_True by done.
  cbn [Interface mbind outcome_bind assertStringMap negb andb].
  set (am := default ∅ m). set (em := default ∅ m').
  match goal with
  | |- ∃ ds, andThen (forEach ?b1 ?l1) (forEach ?b2 ?l2) = _ ∧ _ =>
      pose proof (forEach_Ok b1 l1) as H1;
      pose proof (forEach_Ok b2 l2) as H2
  end.
  rewrite H1, H2.
  2:{ intros [k x] _. destruct (em !! k); apply is_Ok_Ok. }
  2:{ intros [k y] _. destruct (am !! k) as [x|]; [|apply is_Ok_Ok].
      case_decide; apply is_Ok_Ok. }
  eexists. split; [reflexivity|].
  match goal with |- (∀ drift, drift ∈ ?l ↔ _) ∧ _ => set (ds := l) end.
  assert (∀ drift,
            drift ∈ ds ↔
            ∃ key, tagDrift key (am !! key) (em !! key) = Some drift) as Hds.
  { intros drift. subst ds.
    rewrite elem_of_app, !list_elem_of_bind. split.
    - intros [([k y] & Hd & Hin%elem_of_rangeMap)
             |([k x] & Hd & Hin%elem_of_rangeMap)]; exists k.
      + rewrite Hin. cbn beta iota in Hd.
        destruct (am !! k) as [x|]; cbn.
        * case_decide; cbn in Hd; [|by apply elem_of_nil in Hd].
          by apply list_elem_of_singleton in Hd as ->.
        * by apply list_elem_of_singleton in Hd as ->.
      + rewrite Hin. cbn beta iota in Hd.
        destruct (em !! k) as [y|]; cbn in *;
          [by apply elem_of_nil in Hd|].
        by apply list_elem_of_singleton in Hd as ->.
    - intros (k & Hd).
      destruct (am !! k) as [x|] eqn:Hx, (em !! k) as [y|] eqn:Hy;
        cbn in Hd; [| | |done].
      + left. exists (k, y). split; [|by apply elem_of_rangeMap].
        cbn beta iota. rewrite Hx. case_decide; [|done].
        injection Hd as <-. apply list_elem_of_here.
      + right. exists (k, x). split; [|by apply elem_of_rangeMap].
        cbn beta iota. rewrite Hy. injection Hd as <-.
        apply list_elem_of_here.
      + left. exists (k, y). split; [|by apply elem_of_rangeMap].
        cbn beta iota. rewrite Hx. injection Hd as <-.
        apply list_elem_of_here. }
  split; [exact Hds|]. split.
  - intros Hnil. apply map_eq. intros k. apply (tagDrift_None k).
    destruct (tagDrift k (am !! k) (em !! k)) as [drift|] eqn:Hk; [|done].
    assert (drift ∈ ds) as Hin by (apply Hds; eauto).
    rewrite Hnil in Hin. by apply elem_of_nil in Hin.
  - intros Heq. destruct ds as [|drift ds']; [done|].
    destruct (proj1 (Hds drift) ltac:(apply list_elem_of_here)) as [k Hk].
    rewrite Heq in Hk.
    by rewrite (proj2 (tagDrift_None k (em !! k) (em !! k)) eq_refl) in Hk.
Qed.


End tags_by_key.

(** ** The service on equal instances *)

Section services_self.
Import reflect domain_models services.
Context (ord : MapOrder) (d : DriftDetector).
Context (decls : string → list (string * gotype)).

Lemma services_compareMaps_refl p m :
  services.compareMaps ord p (VMap m) (VMap m) = Ok [].
Proof.
  unfold services.compareMaps. cbn [MapKeys MapIndex mbind outcome_bind].
  rewrite !forEach_nothing; [done| |].
  - intros k [v Hv]%elem_of_rangeMap_keys. by rewrite Hv.
  - intros k [v Hv]%elem_of_rangeMap_keys. rewrite Hv. cbn.
    by rewrite bool_decide_eq_true_2.
Qed.

Lemma services_compareStruct_refl fuel :
  ∀ p t a,
    has_type decls t a = true → height a < fuel →
    services.compareStruct ord fuel d p a a = Ok [].
Proof.
  induction fuel as [|fuel IH]; intros p t a Ha Hh; [lia|].
  cbn [services.compareStruct]. rewrite decide_False by (by intros ?).
  assert (Hscalar :
    (a' ← Interface a; e' ← Interface a;
     if negb (DeepEqual (Some a') (Some e')) then
       Ok [NewDrift DriftTypeModified (trimDot p) (Some a') (Some e')
             "Value mismatch"]
     else Ok []) = Ok []).
  { rewrite !Interface_valid by by eapply has_type_valid. cbn.
    by rewrite deepValueEqual_refl. }
  destruct a as [| | | | |n fs|m|t' l]; try done; clear Hscalar.
  - apply has_type_VStruct in Ha as [-> Hfs].
    apply forEach_nothing. intros [i [f x]] Hi%elem_of_zip_seq.
    destruct (ignored d f); [done|].
    destruct (fields_typed_lookup _ _ _ _ _ _ Hfs Hi) as (tg & Hd & Hx).
    cbn. rewrite Hi. cbn. eapply IH; [done|].
    assert (height x < height (VStruct n fs)); [|lia].
    eapply height_field, list_elem_of_lookup_2, Hi.
  - apply services_compareMaps_refl.
  - apply has_type_VSlice in Ha as [-> Hl].
    unfold services.compareSlices. cbn [Len mbind outcome_bind].
    rewrite decide_False by (by intros ?).
    apply forEach_nothing. intros i [_ Hi]%elem_of_seq. cbn in Hi.
    destruct (lookup_lt_is_Some_2 (default [] l) i) as [x Hx]; [lia|].
    cbn. rewrite Hx. cbn.
    destruct l as [xs|]; [|done]. cbn in Hx. eapply (IH _ t').
    + apply (Forall_lookup_1 _ _ _ _ (Hl _ eq_refl) Hx).
    + assert (height x < height (VSlice t' (Some xs))); [|lia].
      eapply height_item, list_elem_of_lookup_2, Hx.
Qed.

End services_self.

Section services_DetectDrift_self.
Import reflect domain_models services.

(** X2.  The service finds no drift between an instance and itself: it returns
    the empty report of that instance and no error, whatever fields the
    detector ignores. *)
Theorem services_DetectDrift_self ord s (a : Instance.t) :
  services.DetectDrift ord s (Some a) (Some a)
  = Ok (Some (NewDriftReport (Instance.ID a)), None).
Proof.
  unfold services.DetectDrift. rewrite decide_False by (by intros ?).
  unfold CompareInstances.
  change (default Invalid (domain_models.ValueOf <$> Some a))
    with (domain_models.ValueOf a).
  rewrite (services_compareStruct_refl ord (detector s)
             domain_models.fieldsOf _ "" (TStruct "Instance"));
    [done|apply domain_ValueOf_typed|lia].
Qed.

End services_DetectDrift_self.

(** ** The batch, instance by instance *)

Section services_batch_by_id.
Import reflect domain_models services.
Context (ord : MapOrder) (s : DefaultDetectionService).

Lemma withID_cons id i l :
  withID id (i :: l)
  = if decide (Instance.ID i = id) then i :: withID id l else withID id l.
Proof. unfold withID. by rewrite filter_cons. Qed.

Lemma last_cons_default {A} (x : A) l :
  last (x :: l) = Some (default x (last l)).
Proof.
  revert x. induction l as [|y l IH]; intros x; [done|].
  change (last (x :: y :: l)) with (last (y :: l)). rewrite IH.
  cbn [default]. by destruct (last l).
Qed.

Lemma byID_lookup l m id :
  byID l m !! id
  = match last (withID id l) with Some i => Some i | None => m !! id end.
Proof.
  revert m. induction l as [|i l IH]; intros m; [done|].
  change (byID (i :: l) m) with (byID l (<[Instance.ID i := i]> m)).
  rewrite IH, withID_cons. case_decide as Hid.
  - rewrite last_cons_default. destruct (last (withID id l)); [done|].
    cbn. by rewrite Hid, lookup_insert_eq.
  - destruct (last (withID id l)); [done|]. by rewrite lookup_insert_ne.
Qed.

Lemma compareActual_by_id desiredMap l reports :
  keyed desiredMap →
  ∃ reports',
    foldl
      (λ acc actualInst,
         st ← acc;
         match st with
         | inl reports => compareActual ord s desiredMap reports actualInst
         | inr err => Ok (inr err)
         end)
      (Ok (inl reports)) (Some <$> l) = Ok (inl reports') ∧
    ∀ id, reports' !! id
          = match last (withID id l) with
            | Some a => Some (Some (compared ord s desiredMap a))
            | None => reports !! id
            end.
Proof.
  intros Hkeyed. revert reports.
  induction l as [|a l IH]; intros reports; [by exists reports|].
  assert (compareActual ord s desiredMap reports (Some a)
          = Ok (inl (<[Instance.ID a := Some (compared ord s desiredMap a)]>
                       reports))) as Hstep.
  { unfold compareActual, compared.
    destruct (desiredMap !! Instance.ID a) as [e|] eqn:He; [|done].
    apply Hkeyed in He.
    destruct (CompareInstances_total ord (detector s) a e) as [r Hr].
    unfold DetectDrift. rewrite decide_False by (by intros ?).
    by rewrite Hr. }
  cbn [fmap list_fmap foldl mbind outcome_bind]. rewrite Hstep.
  destruct (IH (<[Instance.ID a := Some (compared ord s desiredMap a)]> reports))
    as (reports' & Hloop & Hlook).
  exists reports'. split; [done|]. intros id.
  rewrite Hlook, withID_cons. case_decide as Hid.
  - rewrite last_cons_default. destruct (last (withID id l)); [done|].
    cbn. by rewrite Hid, lookup_insert_eq.
  - destruct (last (withID id l)); [done|]. by rewrite lookup_insert_ne.
Qed.

Lemma addMissing_by_id l reports :
  ∃ reports',
    foldl (λ acc desiredInst, r ← acc; addMissing r desiredInst)
      (Ok reports) (Some <$> l) = Ok reports' ∧
    ∀ id, reports' !! id
          = match reports !! id with
            | Some v => Some v
            | None => (λ e, Some (onlyInDesired e)) <$> head (withID id l)
            end.
Proof.
  revert reports. induction l as [|e l IH]; intros reports.
  - exists reports. split; [done|]. intros id. by destruct (reports !! id).
  - cbn [fmap list_fmap foldl mbind outcome_bind addMissing].
    destruct (reports !! Instance.ID e) as [v|] eqn:He.
    + destruct (IH reports) as (reports' & Hloop & Hlook).
      exists reports'. split; [done|]. intros id. rewrite Hlook.
      destruct (reports !! id) as [v'|] eqn:Hid; [done|].
      rewrite withID_cons, decide_False; [done|]. congruence.
    + destruct (IH (<[Instance.ID e := Some (onlyInDesired e)]> reports))
        as (reports' & Hloop & Hlook).
      exists reports'. split; [done|]. intros id. rewrite Hlook.
      rewrite withID_cons. case_decide as Hid.
      * subst id. by rewrite lookup_insert_eq, He.
      * by rewrite lookup_insert_ne.
Qed.

(** X3.  What the batch reports for an ID.  When instances with that ID are on
    both sides, the report is the comparison of the last actual one with
    the last desired one, as [DetectDrift] makes it.  When the ID is in
    actual only, the report holds one [Removed] drift at the root path
    without values; when it is in desired only, one [Added] drift at the
    root path whose expected value is the first desired instance with
    that ID.  No other ID has an entry. *)
Theorem BatchDetectDrift_by_id (actual desired : list Instance.t) :
  ∃ reports,
    BatchDetectDrift ord s (Some <$> actual) (Some <$> desired)
      = Ok (Some reports, None) ∧
    ∀ id,
      match last (withID id actual), last (withID id desired) with
      | Some a, Some e =>
          ∃ r, DetectDrift ord s (Some a) (Some e) = Ok (Some r, None) ∧
               reports !! id = Some (Some r)
      | Some a, None => reports !! id = Some (Some (onlyInActual a))
      | None, Some _ =>
          ∃ e, head (withID id desired) = Some e ∧
               reports !! id = Some (Some (onlyInDesired e))
      | None, None => reports !! id = None
      end.
Proof.
  unfold BatchDetectDrift. rewrite indexDesired_Some.
  cbn [mbind outcome_bind].
  destruct (compareActual_by_id (byID desired ∅) actual ∅)
    as (reports1 & -> & Hlook1); [by apply byID_keyed|].
  cbn [mbind outcome_bind].
  destruct (addMissing_by_id desired reports1) as (reports2 & -> & Hlook2).
  exists reports2. split; [done|]. intros id.
  rewrite Hlook2, Hlook1.
  destruct (last (withID id actual)) as [a|] eqn:Ha.
  - assert (Instance.ID a = id) as Hid.
    { apply last_Some in Ha as [l' Ha].
      assert (a ∈ withID id actual) as Hin
        by (rewrite Ha; apply elem_of_app; right; apply list_elem_of_here).
      by apply list_elem_of_filter in Hin as [? _]. }
    unfold compared. rewrite Hid, byID_lookup, lookup_empty.
    destruct (last (withID id desired)) as [e|] eqn:He; [|done].
    assert (Instance.ID e = id) as Hid'.
    { apply last_Some in He as [l' He].
      assert (e ∈ withID id desired) as Hin
        by (rewrite He; apply elem_of_app; right; apply list_elem_of_here).
      by apply list_elem_of_filter in Hin as [? _]. }
    destruct (CompareInstances_total ord (detector s) a e) as [r Hr].
    exists r. rewrite Hr. split; [|done].
    unfold DetectDrift. rewrite decide_False by (intros ?; congruence).
    by rewrite Hr.
  - rewrite lookup_empty.
    destruct (last (withID id desired)) as [e|] eqn:He.
    + destruct (withID id desired) as [|e0 l0] eqn:Hw; [done|].
      by exists e0.
    + destruct (withID id desired) as [|e0 l0] eqn:Hw; [done|].
      by rewrite last_cons_default in He.
Qed.

End services_batch_by_id.

(** ** Instances and their tags *)

Section instance_tags.
Import domain_models.

(** X4.  [AddTag] followed by a lookup: the tag that was added is there with
    its value, also when [Tags] was nil; every other tag is as before; a
    second [AddTag] for the same key replaces the first; the validity of
    the instance does not change. *)
Theorem AddTag_lookup key value (i : Instance.t) :
  (∃ tags,
     Instance.Tags (Instance.AddTag key value i) = Some tags ∧
     tags !! key = Some value ∧
     ∀ k, k ≠ key → tags !! k = default ∅ (Instance.Tags i) !! k) ∧
  (∀ value', Instance.AddTag key value (Instance.AddTag key value' i)
             = Instance.AddTag key value i) ∧
  Instance.IsValid (Instance.AddTag key value i) = Instance.IsValid i.
Proof.
  split; [|split].
  - eexists. split; [done|]. split; [apply lookup_insert_eq|].
    intros k Hk. by apply lookup_insert_ne.
  - intros value'. unfold Instance.AddTag. cbn. by rewrite insert_insert_eq.
  - done.
Qed.

End instance_tags.

(** ** Reports as data transfer objects *)

Section report_dtos.
Import domain_models.



End report_dtos.

(** ** Mock configurations *)

Section mock_configs.
Import models.

Lemma missingGroupID_spec sgs j i :
  cmd.missingGroupID j sgs = Some i ↔
  ∃ k sg, i = j + k ∧ sgs !! k = Some sg ∧ SecurityGroup.GroupID sg = "" ∧
          ∀ k' sg', k' < k → sgs !! k' = Some sg' →
                    SecurityGroup.GroupID sg' ≠ "".
Proof.
  revert j. induction sgs as [|sg sgs IH]; intros j; cbn.
  - split; [done|]. by intros (k & sg & _ & ? & _).
  - case_decide as Hsg.
    + split.
      * intros [= <-]. exists 0, sg. repeat split; [lia|done|lia].
      * intros (k & sg' & -> & Hk & Hsg' & Hfirst).
        destruct k as [|k]; [f_equal; lia|].
        by destruct (Hfirst 0 sg ltac:(lia) eq_refl).
    + rewrite IH. split.
      * intros (k & sg' & -> & Hk & Hsg' & Hfirst).
        exists (S k), sg'. repeat split; [lia|done..|].
        intros [|k'] sg'' Hlt; cbn; [by intros [= <-]|].
        apply Hfirst. lia.
      * intros (k & sg' & -> & Hk & Hsg' & Hfirst).
        destruct k as [|k]; [by injection Hk as ->|].
        exists k, sg'. repeat split; [lia|done..|].
        intros k' sg'' Hlt Hk'. apply (Hfirst (S k') sg''); [lia|done].
Qed.

Lemma missingGroupID_None sgs j :
  cmd.missingGroupID j sgs = None ↔
  Forall (λ sg, SecurityGroup.GroupID sg ≠ "") sgs.
Proof.
  revert j. induction sgs as [|sg sgs IH]; intros j; cbn.
  - split; [constructor|done].
  - case_decide as Hsg.
    + split; [done|]. by intros [? _]%Forall_cons.
    + rewrite IH, Forall_cons. naive_solver.
Qed.

(** X6.  [validateMockConfig] accepts a configuration exactly when its
    instance ID is not empty and every security group has a group ID.  An
    accepted configuration comes back with a non-nil [Tags] map and is
    otherwise unchanged.  When the instance ID is there and a group ID is
    missing, the error names the index of the first such group. *)
Theorem validateMockConfig_accepts (config : InstanceConfig.t) :
  ∃ config' err,
    cmd.validateMockConfig (Some config) = Ok (config', err) ∧
    (err = None ↔
       InstanceConfig.InstanceID config ≠ "" ∧
       Forall (λ sg, SecurityGroup.GroupID sg ≠ "")
         (default [] (InstanceConfig.SecurityGroups config))) ∧
    (err = None →
       config'
       = cmd.setTags (Some (default ∅ (InstanceConfig.Tags config))) config) ∧
    (∀ i sg,
       InstanceConfig.InstanceID config ≠ "" →
       default [] (InstanceConfig.SecurityGroups config) !! i = Some sg →
       SecurityGroup.GroupID sg = "" →
       (∀ j sg', j < i →
          default [] (InstanceConfig.SecurityGroups config) !! j = Some sg' →
          SecurityGroup.GroupID sg' ≠ "") →
       err = Some ("security group at index " +:+ pretty i +:+
                   " is missing GroupID")).
Proof.
  unfold cmd.validateMockConfig. case_decide as Hid.
  { eexists _, _. split; [done|]. split; [|split]; [naive_solver|done|].
    intros. done. }
  assert (∀ c : InstanceConfig.t,
            InstanceConfig.SecurityGroups
              match InstanceConfig.Tags c with
              | Some _ => c
              | None => cmd.setTags (Some ∅) c
              end = InstanceConfig.SecurityGroups c) as Hsgs
    by (intros c; by destruct (InstanceConfig.Tags c)).
  rewrite Hsgs.
  destruct (cmd.missingGroupID 0 _) as [i|] eqn:Hmiss.
  - eexists _, _. split; [done|]. split; [|split]; [|done|].
    + split; [done|]. intros [_ Hall]. apply (missingGroupID_None _ 0) in Hall.
      congruence.
    + intros i' sg _ Hi' Hsg Hfirst. do 3 f_equal.
      apply missingGroupID_spec in Hmiss
        as (k & sg' & -> & Hk & Hsg' & Hfirst').
      cbn. destruct (Nat.lt_trichotomy i' k) as [?|[->|?]]; [|done|].
      * by destruct (Hfirst' i' sg).
      * by destruct (Hfirst k sg').
  - eexists _, _. split; [done|]. split; [|split].
    + split; [|done]. intros _. split; [done|].
      by apply missingGroupID_None in Hmiss.
    + intros _. destruct config. cbn. by destruct Tags.
    + intros i sg _ Hi Hsg _. apply missingGroupID_None in Hmiss.
      rewrite Forall_lookup in Hmiss. by destruct (Hmiss i sg).
Qed.

End mock_configs.

(** ** Matching an instance with a Terraform configuration *)

Section matching.
Import models.

Lemma matchByID_Some id tfConfigs :
  ∃ r, cmd.matchByID id (Some <$> tfConfigs) = Ok r ∧
       r = head (filter (λ c, InstanceConfig.InstanceID c = id) tfConfigs).
Proof.
  induction tfConfigs as [|c l (r & IH & ->)]; [by eexists|].
  rewrite filter_cons. cbn [fmap list_fmap cmd.matchByID].
  case_decide; [by eexists|]. by eexists.
Qed.

Lemma matchByName_Some name tfConfigs :
  ∃ r, cmd.matchByName name (Some <$> tfConfigs) = Ok r ∧
       ∀ c, r = Some c → c ∈ tfConfigs.
Proof.
  induction tfConfigs as [|c l (r & IH & Hin)]; [by eexists|].
  cbn. destruct (default ∅ (InstanceConfig.Tags c) !! "Name") as [n|].
  - case_decide.
    + eexists. split; [done|]. intros ? [= <-]. apply list_elem_of_here.
    + exists r. split; [done|]. intros c' Hc'.
      apply list_elem_of_further. by apply Hin.
  - exists r. split; [done|]. intros c' Hc'.
    apply list_elem_of_further. by apply Hin.
Qed.

(** X7.  [findMatchingConfig] returns nil only when there is no Terraform
    configuration at all; otherwise it returns one of the configurations
    it was given, also when none of them matches the instance. *)
Theorem findMatchingConfig_some_config
    (awsConfig : InstanceConfig.t) (tfConfigs : list InstanceConfig.t) :
  ∃ r log,
    cmd.findMatchingConfig (Some awsConfig) (Some <$> tfConfigs)
      = Ok (r, log) ∧
    (r = None ↔ tfConfigs = []) ∧
    (∀ cfg, r = Some cfg → cfg ∈ tfConfigs).
Proof.
  unfold cmd.findMatchingConfig.
  destruct (matchByID_Some (InstanceConfig.InstanceID awsConfig) tfConfigs)
    as (byID & -> & HbyID). cbn [mbind outcome_bind].
  assert (∀ c, byID = Some c → c ∈ tfConfigs) as Hin.
  { intros c Hc. rewrite HbyID in Hc. apply head_Some in Hc as [l' Hc].
    assert (c ∈ filter (λ c, InstanceConfig.InstanceID c
                              = InstanceConfig.InstanceID awsConfig)
                   tfConfigs) as Hc'
      by (rewrite Hc; apply list_elem_of_here).
    by apply list_elem_of_filter in Hc' as [_ ?]. }
  assert (∀ c, c ∈ tfConfigs → tfConfigs ≠ []) as Hne
    by (by intros c Hc ->; apply elem_of_nil in Hc).
  assert (∃ r log,
            Ok (default None (head (Some <$> tfConfigs)),
                [ {| cmd.level := logger.LevelWarn;
                     cmd.format :=
                       "No exact matching Terraform configuration found, using first available config";
                     cmd.args := [] |} ]) = Ok (r, log) ∧
            (r = None ↔ tfConfigs = []) ∧
            (∀ cfg, r = Some cfg → cfg ∈ tfConfigs)) as Hfallback.
  { eexists _, _. split; [done|]. destruct tfConfigs as [|c l]; cbn.
    - split; [done|]. by intros ? [=].
    - split; [done|]. intros ? [= <-]. apply list_elem_of_here. }
  destruct byID as [c|].
  { eexists _, _. split; [done|]. split.
    - split; [done|]. intros Hnil. by destruct (Hne c (Hin c eq_refl)).
    - intros ? [= <-]. by apply Hin. }
  destruct (default ∅ (InstanceConfig.Tags awsConfig) !! "Name")
    as [nameTag|]; [|done].
  destruct (matchByName_Some nameTag tfConfigs) as (byName & -> & Hin').
  cbn [mbind outcome_bind]. destruct byName as [c|]; [|done].
  eexists _, _. split; [done|]. split.
  - split; [done|]. intros Hnil. by destruct (Hne c (Hin' c eq_refl)).
  - intros ? [= <-]. by apply Hin'.
Qed.

(** X8.  A configuration with the instance's ID is preferred to every other
    match: [findMatchingConfig] returns the first configuration whose
    instance ID is that of the instance, whatever the [Name] tags are. *)
Theorem findMatchingConfig_by_id
    (awsConfig cfg : InstanceConfig.t) (before after : list InstanceConfig.t) :
  InstanceConfig.InstanceID cfg = InstanceConfig.InstanceID awsConfig →
  Forall (λ c, InstanceConfig.InstanceID c
               ≠ InstanceConfig.InstanceID awsConfig) before →
  ∃ log,
    cmd.findMatchingConfig (Some awsConfig)
      (Some <$> before ++ cfg :: after) = Ok (Some cfg, log).
Proof.
  intros Hid Hbefore. unfold cmd.findMatchingConfig.
  destruct (matchByID_Some (InstanceConfig.InstanceID awsConfig)
              (before ++ cfg :: after)) as (byID & -> & ->).
  cbn [mbind outcome_bind].
  rewrite filter_app, filter_cons, decide_True by done.
  replace (filter _ before) with (@nil InstanceConfig.t).
  - by eexists.
  - symmetry. induction Hbefore as [|c l Hc _ IH]; [done|].
    by rewrite filter_cons, decide_False.
Qed.

End matching.

(** The theorem applies: the second of two configurations has the
    instance's ID, the first has its [Name] tag. *)
Lemma findMatchingConfig_by_id_example :
  ∃ log,
    cmd.findMatchingConfig
      (Some (samples.config "i-1" "t2.micro" (Some {["Name" := "web"]})
               None None))
      (Some <$> [samples.config "i-2" "t2.micro" (Some {["Name" := "web"]})
                   None None]
                ++ samples.config "i-1" "t3.large" None None None :: [])
    = Ok (Some (samples.config "i-1" "t3.large" None None None), log).
Proof.
  apply findMatchingConfig_by_id; [reflexivity|].
  repeat constructor. by intros [=].
Defined.

(** ** From the EC2 API to a configuration *)

Section conversion.
Import models.

Lemma convert_tags_acc tags (m : gmap string string) :
  foldl
    (λ tags tag,
       match aws.types.Key tag, aws.types.Value tag with
       | Some key, Some value => <[key := value]> tags
       | _, _ => tags
       end)
    m tags
  = list_to_map (reverse (omap complete tags)) ∪ m.
Proof.
  revert m. induction tags as [|[[k|] [v|]] tags IH]; intros m;
    cbn [foldl aws.types.Key aws.types.Value omap list_omap complete
         mbind option_bind];
    rewrite ?IH; try done.
  - rewrite reverse_nil. cbn [list_to_map foldr]. by rewrite (left_id_L ∅ (∪)).
  - rewrite reverse_cons, list_to_map_app. cbn [list_to_map foldr].
    rewrite <- (assoc_L (∪)). f_equal.
    by rewrite insert_union_singleton_l, insert_empty.
Qed.

Lemma convert_groups_acc (sgs : list aws.types.GroupIdentifier) acc :
  foldl
    (λ sgs sg,
       aws.append sgs
         {| SecurityGroup.GroupID := aws.ToString (aws.types.GroupId sg);
            SecurityGroup.GroupName :=
              aws.ToString (aws.types.GroupName sg) |})
    acc sgs
  = match sgs with
    | [] => acc
    | _ => Some (default [] acc ++ (ofGroupIdentifier <$> sgs))
    end.
Proof.
  revert acc. induction sgs as [|sg sgs IH]; intros acc; [done|].
  cbn [foldl]. rewrite IH. unfold aws.append. cbn [default].
  destruct sgs as [|sg' sgs]; [done|]. f_equal. unfold id.
  by rewrite <- (assoc_L (++)).
Qed.

(** X9.  [convertToInstanceConfig] never leaves [Tags] nil: the map holds the
    tags that have both a key and a value, a later tag replacing an
    earlier one with the same key, and a tag without key or without value
    is dropped.  [SecurityGroups] is nil exactly when the instance has no
    security group, and otherwise lists the groups in the order of the
    API, a missing ID or name being the empty string. *)
Theorem convertToInstanceConfig_collections (instance : aws.types.Instance) :
  let cfg := aws.convertToInstanceConfig instance in
  InstanceConfig.Tags cfg
  = Some (list_to_map
            (reverse (omap complete (aws.types.Tags instance)))) ∧
  (InstanceConfig.SecurityGroups cfg = None ↔
     aws.types.SecurityGroups instance = []) ∧
  default [] (InstanceConfig.SecurityGroups cfg)
  = ofGroupIdentifier <$> aws.types.SecurityGroups instance.
Proof.
  cbn. rewrite convert_tags_acc, convert_groups_acc.
  rewrite (right_id_L ∅ (∪)). split; [done|].
  by destruct (aws.types.SecurityGroups instance).
Qed.

End conversion.

(** ** The drift detection use case *)

Section handler.
Import domain_models commands.
Context (ord : reflect.MapOrder) (s : services.DefaultDetectionService).
Context (instanceRepo : InstanceRepository).
Context (tfStateRepo : TerraformStateRepository).

Lemma findDesired_Some id desiredInstances e :
  findDesired id desiredInstances = Ok (Some e) →
  ∃ before after,
    desiredInstances = (Some <$> before) ++ Some e :: after ∧
    Forall (λ i, Instance.ID i ≠ id) before ∧ Instance.ID e = id.
Proof.
  induction desiredInstances as [|[i|] l IH]; cbn; [done| |done].
  case_decide as Hi.
  - intros [= ->]. by exists [], l.
  - intros (before & after & -> & Hbefore & He)%IH.
    exists (i :: before), after. split; [done|]. split; [|done].
    by constructor.
Qed.

(** X10.  A report returned by [Handle] is always the comparison of the
    instance fetched from AWS with the first instance of the Terraform
    state (the state file if one is named, the directory otherwise) that
    carries the requested ID, and the fetched instance carries that ID
    too.  [Handle] returns a report or an error, never both and never
    neither. *)
Theorem Handle_report cmd report err :
  Handle (NewDetectDriftHandler (DefaultService ord s) instanceRepo
            tfStateRepo) cmd = Ok (report, err) →
  (is_Some report ↔ err = None) ∧
  ∀ r, report = Some r →
    ∃ a e desired before after,
      GetByID instanceRepo (InstanceID cmd) = Ok (Some a, None) ∧
      ((TerraformStateFile cmd ≠ "" ∧
        GetInstanceConfigs tfStateRepo (TerraformStateFile cmd)
        = Ok (desired, None)) ∨
       (TerraformStateFile cmd = "" ∧ TerraformDir cmd ≠ "" ∧
        GetInstanceConfigsFromDir tfStateRepo (TerraformDir cmd)
        = Ok (desired, None))) ∧
      desired = (Some <$> before) ++ Some e :: after ∧
      Forall (λ i, Instance.ID i ≠ InstanceID cmd) before ∧
      Instance.ID e = InstanceID cmd ∧
      Instance.ID a = InstanceID cmd ∧
      services.CompareInstances ord (services.detector s) (Some a) (Some e)
      = Ok r.
Proof.
  unfold Handle, NewDetectDriftHandler.
  cbn [commands.instanceRepo commands.tfStateRepo commands.detectionService].
  destruct (GetByID instanceRepo (InstanceID cmd))
    as [[actualInstance [err1|]]| |] eqn:Hget; cbn [mbind outcome_bind];
    [|  |done..].
  { intros [= <- <-]. split; [|done]. split; [by intros [? [=]]|done]. }
  set (fetched :=
         if decide (TerraformStateFile cmd ≠ "") then
           r ← GetInstanceConfigs tfStateRepo (TerraformStateFile cmd);
           Ok (Some r)
         else if decide (TerraformDir cmd ≠ "") then
           r ← GetInstanceConfigsFromDir tfStateRepo (TerraformDir cmd);
           Ok (Some r)
         else Ok None).
  destruct fetched as [[[desired [err2|]]|]| |] eqn:Hfetched;
    cbn [mbind outcome_bind]; [| | |done..].
  { intros [= <- <-]. split; [|done]. split; [by intros [? [=]]|done]. }
  2:{ intros [= <- <-]. split; [|done]. split; [by intros [? [=]]|done]. }
  assert ((TerraformStateFile cmd ≠ "" ∧
           GetInstanceConfigs tfStateRepo (TerraformStateFile cmd)
           = Ok (desired, None)) ∨
          (TerraformStateFile cmd = "" ∧ TerraformDir cmd ≠ "" ∧
           GetInstanceConfigsFromDir tfStateRepo (TerraformDir cmd)
           = Ok (desired, None))) as Hsource.
  { subst fetched. case_decide as Hfile.
    - left. split; [done|].
      destruct (GetInstanceConfigs _ _) as [[??]| |]; [|done..].
      by injection Hfetched as -> ->.
    - right. try apply dec_stable in Hfile. split; [done|].
      case_decide as Hdir; [|done]. split; [done|].
      destruct (GetInstanceConfigsFromDir _ _) as [[??]| |]; [|done..].
      by injection Hfetched as -> ->. }
  destruct (findDesired (InstanceID cmd) desired) as [[e|]| |] eqn:Hfind;
    cbn [mbind outcome_bind]; [| |done..].
  2:{ intros [= <- <-]. split; [|done]. split; [by intros [? [=]]|done]. }
  apply findDesired_Some in Hfind as (before & after & -> & Hbefore & He).
  cbn [DefaultService DetectDrift]. unfold services.DetectDrift.
  destruct actualInstance as [a|].
  2:{ intros [= <- <-]. split; [|done]. split; [by intros [? [=]]|done]. }
  case_decide as Hid.
  { intros [= <- <-]. split; [|done]. split; [by intros [? [=]]|done]. }
  try apply dec_stable in Hid.
  destruct (services.CompareInstances _ _ _ _) as [r| |] eqn:Hr;
    cbn [mbind outcome_bind fmap option_fmap option_map]; [|done..].
  intros [= <- <-]. split; [done|]. intros ? [= <-].
  exists a, e, ((Some <$> before) ++ Some e :: after), before, after.
  repeat split; try done. congruence.
Qed.

End handler.

(** The theorem applies: the instance is fetched, the state file lists
    one instance with another ID before the one that is asked for. *)
Lemma Handle_report_example :
  let instanceRepo :=
    {| commands.GetByID id :=
         Ok (Some (samples.instance id "t2.micro" None None), None) |} in
  let tfStateRepo :=
    {| commands.GetInstanceConfigs _ :=
         Ok ([Some (samples.instance "i-0" "t2.micro" None None);
              Some (samples.instance "i-1" "t3.large" None None)], None);
       commands.GetInstanceConfigsFromDir _ := Ok ([], None) |} in
  let cmd :=
    {| commands.InstanceID := "i-1";
       commands.TerraformStateFile := "terraform.tfstate";
       commands.TerraformDir := "" |} in
  ∃ r,
    commands.Handle
      (commands.NewDetectDriftHandler
         (commands.DefaultService samples.inOrder
            services.NewDetectionService) instanceRepo tfStateRepo) cmd
    = Ok (Some r, None) ∧
    ∃ a e,
      commands.GetByID instanceRepo "i-1" = Ok (Some a, None) ∧
      domain_models.Instance.ID e = "i-1" ∧
      domain_models.Instance.ID a = "i-1" ∧
      services.CompareInstances samples.inOrder services.NewDriftDetector
        (Some a) (Some e) = Ok r.
Proof.
  intros instanceRepo tfStateRepo cmd.
  assert (∃ r,
            commands.Handle
              (commands.NewDetectDriftHandler
                 (commands.DefaultService samples.inOrder
                    services.NewDetectionService) instanceRepo tfStateRepo)
              cmd = Ok (Some r, None)) as [r Hr]
    by (eexists; vm_compute; reflexivity).
  exists r. split; [exact Hr|].
  destruct (Handle_report samples.inOrder services.NewDetectionService
              instanceRepo tfStateRepo cmd (Some r) None Hr)
    as [_ Hrep].
  destruct (Hrep r eq_refl)
    as (a & e & desired & before & after & Hget & _ & _ & _ & He & Ha & Hcmp).
  by exists a, e.
Defined.

(** ** The service finds every difference *)

Section services_complete.
Import reflect domain_models services.
Context (ord : MapOrder) (d : DriftDetector).
Context (decls : string → list (string * gotype)).
Context (nothing_ignored : ∀ f, ignored d f = false).

Lemma forEach_nil_iff {X D} (body : X → outcome (list D)) xs ds :
  forEach body xs = Ok ds →
  ds = [] ↔ ∀ x, x ∈ xs → body x = Ok [].
Proof.
  revert ds. induction xs as [|x xs IH]; intros ds.
  - intros [= <-]. split; [|done]. intros _ x Hx. by apply elem_of_nil in Hx.
  - rewrite forEach_cons. intros (a & b & Ha & Hb & ->)%andThen_Ok_inv.
    split.
    + intros [-> ->]%app_eq_nil y [->|Hy]%elem_of_cons; [done|].
      by apply (IH _ Hb).
    + intros Hall.
      rewrite (Hall x) in Ha by apply list_elem_of_here.
      injection Ha as <-. cbn. apply (IH _ Hb).
      intros y Hy. apply Hall. by apply list_elem_of_further.
Qed.

Lemma similar_items a b :
  (fix items (a b : list value) : bool :=
     match a, b with
     | [], [] => true
     | x :: r, y :: r' => similar x y && items r r'
     | _, _ => false
     end) a b = true ↔
  length a = length b ∧
  ∀ i x y, a !! i = Some x → b !! i = Some y → similar x y = true.
Proof.
  revert b. induction a as [|x a IH]; intros [|y b]; cbn.
  - split; [|done]. intros _. split; [done|]. by intros i ???.
  - split; [done|]. by intros [[=] _].
  - split; [done|]. by intros [[=] _].
  - rewrite andb_true_iff, IH. split.
    + intros [Hxy [Hlen Hall]]. split; [by f_equal|].
      intros [|i] x' y'; cbn; [by intros [= <-] [= <-]|]. apply Hall.
    + intros [[= Hlen] Hall]. split; [by apply (Hall 0)|].
      split; [done|]. intros i. apply (Hall (S i)).
Qed.

Lemma similar_slices t l t' l' :
  similar (VSlice t l) (VSlice t' l') = true ↔
  length (default [] l) = length (default [] l') ∧
  ∀ i x y, default [] l !! i = Some x → default [] l' !! i = Some y →
           similar x y = true.
Proof.
  destruct l as [a|], l' as [b|]; cbn [similar default].
  - apply similar_items.
  - destruct a; cbn; [|by split; [|intros [[=] _]]].
    split; [|done]. intros _. split; [done|]. by intros i ???.
  - destruct b; cbn; [|by split; [|intros [[=] _]]].
    split; [|done]. intros _. split; [done|]. by intros i ???.
  - split; [|done]. intros _. split; [done|]. by intros i ???.
Qed.

Lemma similar_fields n fs n' fs' :
  similar (VStruct n fs) (VStruct n' fs') = true ↔
  length fs = length fs' ∧
  ∀ i f x f' y, fs !! i = Some (f, x) → fs' !! i = Some (f', y) →
                similar x y = true.
Proof.
  cbn [similar]. revert fs'.
  induction fs as [|[f x] fs IH]; intros [|[f' y] fs']; cbn.
  - split; [|done]. intros _. split; [done|]. by intros i ?????.
  - split; [done|]. by intros [[=] _].
  - split; [done|]. by intros [[=] _].
  - rewrite andb_true_iff, IH. split.
    + intros [Hxy [Hlen Hall]]. split; [by f_equal|].
      intros [|i] g a g' b; cbn; [by intros [= <- <-] [= <- <-]|]. apply Hall.
    + intros [[= Hlen] Hall]. split; [by apply (Hall 0 f x f' y)|].
      split; [done|]. intros i. apply (Hall (S i)).
Qed.

Lemma services_compareMaps_nil_iff p m m' ds :
  services.compareMaps ord p (VMap m) (VMap m') = Ok ds →
  ds = [] ↔ default ∅ m = default ∅ m'.
Proof.
  unfold services.compareMaps. cbn [MapKeys MapIndex mbind outcome_bind].
  set (am := default ∅ m). set (em := default ∅ m').
  intros (d1 & d2 & H1 & H2 & ->)%andThen_Ok_inv.
  rewrite app_nil, (forEach_nil_iff _ _ _ H1), (forEach_nil_iff _ _ _ H2).
  split.
  - intros [Ha He]. apply map_eq. intros k.
    destruct (am !! k) as [x|] eqn:Hx.
    + assert (k ∈ (rangeMap ord am).*1) as Hk
        by (apply elem_of_rangeMap_keys; eauto).
      specialize (Ha k Hk). cbn in Ha. rewrite Hx in Ha.
      destruct (em !! k) as [y|]; cbn in Ha; [|done].
      destruct (bool_decide (x = y)) eqn:Hxy; cbn in Ha; [|done].
      by apply bool_decide_eq_true in Hxy as ->.
    + destruct (em !! k) as [y|] eqn:Hy; [|done].
      assert (k ∈ (rangeMap ord em).*1) as Hk
        by (apply elem_of_rangeMap_keys; by exists y).
      specialize (He k Hk). cbn in He. rewrite Hx, Hy in He. by cbn in He.
  - intros <-. split.
    + intros k [x Hx]%elem_of_rangeMap_keys. cbn. rewrite Hx. cbn.
      by rewrite bool_decide_eq_true_2.
    + intros k [x Hx]%elem_of_rangeMap_keys. cbn. by rewrite Hx.
Qed.

Lemma similar_scalar a e :
  match a with VMap _ | VSlice _ _ | VStruct _ _ => False | _ => True end →
  similar a e = deepValueEqual a e.
Proof. by destruct a. Qed.

Lemma services_compareStruct_nil_iff fuel :
  ∀ p t a e ds,
    has_type decls t a = true → has_type decls t e = true →
    height a < fuel →
    services.compareStruct ord fuel d p a e = Ok ds →
    ds = [] ↔ similar a e = true.
Proof.
  induction fuel as [|fuel IH]; intros p t a e ds Ha He Hh; [lia|].
  cbn [services.compareStruct].
  rewrite decide_False by (by rewrite (has_type_kind _ _ _ _ Ha He); intros ?).
  assert (Hscalar :
    match a with VMap _ | VSlice _ _ | VStruct _ _ => False | _ => True end →
    (a' ← Interface a; e' ← Interface e;
     if negb (DeepEqual (Some a') (Some e')) then
       Ok [NewDrift DriftTypeModified (trimDot p) (Some a') (Some e')
             "Value mismatch"]
     else Ok []) = Ok ds →
    ds = [] ↔ similar a e = true).
  { intros Hsc. rewrite (similar_scalar _ _ Hsc).
    rewrite !Interface_valid by by eapply has_type_valid. cbn.
    destruct (deepValueEqual a e); cbn; by intros [= <-]. }
  destruct a as [| | | | |n fs|m|t' l]; try (by apply Hscalar); clear Hscalar.
  - (* struct *)
    apply has_type_VStruct in Ha as [-> Hfs].
    apply has_type_TStruct in He as (fs' & -> & Hfs').
    intros Hds. rewrite (forEach_nil_iff _ _ _ Hds), similar_fields.
    pose proof (Forall2_length _ _ _ Hfs) as Hlen.
    pose proof (Forall2_length _ _ _ Hfs') as Hlen'.
    apply forEach_Ok_inv in Hds as [Hall _].
    split.
    + intros Hnil. split; [congruence|]. intros i f x f' y Hi Hi'.
      assert ((i, (f, x)) ∈ zip (seq 0 (length fs)) fs) as Hin.
      { apply list_elem_of_lookup. exists i.
        apply lookup_zip_with_Some. exists i, (f, x).
        split; [done|]. split; [|done]. apply lookup_seq.
        split; [done|]. by eapply lookup_lt_Some. }
      specialize (Hnil _ Hin). cbn beta iota in Hnil.
      rewrite nothing_ignored in Hnil. cbn in Hnil. rewrite Hi' in Hnil.
      cbn in Hnil.
      destruct (fields_typed_lookup _ _ _ _ _ _ Hfs Hi) as (tg & Hd & Hx).
      destruct (fields_typed_lookup_r _ _ _ _ _ _ Hfs' Hd)
        as (y' & Hi'' & Hy).
      simplify_eq.
      assert (height x < fuel) as Hhx.
      { assert (height x < height (VStruct n fs)); [|lia].
        eapply height_field, list_elem_of_lookup_2, Hi. }
      by apply (proj1 (IH _ tg x y [] Hx Hy Hhx Hnil)).
    + intros [_ Hsim] [i [f x]] Hin.
      pose proof (elem_of_zip_seq _ _ _ Hin) as Hi.
      cbn beta iota. rewrite nothing_ignored.
      destruct (fields_typed_lookup _ _ _ _ _ _ Hfs Hi) as (tg & Hd & Hx).
      destruct (fields_typed_lookup_r _ _ _ _ _ _ Hfs' Hd)
        as (y & Hi' & Hy).
      cbn. rewrite Hi'. cbn.
      destruct (Hall _ Hin) as [dx Hdx]. cbn beta iota in Hdx.
      rewrite nothing_ignored in Hdx. cbn in Hdx. rewrite Hi' in Hdx.
      cbn in Hdx. rewrite Hdx. f_equal.
      assert (height x < fuel) as Hhx.
      { assert (height x < height (VStruct n fs)); [|lia].
        eapply height_field, list_elem_of_lookup_2, Hi. }
      apply (proj2 (IH _ tg x y dx Hx Hy Hhx Hdx)). by eapply Hsim.
  - (* map *)
    apply has_type_VMap in Ha as ->. apply has_type_TMap in He as [m' ->].
    intros Hds. rewrite (services_compareMaps_nil_iff _ _ _ _ Hds).
    cbn. by rewrite bool_decide_eq_true.
  - (* slice *)
    apply has_type_VSlice in Ha as [-> Hl].
    apply has_type_TSlice in He as (l' & -> & Hl').
    rewrite similar_slices.
    unfold services.compareSlices. cbn [Len mbind outcome_bind].
    case_decide as Hlen.
    + cbn. intros [= <-]. split; [done|]. by intros [? _].
    + try apply dec_stable in Hlen. intros Hds.
      rewrite (forEach_nil_iff _ _ _ Hds).
      apply forEach_Ok_inv in Hds as [Hall _].
      assert (∀ i x y, default [] l !! i = Some x →
                       default [] l' !! i = Some y →
                       has_type decls t' x = true ∧
                       has_type decls t' y = true ∧ height x < fuel)
        as Htyped.
      { intros i x y Hx Hy.
        destruct l as [xs|]; [|done]. destruct l' as [ys|]; [|done].
        cbn in Hx, Hy. split; [|split].
        - apply (Forall_lookup_1 _ _ _ _ (Hl _ eq_refl) Hx).
        - apply (Forall_lookup_1 _ _ _ _ (Hl' _ eq_refl) Hy).
        - assert (height x < height (VSlice t' (Some xs))); [|lia].
          eapply height_item, list_elem_of_lookup_2, Hx. }
      split.
      * intros Hnil. split; [done|]. intros i x y Hx Hy.
        assert (i ∈ seq 0 (length (default [] l))) as Hin.
        { apply elem_of_seq. split; [lia|]. cbn.
          by eapply lookup_lt_Some. }
        specialize (Hnil _ Hin). cbn in Hnil. rewrite Hx, Hy in Hnil.
        cbn in Hnil. destruct (Htyped i x y Hx Hy) as (Htx & Hty & Hhx).
        by apply (proj1 (IH _ t' x y [] Htx Hty Hhx Hnil)).
      * intros [_ Hsim] i Hin.
        pose proof Hin as [_ Hi]%elem_of_seq. cbn in Hi.
        destruct (lookup_lt_is_Some_2 (default [] l) i) as [x Hx]; [lia|].
        destruct (lookup_lt_is_Some_2 (default [] l') i) as [y Hy]; [lia|].
        destruct (Hall _ Hin) as [dx Hdx].
        cbn in Hdx |- *. rewrite Hx, Hy in Hdx |- *. cbn in Hdx |- *.
        rewrite Hdx. f_equal.
        destruct (Htyped i x y Hx Hy) as (Htx & Hty & Hhx).
        apply (proj2 (IH _ t' x y dx Htx Hty Hhx Hdx)). by eapply Hsim.
Qed.

End services_complete.

Section services_instances_complete.
Import reflect domain_models services.

Lemma similar_ptrBool o o' :
  similar (domain_models.ptrBool o) (domain_models.ptrBool o') = true ↔
  o = o'.
Proof.
  destruct o as [[]|], o' as [[]|]; cbn; split; (done || by intros [=]).
Qed.

Lemma similar_SecurityGroup x y :
  similar (ValueOfSecurityGroup x) (ValueOfSecurityGroup y) = true ↔ x = y.
Proof.
  destruct x as [i n], y as [i' n']. cbn.
  rewrite !andb_true_iff, !bool_decide_eq_true. split.
  - by intros (-> & -> & _).
  - by intros [= -> ->].
Qed.

Lemma similar_SecurityGroups l l' :
  similar
    (VSlice (TStruct "SecurityGroup")
       (fmap (M:=list) ValueOfSecurityGroup <$> l))
    (VSlice (TStruct "SecurityGroup")
       (fmap (M:=list) ValueOfSecurityGroup <$> l')) = true ↔
  default [] l = default [] l'.
Proof.
  rewrite similar_slices.
  assert (∀ o : option (list SecurityGroup.t),
            default [] (fmap (M:=list) ValueOfSecurityGroup <$> o)
            = ValueOfSecurityGroup <$> default [] o) as Hd
    by (by intros [?|]).
  rewrite !Hd, !length_fmap. split.
  - intros [Hlen Hall]. apply list_eq_same_length with (length (default [] l));
      [done..|].
    intros i x y _ Hx Hy. apply similar_SecurityGroup.
    apply (Hall i); rewrite list_lookup_fmap; [by rewrite Hx|by rewrite Hy].
  - intros ->. split; [done|]. intros i x y.
    rewrite list_lookup_fmap.
    destruct (default [] l' !! i) as [sg|]; cbn; [|done].
    intros [= <-] [= <-]. by apply similar_SecurityGroup.
Qed.

Lemma similar_instances a e :
  similar (ValueOf a) (ValueOf e) = true ↔ settled a = settled e.
Proof.
  destruct a, e. unfold ValueOf, settled.
  cbn [Instance.ID Instance.Type_ Instance.AMI
    Instance.KeyName Instance.Tags Instance.VPCID Instance.SubnetID
    Instance.SecurityGroups Instance.PublicIPAddress
    Instance.PrivateIPAddress Instance.AssociatePublicIPAddress
    Instance.PrivateDNSName Instance.PublicDNSName Instance.RootVolumeSize
    Instance.RootVolumeType Instance.RootVolumeIops
    Instance.RootVolumeEncrypted Instance.IAMInstanceProfile
    Instance.Monitoring Instance.AvailabilityZone Instance.Tenancy].
  rewrite similar_fields. split.
  - intros [_ Hall].
    pose proof (Hall 0 _ _ _ _ eq_refl eq_refl) as H0.
    pose proof (Hall 1 _ _ _ _ eq_refl eq_refl) as H1.
    pose proof (Hall 2 _ _ _ _ eq_refl eq_refl) as H2.
    pose proof (Hall 3 _ _ _ _ eq_refl eq_refl) as H3.
    pose proof (Hall 4 _ _ _ _ eq_refl eq_refl) as H4.
    pose proof (Hall 5 _ _ _ _ eq_refl eq_refl) as H5.
    pose proof (Hall 6 _ _ _ _ eq_refl eq_refl) as H6.
    pose proof (Hall 7 _ _ _ _ eq_refl eq_refl) as H7.
    pose proof (Hall 8 _ _ _ _ eq_refl eq_refl) as H8.
    pose proof (Hall 9 _ _ _ _ eq_refl eq_refl) as H9.
    pose proof (Hall 10 _ _ _ _ eq_refl eq_refl) as H10.
    pose proof (Hall 11 _ _ _ _ eq_refl eq_refl) as H11.
    pose proof (Hall 12 _ _ _ _ eq_refl eq_refl) as H12.
    pose proof (Hall 13 _ _ _ _ eq_refl eq_refl) as H13.
    pose proof (Hall 14 _ _ _ _ eq_refl eq_refl) as H14.
    pose proof (Hall 15 _ _ _ _ eq_refl eq_refl) as H15.
    pose proof (Hall 16 _ _ _ _ eq_refl eq_refl) as H16.
    pose proof (Hall 17 _ _ _ _ eq_refl eq_refl) as H17.
    pose proof (Hall 18 _ _ _ _ eq_refl eq_refl) as H18.
    pose proof (Hall 19 _ _ _ _ eq_refl eq_refl) as H19.
    pose proof (Hall 20 _ _ _ _ eq_refl eq_refl) as H20.
    clear Hall.
    apply similar_ptrBool in H10, H16, H18.
    apply similar_SecurityGroups in H7.
    cbn [similar deepValueEqual] in H0, H1, H2, H3, H4, H5, H6, H8, H9, H11,
      H12, H13, H14, H15, H17, H19, H20.
    apply bool_decide_eq_true_1 in H0, H1, H2, H3, H4, H5, H6, H8, H9, H11,
      H12, H13, H14, H15, H17, H19, H20.
    rewrite H4, H7. by subst.
  - intros Heq.
    injection Heq as -> -> -> -> Htags -> -> Hsgs -> -> -> -> -> -> -> ->
      -> -> -> -> ->.
    split; [done|]. intros i f x f' y Hi Hi'.
    do 21 (destruct i as [|i];
           [injection Hi as <- <-; injection Hi' as <- <-;
            first [ by apply similar_ptrBool
                  | by apply similar_SecurityGroups
                  | by (cbn [similar deepValueEqual];
                        by apply bool_decide_eq_true_2) ]|]).
    done.
Qed.

(** X11.  The service misses no difference and reports none that is not there:
    with no field ignored, [CompareInstances] finds no drift exactly when
    the two instances are equal, a nil [Tags] map or [SecurityGroups]
    slice counting as an empty one. *)
Theorem CompareInstances_no_drift_iff ord (a e : Instance.t) :
  ∃ r,
    CompareInstances ord NewDriftDetector (Some a) (Some e) = Ok r ∧
    (HasDrift r = false ↔ settled a = settled e) ∧
    (Drifts r = [] ↔ settled a = settled e).
Proof.
  unfold CompareInstances.
  change (default Invalid (domain_models.ValueOf <$> Some e))
    with (domain_models.ValueOf e).
  destruct (services_compareStruct_total ord NewDriftDetector
              domain_models.fieldsOf
              (S (height (domain_models.ValueOf a))) ""
              (TStruct "Instance") (domain_models.ValueOf a)
              (domain_models.ValueOf e)) as [ds Hds];
    [apply domain_ValueOf_typed..|lia|].
  rewrite Hds. cbn [mbind outcome_bind]. eexists. split; [done|].
  assert (ds = [] ↔ settled a = settled e) as Hiff.
  { rewrite <- similar_instances.
    eapply (services_compareStruct_nil_iff ord NewDriftDetector
              domain_models.fieldsOf);
      [done|apply domain_ValueOf_typed..| |exact Hds]. lia. }
  rewrite foldl_AddDrift_Drifts. cbn [Drifts NewDriftReport app].
  split; [|done]. rewrite <- Hiff.
  pose proof (foldl_AddDrift_ok ds (NewDriftReport (Instance.ID a)))
    as Hok.
  unfold report_ok in Hok. rewrite Hok by done.
  rewrite foldl_AddDrift_Drifts. cbn [Drifts NewDriftReport app].
  destruct ds; cbn; [done|]. split; [|done].
  rewrite bool_decide_eq_false. lia.
Qed.

End services_instances_complete.

(** ** The detector finds every difference *)

Section deep_equal_eq.
Import reflect.

Lemma deepValueEqual_fields_iff fs fs' :
  (fix fields (fs fs' : list (string * value)) : bool :=
     match fs, fs' with
     | [], [] => true
     | (f, a) :: r, (f', b) :: r' =>
         bool_decide (f = f') && deepValueEqual a b && fields r r'
     | _, _ => false
     end) fs fs' = true ↔
  length fs = length fs' ∧
  ∀ i f x f' y, fs !! i = Some (f, x) → fs' !! i = Some (f', y) →
                f = f' ∧ deepValueEqual x y = true.
Proof.
  revert fs'. induction fs as [|[f x] fs IH]; intros [|[f' y] fs']; cbn.
  - split; [|done]. intros _. split; [done|]. by intros i ?????.
  - split; [done|]. by intros [[=] _].
  - split; [done|]. by intros [[=] _].
  - rewrite !andb_true_iff, bool_decide_eq_true, IH. split.
    + intros [[-> Hxy] [Hlen Hall]]. split; [by f_equal|].
      intros [|i] g a g' b; cbn; [by intros [= <- <-] [= <- <-]|]. apply Hall.
    + intros [[= Hlen] Hall].
      destruct (Hall 0 f x f' y eq_refl eq_refl) as [-> Hxy].
      split; [done|]. split; [done|]. intros i. apply (Hall (S i)).
Qed.

Lemma deepValueEqual_items_iff a b :
  (fix items (a b : list value) : bool :=
     match a, b with
     | [], [] => true
     | x :: r, y :: r' => deepValueEqual x y && items r r'
     | _, _ => false
     end) a b = true ↔
  length a = length b ∧
  ∀ i x y, a !! i = Some x → b !! i = Some y → deepValueEqual x y = true.
Proof.
  revert b. induction a as [|x a IH]; intros [|y b]; cbn.
  - split; [|done]. intros _. split; [done|]. by intros i ???.
  - split; [done|]. by intros [[=] _].
  - split; [done|]. by intros [[=] _].
  - rewrite andb_true_iff, IH. split.
    + intros [Hxy [Hlen Hall]]. split; [by f_equal|].
      intros [|i] x' y'; cbn; [by intros [= <-] [= <-]|]. apply Hall.
    + intros [[= Hlen] Hall]. split; [by apply (Hall 0)|].
      split; [done|]. intros i. apply (Hall (S i)).
Qed.

Lemma deepValueEqual_VStruct n fs n' fs' :
  deepValueEqual (VStruct n fs) (VStruct n' fs') = true ↔
  n = n' ∧ length fs = length fs' ∧
  ∀ i f x f' y, fs !! i = Some (f, x) → fs' !! i = Some (f', y) →
                f = f' ∧ deepValueEqual x y = true.
Proof.
  cbn [deepValueEqual].
  by rewrite andb_true_iff, bool_decide_eq_true, deepValueEqual_fields_iff.
Qed.

(** [DeepEqual] holds of equal values only. *)
Lemma deepValueEqual_eq_height n :
  ∀ x y, height x < n → deepValueEqual x y = true → x = y.
Proof.
  induction n as [|n IH]; [lia|].
  intros [|b|z|s|t [x|]|name fs|m|t [l|]] [|b'|z'|s'|t' [x'|]|name' fs'|m'|t' [l'|]]
    Hh; cbn [deepValueEqual]; try done;
    rewrite ?andb_true_iff, ?bool_decide_eq_true;
    try (by intros ->); try (by intros [-> _]); try (by intros [_ ?]).
  - intros [-> Hx]. do 2 f_equal. apply IH; [cbn in Hh; lia|done].
  - rewrite deepValueEqual_fields_iff. intros [<- [Hlen Hall]]. f_equal.
    apply list_eq_same_length with (length fs); [done..|].
    intros i [f x] [f' y] _ Hi Hi'.
    destruct (Hall i f x f' y Hi Hi') as [-> Hxy]. f_equal.
    apply IH; [|done].
    assert (height x < height (VStruct name fs)); [|lia].
    eapply height_field, list_elem_of_lookup_2, Hi.
  - rewrite deepValueEqual_items_iff. intros [<- [Hlen Hall]]. do 2 f_equal.
    apply list_eq_same_length with (length l); [done..|].
    intros i x y _ Hi Hi'. apply IH; [|by eapply Hall].
    assert (height x < height (VSlice t (Some l))); [|lia].
    eapply height_item, list_elem_of_lookup_2, Hi.
Qed.

Lemma deepValueEqual_eq x y : deepValueEqual x y = true ↔ x = y.
Proof.
  split; [|intros ->; apply deepValueEqual_refl].
  apply (deepValueEqual_eq_height (S (height x))). lia.
Qed.

End deep_equal_eq.

Section detector_walkable.
Import reflect models detector.
Context (fm : Formatter) (ord : MapOrder) (d : Detector).
Context (decls : string → list (string * gotype)).
Context (decls_nodup : ∀ n, NoDup (decls n).*1).
Context (nothing_ignored : ∀ q, detector.ignored d q = false).

Lemma walkable_fields n fs :
  walkable (VStruct n fs) = true →
  fs ≠ [] ∧ ∀ f x, (f, x) ∈ fs → exported f = true ∧ walkable x = true.
Proof.
  cbn [walkable]. intros [Hne Hall]%andb_true_iff. split; [by destruct fs|].
  clear Hne. induction fs as [|[g y] fs IH]; intros f x Hin.
  - by apply elem_of_nil in Hin.
  - apply andb_true_iff in Hall as [[Hg Hy]%andb_true_iff Hall].
    apply elem_of_cons in Hin as [[= -> ->]|Hin]; [done|]. by apply IH.
Qed.

Lemma fields_typed_same_place fs fs' ds i f x :
  NoDup ds.*1 → fields_typed decls fs ds → fields_typed decls fs' ds →
  fs !! i = Some (f, x) →
  ∃ tg y, has_type decls tg x = true ∧ fs' !! i = Some (f, y) ∧
          fieldNamed f fs' = Some y ∧ has_type decls tg y = true.
Proof.
  intros Hnd Hfs Hfs' Hi.
  destruct (fields_typed_lookup _ _ _ _ _ _ Hfs Hi) as (tg & Hd & Hx).
  destruct (fields_typed_lookup_r _ _ _ _ _ _ Hfs' Hd) as (y & Hi' & Hy).
  exists tg, y. repeat split; [done..| |done].
  apply fieldNamed_elem_of.
  - by rewrite (fields_typed_names _ _ _ Hfs').
  - apply list_elem_of_lookup. by exists i.
Qed.

Lemma detector_compareStruct_walkable fuel :
  ∀ p t a e ds,
    has_type decls t a = true →
    e = Invalid ∨ has_type decls t e = true →
    walkable a = true → height a < fuel →
    detector.compareStruct fm ord fuel d p a e = Ok ds →
    ds = [] ↔ deepValueEqual a e = true.
Proof.
  induction fuel as [|fuel IH]; intros p t a e ds Ha He Hpl Hh; [lia|].
  cbn [detector.compareStruct].
  rewrite (has_type_valid _ _ _ Ha). cbn [negb andb].
  destruct He as [->|He].
  { intros [= <-]. split; [done|]. by destruct a. }
  rewrite (has_type_valid _ _ _ He). cbn [negb].
  (* the loop over the fields of a struct *)
  assert (Hloop : ∀ n fs e' ds,
    fields_typed decls fs (decls n) →
    walkable (VStruct n fs) = true →
    height (VStruct n fs) ≤ fuel →
    e' = Invalid ∨ (∃ fs', e' = VStruct n fs' ∧
                           fields_typed decls fs' (decls n)) →
    forEach
      (λ '(fieldName, actualField),
         if negb (exported fieldName) then Ok []
         else
           let fieldPath :=
             (if decide (p ≠ "") then p +:+ "." else p) +:+ fieldName in
           if ignored d fieldPath then Ok []
           else
             expectedField ←
               (if IsValid e' && bool_decide (kind e' = KStruct)
                then FieldByName e' fieldName
                else Ok Invalid);
             detector.compareStruct fm ord fuel d fieldPath actualField
               expectedField)
      fs = Ok ds →
    ds = [] ↔ deepValueEqual (VStruct n fs) e' = true).
  { clear ds. intros n fs e' ds Hfs Hplain Hfuel He' Hds.
    destruct (walkable_fields _ _ Hplain) as [Hne Hfields].
    rewrite (forEach_nil_iff _ _ _ Hds).
    apply forEach_Ok_inv in Hds as [Hall _].
    destruct He' as [->|(fs' & -> & Hfs')].
    - split; [|done]. intros Hnil.
      destruct fs as [|[f x] fs]; [done|].
      specialize (Hnil (f, x) ltac:(apply list_elem_of_here)).
      destruct (Hfields f x ltac:(apply list_elem_of_here)) as [Hf Hx].
      cbn beta iota zeta in Hnil. rewrite Hf, nothing_ignored in Hnil.
      cbn [negb IsValid andb mbind outcome_bind] in Hnil.
      destruct fuel as [|fuel']; [cbn in Hfuel; lia|].
      cbn [detector.compareStruct] in Hnil.
      assert (IsValid x = true) as Hvx by (by destruct x).
      rewrite Hvx in Hnil. by cbn in Hnil.
    - rewrite deepValueEqual_VStruct.
      pose proof (Forall2_length _ _ _ Hfs) as Hlen.
      pose proof (Forall2_length _ _ _ Hfs') as Hlen'.
      assert (∀ i f x,
                fs !! i = Some (f, x) →
                ∃ y dx,
                  fs' !! i = Some (f, y) ∧
                  (if negb (exported f) then Ok []
                   else
                     let fieldPath :=
                       (if decide (p ≠ "") then p +:+ "." else p) +:+ f in
                     if ignored d fieldPath then Ok []
                     else
                       expectedField ←
                         (if IsValid (VStruct n fs')
                             && bool_decide (kind (VStruct n fs') = KStruct)
                          then FieldByName (VStruct n fs') f
                          else Ok Invalid);
                       detector.compareStruct fm ord fuel d fieldPath x
                         expectedField) = Ok dx ∧
                  (dx = [] ↔ deepValueEqual x y = true)) as Hfield.
      { intros i f x Hi.
        destruct (fields_typed_same_place fs fs' (decls n) i f x)
          as (tg & y & Hx & Hi' & Hnamed & Hy); [done..|].
        assert ((f, x) ∈ fs) as Hin by (by eapply list_elem_of_lookup_2).
        destruct (Hfields f x Hin) as [Hf Hpx].
        destruct (Hall _ Hin) as [dx Hdx]. cbn beta iota zeta in Hdx.
        exists y, dx. split; [done|]. split; [done|].
        rewrite Hf, nothing_ignored in Hdx.
        cbn [negb IsValid andb kind] in Hdx.
        rewrite bool_decide_eq_true_2 in Hdx by done.
        cbn [FieldByName Fields mbind outcome_bind] in Hdx.
        rewrite Hnamed in Hdx. cbn [default] in Hdx. unfold id in Hdx.
        eapply IH; [exact Hx|by right|exact Hpx| |exact Hdx].
        pose proof (height_field n fs f x Hin). lia. }
      split.
      + intros Hnil. split; [done|]. split; [congruence|].
        intros i f x f' y Hi Hi'.
        destruct (Hfield i f x Hi) as (y' & dx & Hy' & Hdx & Hiff).
        rewrite Hi' in Hy'. injection Hy' as -> ->. split; [done|].
        apply Hiff.
        assert ((f, x) ∈ fs) as Hin by (by eapply list_elem_of_lookup_2).
        specialize (Hnil _ Hin). cbn beta iota zeta in Hnil, Hdx.
        rewrite Hnil in Hdx. by injection Hdx.
      + intros (_ & _ & Hdeep) [f x] [i Hi]%list_elem_of_lookup.
        destruct (Hfield i f x Hi) as (y & dx & Hy & Hdx & Hiff).
        cbn beta iota zeta in Hdx |- *. rewrite Hdx. f_equal. apply Hiff.
        by destruct (Hdeep i f x f y Hi Hy). }
  destruct a as [|b|z|str|t' [x|]|n fs|m|t' l]; try done; cbn [deref].
  - (* bool *)
    destruct t; try done. destruct e; try done.
    cbn [deref safeInterface IsValid DeepEqual].
    destruct (deepValueEqual _ _); cbn; by intros [= <-].
  - (* int *)
    destruct t; try done. destruct e; try done.
    cbn [deref safeInterface IsValid DeepEqual].
    destruct (deepValueEqual _ _); cbn; by intros [= <-].
  - (* string *)
    destruct t; try done. destruct e; try done.
    cbn [deref safeInterface IsValid DeepEqual].
    destruct (deepValueEqual _ _); cbn; by intros [= <-].
  - (* a pointer to a scalar or to a struct *)
    apply has_type_VPtr in Ha as (-> & Hpt & Hx).
    specialize (Hx _ eq_refl).
    apply has_type_TPtr in He as (p' & -> & _ & Hx').
    pose proof (pointee_shape _ _ _ Hpt Hx) as Hshape.
    assert (deepValueEqual (VPtr t' (Some x)) (VPtr t' p')
            = deepValueEqual x (deref (VPtr t' p'))) as Heq.
    { cbn. rewrite bool_decide_eq_true_2 by done.
      destruct p' as [y|]; [done|]. by destruct x. }
    rewrite Heq. cbn [walkable] in Hpl.
    destruct x as [|b|z|str| |n fs| |]; try done.
    + destruct p' as [y|]; unfold safeInterface; cbn [deref IsValid].
      * specialize (Hx' _ eq_refl). destruct t'; try done.
        destruct y; try done. cbn.
        destruct (bool_decide _); cbn; by intros [= <-].
      * cbn. by intros [= <-].
    + destruct p' as [y|]; unfold safeInterface; cbn [deref IsValid].
      * specialize (Hx' _ eq_refl). destruct t'; try done.
        destruct y; try done. cbn.
        destruct (bool_decide _); cbn; by intros [= <-].
      * cbn. by intros [= <-].
    + destruct p' as [y|]; unfold safeInterface; cbn [deref IsValid].
      * specialize (Hx' _ eq_refl). destruct t'; try done.
        destruct y; try done. cbn.
        destruct (bool_decide _); cbn; by intros [= <-].
      * cbn. by intros [= <-].
    + apply has_type_VStruct in Hx as [-> Hfs].
      apply Hloop; [done|done|cbn in Hh |- *; lia|].
      destruct p' as [x'|]; [right|by left]. cbn.
      specialize (Hx' _ eq_refl).
      apply has_type_TStruct in Hx' as (fs' & -> & Hfs'). by exists fs'.
  - (* a nil pointer *)
    apply has_type_VPtr in Ha as (-> & _ & _).
    apply has_type_TPtr in He as (p' & -> & _ & Hx').
    destruct p' as [y|]; unfold safeInterface; cbn [deref IsValid].
    + specialize (Hx' _ eq_refl). rewrite (has_type_valid _ _ _ Hx').
      cbn. rewrite andb_false_r. by intros [= <-].
    + cbn. rewrite bool_decide_eq_true_2 by done. by intros [= <-].
  - (* a struct *)
    apply has_type_VStruct in Ha as [-> Hfs].
    apply has_type_TStruct in He as (fs' & -> & Hfs').
    apply Hloop; [done|done|lia|]. right. by exists fs'.
Qed.

End detector_walkable.

Section detector_root.
Import reflect models detector.
Context (fm : Formatter) (ord : MapOrder) (d : Detector).
Context (decls : string → list (string * gotype)).
Context (decls_nodup : ∀ n, NoDup (decls n).*1).
Context (nothing_ignored : ∀ q, detector.ignored d q = false).

Lemma byGroupID_snoc sgs sg :
  byGroupID (sgs ++ [sg]) = <[SecurityGroup.GroupID sg := sg]> (byGroupID sgs).
Proof. unfold byGroupID. by rewrite foldl_app. Qed.

Lemma byGroupID_keyed sgs id sg :
  byGroupID sgs !! id = Some sg → SecurityGroup.GroupID sg = id.
Proof.
  revert id sg. induction sgs as [|x sgs IH] using rev_ind; intros id sg.
  - unfold byGroupID. cbn. by rewrite lookup_empty.
  - rewrite byGroupID_snoc, lookup_insert. case_decide; [|apply IH].
    by intros [= <-].
Qed.

Lemma groupDrift_None sgs sgs' id :
  groupDrift id (byGroupID sgs !! id) (byGroupID sgs' !! id) = None ↔
  byGroupID sgs !! id = byGroupID sgs' !! id.
Proof.
  destruct (byGroupID sgs !! id) as [a|] eqn:Ha,
    (byGroupID sgs' !! id) as [e|] eqn:He; cbn; try (split; done).
  apply byGroupID_keyed in Ha, He. case_decide as Hne.
  - split; [done|]. by intros [= ->].
  - split; [|done]. intros _. f_equal. destruct a, e. cbn in *.
    f_equal; [congruence|].
    destruct (decide (GroupName = GroupName0)); [done|by destruct Hne].
Qed.

Lemma compareSlices_SecurityGroups_nil_iff self sgs sgs' ds :
  detector.compareSlices fm ord self "SecurityGroups"
    (ValueOfSecurityGroups sgs) (ValueOfSecurityGroups sgs') = Ok ds →
  ds = [] ↔ byGroupID (default [] sgs) = byGroupID (default [] sgs').
Proof.
  destruct (compareSlices_SecurityGroups_drifts fm ord self sgs sgs')
    as (ds' & -> & Hds). intros [= <-]. split.
  - intros Hnil. apply map_eq. intros id. apply groupDrift_None.
    destruct (groupDrift _ _ _) as [drift|] eqn:Hk; [|done].
    assert (drift ∈ ds') as Hin by (apply Hds; eauto).
    rewrite Hnil in Hin. by apply elem_of_nil in Hin.
  - intros Heq. destruct ds' as [|drift ds'']; [done|].
    destruct (proj1 (Hds drift) ltac:(apply list_elem_of_here)) as [id Hk].
    by rewrite (proj2 (groupDrift_None _ _ id)) in Hk by by rewrite Heq.
Qed.

Lemma compareMaps_Tags_nil_iff m m' ds :
  detector.compareMaps fm ord "Tags" (VMap m) (VMap m') = Ok ds →
  ds = [] ↔ default ∅ m = default ∅ m'.
Proof.
  destruct (compareMaps_Tags_drifts fm ord m m') as (ds' & -> & _ & Hnil).
  by intros [= <-].
Qed.

(** Slices of pointers are compared as wholes. *)
Lemma compareSlices_pointers_nil_iff self p t l l' ds :
  p ≠ "SecurityGroups" →
  has_type decls (TSlice (TPtr t)) (VSlice (TPtr t) l) = true →
  detector.compareSlices fm ord self p (VSlice (TPtr t) l)
    (VSlice (TPtr t) l') = Ok ds →
  ds = [] ↔ default [] l = default [] l'.
Proof.
  intros Hp Hl. unfold detector.compareSlices. rewrite decide_False by done.
  cbn [Len mbind outcome_bind].
  destruct (default [] l) as [|x xs] eqn:Hxs,
    (default [] l') as [|y ys] eqn:Hys; cbn [length bool_decide andb].
  - rewrite !bool_decide_eq_true_2 by done. cbn. by intros [= <-].
  - rewrite bool_decide_eq_true_2, bool_decide_eq_false_2 by done.
    cbn. by intros [= <-].
  - rewrite bool_decide_eq_false_2 by done. cbn [andb].
    rewrite bool_decide_eq_true_2 by done. by intros [= <-].
  - rewrite !bool_decide_eq_false_2 by done. cbn [andb].
    destruct l as [xs0|]; [|done]. destruct l' as [ys0|]; [|done].
    cbn [default] in Hxs, Hys. unfold id in Hxs, Hys. subst xs0 ys0.
    cbn [Index default lookup list_lookup mbind outcome_bind]. unfold id.
    cbn [lookup list_lookup mbind outcome_bind].
    apply has_type_VSlice in Hl as [_ Hl].
    pose proof (Forall_inv (Hl _ eq_refl)) as Hx.
    apply has_type_TPtr in Hx as (px & -> & _).
    cbn [kind]. rewrite bool_decide_eq_false_2 by done.
    cbn [Interface mbind outcome_bind DeepEqual].
    destruct (deepValueEqual _ _) eqn:Heq; cbn; intros [= <-].
    + apply deepValueEqual_eq in Heq. split; [|done]. intros _.
      by simplify_eq.
    + split; [done|]. intros Heq'. rewrite Heq' in Heq.
      by rewrite deepValueEqual_refl in Heq.
Qed.

(** The walk over the fields of a configuration. *)
Lemma detector_root_nil_iff fuel n fs fs' ds :
  fields_typed decls fs (decls n) → fields_typed decls fs' (decls n) →
  (∀ f x, (f, x) ∈ fs → exported f = true ∧ shallow f x) →
  (∀ f y, (f, y) ∈ fs' → shallow f y) →
  height (VStruct n fs) ≤ fuel →
  detector.compareStruct fm ord (S fuel) d "" (VStruct n fs) (VStruct n fs')
  = Ok ds →
  ds = [] ↔
  ∀ i f x y, fs !! i = Some (f, x) → fs' !! i = Some (f, y) → agreeAt f x y.
Proof.
  intros Hfs Hfs' Hshape Hshape' Hh.
  cbn [detector.compareStruct IsValid negb andb deref kind].
  rewrite bool_decide_eq_true_2 by done.
  intros Hds. rewrite (forEach_nil_iff _ _ _ Hds).
  apply forEach_Ok_inv in Hds as [Hall _].
  assert (∀ i f x,
            fs !! i = Some (f, x) →
            ∃ y dx,
              fs' !! i = Some (f, y) ∧
              (if negb (exported f) then Ok []
               else
                 let fieldPath :=
                   (if decide ("" ≠ "") then "" +:+ "." else "") +:+ f in
                 if ignored d fieldPath then Ok []
                 else
                   expectedField ←
                     (if true then FieldByName (VStruct n fs') f
                      else Ok Invalid);
                   detector.compareStruct fm ord fuel d fieldPath x
                     expectedField) = Ok dx ∧
              (dx = [] ↔ agreeAt f x y)) as Hfield.
  { intros i f x Hi.
    destruct (fields_typed_same_place decls fs fs' (decls n) i f x)
      as (tg & y & Hx & Hi' & Hnamed & Hy); [done..|].
    assert ((f, x) ∈ fs) as Hin by (by eapply list_elem_of_lookup_2).
    assert ((f, y) ∈ fs') as Hin' by (by eapply list_elem_of_lookup_2).
    destruct (Hshape f x Hin) as [Hf Hsx].
    pose proof (Hshape' f y Hin') as Hsy.
    destruct (Hall _ Hin) as [dx Hdx]. cbn beta iota zeta in Hdx.
    exists y, dx. split; [done|]. split; [done|].
    rewrite Hf, nothing_ignored in Hdx. cbn [negb] in Hdx.
    rewrite decide_False in Hdx by (by intros ?).
    change ("" +:+ f) with f in Hdx.
    cbn [FieldByName Fields mbind outcome_bind] in Hdx.
    rewrite Hnamed in Hdx. cbn [default] in Hdx. unfold id in Hdx.
    pose proof (height_field n fs f x Hin) as Hhx.
    destruct fuel as [|fuel']; [lia|].
    assert (height x < S fuel') as Hhx' by lia.
    destruct x as [|b|z|str|t' px|n' fs0|m|t' l].
    - done.
    - destruct Hsx as (_ & _ & Hpl).
      rewrite (detector_compareStruct_walkable fm ord d decls decls_nodup
                 nothing_ignored _ _ _ _ _ _ Hx (or_intror Hy) Hpl
                 Hhx' Hdx).
      rewrite deepValueEqual_eq. by destruct y.
    - destruct Hsx as (_ & _ & Hpl).
      rewrite (detector_compareStruct_walkable fm ord d decls decls_nodup
                 nothing_ignored _ _ _ _ _ _ Hx (or_intror Hy) Hpl
                 Hhx' Hdx).
      rewrite deepValueEqual_eq. by destruct y.
    - destruct Hsx as (_ & _ & Hpl).
      rewrite (detector_compareStruct_walkable fm ord d decls decls_nodup
                 nothing_ignored _ _ _ _ _ _ Hx (or_intror Hy) Hpl
                 Hhx' Hdx).
      rewrite deepValueEqual_eq. by destruct y.
    - destruct Hsx as (_ & _ & Hpl).
      rewrite (detector_compareStruct_walkable fm ord d decls decls_nodup
                 nothing_ignored _ _ _ _ _ _ Hx (or_intror Hy) Hpl
                 Hhx' Hdx).
      rewrite deepValueEqual_eq. by destruct y.
    - destruct Hsx as (_ & _ & Hpl).
      rewrite (detector_compareStruct_walkable fm ord d decls decls_nodup
                 nothing_ignored _ _ _ _ _ _ Hx (or_intror Hy) Hpl
                 Hhx' Hdx).
      rewrite deepValueEqual_eq. by destruct y.
    - cbn in Hsx. subst f.
      apply has_type_VMap in Hx as ->. apply has_type_TMap in Hy as [m' ->].
      cbn [detector.compareStruct IsValid negb andb deref] in Hdx.
      cbn [agreeAt]. by apply compareMaps_Tags_nil_iff.
    - apply has_type_VSlice in Hx as [-> Hl].
      apply has_type_TSlice in Hy as (l' & -> & Hl').
      cbn [detector.compareStruct IsValid negb andb deref] in Hdx.
      cbn [shallow agreeAt] in Hsx, Hsy |- *. case_decide as Hsg.
      + subst f. destruct Hsx as [sgs Hsgs], Hsy as [sgs' Hsgs'].
        rewrite Hsgs, Hsgs' in Hdx |- *.
        rewrite !assertSecurityGroups_ValueOf. cbn [fst].
        by eapply compareSlices_SecurityGroups_nil_iff.
      + destruct Hsx as [t0 ->].
        eapply compareSlices_pointers_nil_iff; [done| |exact Hdx].
        apply has_type_VSlice. by split. }
  split.
  - intros Hnil i f x y Hi Hi'.
    destruct (Hfield i f x Hi) as (y' & dx & Hy' & Hdx & Hiff).
    rewrite Hi' in Hy'. injection Hy' as ->. apply Hiff.
    assert ((f, x) ∈ fs) as Hin by (by eapply list_elem_of_lookup_2).
    specialize (Hnil _ Hin). cbn beta iota zeta in Hnil, Hdx.
    rewrite Hnil in Hdx. by injection Hdx.
  - intros Hagree [f x] [i Hi]%list_elem_of_lookup.
    destruct (Hfield i f x Hi) as (y & dx & Hy & Hdx & Hiff).
    cbn beta iota zeta in Hdx |- *. rewrite Hdx. f_equal. apply Hiff.
    by eapply Hagree.
Qed.

End detector_root.

Section detector_configs_complete.
Import reflect models detector.

Lemma walkable_ptrBool o : walkable (ptrBool o) = true.
Proof. by destruct o. Qed.

Lemma walkable_ptrInt o : walkable (ptrInt o) = true.
Proof. by destruct o. Qed.

Lemma walkable_ptrTo {A} name (f : A → value) o :
  (∀ x, walkable (f x) = true) → walkable (ptrTo name f o) = true.
Proof. intros Hf. destruct o; [apply Hf|done]. Qed.

Lemma walkable_MetadataOptions m : walkable (ValueOfMetadataOptions m) = true.
Proof.
  unfold ValueOfMetadataOptions. cbn [walkable andb].
  rewrite walkable_ptrInt. reflexivity.
Qed.

Lemma ptrBool_inj o o' : ptrBool o = ptrBool o' → o = o'.
Proof. destruct o, o'; cbn; by intros [=]; subst. Qed.

Lemma ptrInt_inj o o' : ptrInt o = ptrInt o' → o = o'.
Proof. destruct o, o'; cbn; by intros [=]; subst. Qed.

Lemma fmap_VBool_inj (o o' : option bool) : VBool <$> o = VBool <$> o' → o = o'.
Proof. destruct o, o'; cbn; by intros [=]; subst. Qed.

Lemma fmap_VInt_inj (o o' : option Z) : VInt <$> o = VInt <$> o' → o = o'.
Proof. destruct o, o'; cbn; by intros [=]; subst. Qed.

Lemma ptrTo_inj {A} name (f : A → value) o o' :
  (∀ x y, f x = f y → x = y) → ptrTo name f o = ptrTo name f o' → o = o'.
Proof.
  intros Hf. destruct o, o'; cbn; intros [=]; [|done]. f_equal. by apply Hf.
Qed.

Lemma ptrSlice_inj {A} name (f : A → value) l l' :
  (∀ x y, f x = f y → x = y) →
  default [] (fmap (M:=list) (ptrTo name f) <$> l)
  = default [] (fmap (M:=list) (ptrTo name f) <$> l') →
  default [] l = default [] l'.
Proof.
  intros Hf.
  assert (∀ o : option (list (option A)),
            default [] (fmap (M:=list) (ptrTo name f) <$> o)
            = ptrTo name f <$> default [] o) as Hd by (by intros [?|]).
  rewrite !Hd. intros Heq.
  apply (list_fmap_eq_inj (ptrTo name f)); [|done].
  intros o o'. by apply ptrTo_inj.
Qed.

Lemma CreditSpecification_inj x y :
  ValueOfCreditSpecification x = ValueOfCreditSpecification y → x = y.
Proof. destruct x, y. cbn. by intros [= ->]. Qed.

Lemma HibernationOptions_inj x y :
  ValueOfHibernationOptions x = ValueOfHibernationOptions y → x = y.
Proof. destruct x, y. cbn. by intros [= ->]. Qed.

Lemma EnclaveOptions_inj x y :
  ValueOfEnclaveOptions x = ValueOfEnclaveOptions y → x = y.
Proof. destruct x, y. cbn. by intros [= ->]. Qed.

Lemma MetadataOptions_inj x y :
  ValueOfMetadataOptions x = ValueOfMetadataOptions y → x = y.
Proof.
  destruct x, y. unfold ValueOfMetadataOptions.
  cbn [MetadataOptions.HTTPEndpoint MetadataOptions.HTTPTokens
       MetadataOptions.HTTPPutResponseHopLimit
       MetadataOptions.InstanceMetadataTags].
  intros [= -> -> H%fmap_VInt_inj ->]. by subst.
Qed.

Lemma LaunchTemplateSpecification_inj x y :
  ValueOfLaunchTemplateSpecification x = ValueOfLaunchTemplateSpecification y →
  x = y.
Proof. destruct x, y. cbn. by intros [= -> -> ->]. Qed.

Lemma Timeouts_inj x y : ValueOfTimeouts x = ValueOfTimeouts y → x = y.
Proof. destruct x, y. cbn. by intros [= -> -> ->]. Qed.

Lemma EBSBlockDevice_inj x y :
  ValueOfEBSBlockDevice x = ValueOfEBSBlockDevice y → x = y.
Proof.
  destruct x, y. unfold ValueOfEBSBlockDevice.
  cbn [EBSBlockDevice.DeviceName EBSBlockDevice.SnapshotID
       EBSBlockDevice.VolumeType EBSBlockDevice.VolumeSize
       EBSBlockDevice.Iops EBSBlockDevice.DeleteOnTermination
       EBSBlockDevice.Encrypted EBSBlockDevice.KMSKeyID
       EBSBlockDevice.Throughput].
  intros [= -> -> -> H1%fmap_VInt_inj H2%fmap_VInt_inj H3%fmap_VBool_inj
            H4%fmap_VBool_inj -> H5%fmap_VInt_inj]. by subst.
Qed.

Lemma EphemeralBlockDevice_inj x y :
  ValueOfEphemeralBlockDevice x = ValueOfEphemeralBlockDevice y → x = y.
Proof.
  destruct x, y. unfold ValueOfEphemeralBlockDevice.
  cbn [EphemeralBlockDevice.DeviceName EphemeralBlockDevice.NoDevice
       EphemeralBlockDevice.VirtualName].
  intros [= -> H%fmap_VBool_inj ->]. by subst.
Qed.

Lemma NetworkInterface_inj x y :
  ValueOfNetworkInterface x = ValueOfNetworkInterface y → x = y.
Proof.
  destruct x, y. unfold ValueOfNetworkInterface.
  cbn [NetworkInterface.DeviceIndex NetworkInterface.NetworkInterfaceID
       NetworkInterface.DeleteOnTermination
       NetworkInterface.NetworkCardIndex].
  intros [= -> -> H%fmap_VBool_inj ->]. by subst.
Qed.

(** The fields of a configuration have the shapes the walk expects. *)
Lemma ValueOf_fields_shallow c n fs :
  models.ValueOf c = VStruct n fs →
  ∀ f x, (f, x) ∈ fs → exported f = true ∧ shallow f x.
Proof.
  intros [= <- <-] f x Hin.
  repeat (apply elem_of_cons in Hin as [[= -> ->]|Hin];
          [split; [reflexivity|];
           first [ reflexivity
                 | by (split; [|split]; [by intros [=]..|reflexivity])
                 | by (split; [|split];
                        [by intros [=]..|apply walkable_ptrBool])
                 | by (split; [|split];
                        [by intros [=]..|apply walkable_ptrInt])
                 | by (split; [|split];
                        [by intros [=]..
                        |apply walkable_ptrTo; by intros []])
                 | by (split; [|split];
                        [by intros [=]..
                        |apply walkable_ptrTo; apply walkable_MetadataOptions])
                 | by (cbn; eexists) ]
          |]).
  by apply elem_of_nil in Hin.
Qed.

End detector_configs_complete.

Section detector_agree.
Import reflect models detector.

Lemma agreeAt_ptrBool f o o' : agreeAt f (ptrBool o) (ptrBool o') ↔ o = o'.
Proof. split; [apply ptrBool_inj|by intros ->]. Qed.

Lemma agreeAt_ptrInt f o o' : agreeAt f (ptrInt o) (ptrInt o') ↔ o = o'.
Proof. split; [apply ptrInt_inj|by intros ->]. Qed.

Lemma agreeAt_ptrTo {A} f name (g : A → value) o o' :
  (∀ x y, g x = g y → x = y) →
  agreeAt f (ptrTo name g o) (ptrTo name g o') ↔ o = o'.
Proof. intros Hg. split; [by apply ptrTo_inj|by intros ->]. Qed.

Lemma agreeAt_SecurityGroups sgs sgs' :
  agreeAt "SecurityGroups" (ValueOfSecurityGroups sgs)
    (ValueOfSecurityGroups sgs') ↔
  byGroupID (default [] sgs) = byGroupID (default [] sgs').
Proof.
  unfold agreeAt, ValueOfSecurityGroups. rewrite decide_True by done.
  fold (ValueOfSecurityGroups sgs). fold (ValueOfSecurityGroups sgs').
  by rewrite !assertSecurityGroups_ValueOf.
Qed.

Lemma agreeAt_ptrSlice {A} f name (g : A → value) l l' :
  f ≠ "SecurityGroups" → (∀ x y, g x = g y → x = y) →
  agreeAt f (ptrSlice name g l) (ptrSlice name g l') ↔
  default [] l = default [] l'.
Proof.
  intros Hf Hg. unfold agreeAt, ptrSlice. rewrite decide_False by done.
  split; [by apply ptrSlice_inj|].
  assert (∀ o : option (list (option A)),
            default [] (fmap (M:=list) (ptrTo name g) <$> o)
            = ptrTo name g <$> default [] o) as Hd by (by intros [?|]).
  rewrite !Hd. by intros ->.
Qed.

Lemma agree_fields a e :
  (∀ i f x y,
     match ValueOf a with VStruct _ fs => fs | _ => [] end !! i
     = Some (f, x) →
     match ValueOf e with VStruct _ fs => fs | _ => [] end !! i
     = Some (f, y) →
     agreeAt f x y) ↔
  agree a e.
Proof.
  destruct a, e. unfold ValueOf, agree, withoutCollections.
  cbn [InstanceConfig.InstanceID InstanceConfig.InstanceType
    InstanceConfig.AMI InstanceConfig.KeyName InstanceConfig.Tags
    InstanceConfig.VPCID InstanceConfig.SubnetID
    InstanceConfig.SecurityGroups InstanceConfig.PublicIPAddress
    InstanceConfig.PrivateIPAddress InstanceConfig.AssociatePublicIPAddress
    InstanceConfig.SourceDestCheck InstanceConfig.PrivateDNSName
    InstanceConfig.PublicDNSName InstanceConfig.RootVolumeSize
    InstanceConfig.RootVolumeType InstanceConfig.RootVolumeIops
    InstanceConfig.RootVolumeThroughput InstanceConfig.RootVolumeEncrypted
    InstanceConfig.RootVolumeKMSKeyID InstanceConfig.EBSOptimized
    InstanceConfig.IAMInstanceProfile InstanceConfig.Monitoring
    InstanceConfig.AvailabilityZone InstanceConfig.Tenancy
    InstanceConfig.HostID InstanceConfig.PlacementGroup
    InstanceConfig.CPUCoreCount InstanceConfig.CPUThreadsPerCore
    InstanceConfig.CreditSpecification InstanceConfig.Hibernation
    InstanceConfig.EnclaveOptions InstanceConfig.UserData
    InstanceConfig.MetadataOptions InstanceConfig.DisableAPITermination
    InstanceConfig.InstanceInitiatedShutdownBehavior
    InstanceConfig.LaunchTemplate InstanceConfig.Timeouts
    InstanceConfig.EBSBlockDevices InstanceConfig.EphemeralBlockDevices
    InstanceConfig.NetworkInterfaces].
  split.
  - intros Hall.
    pose proof (Hall 0 _ _ _ eq_refl eq_refl) as H0.
    pose proof (Hall 1 _ _ _ eq_refl eq_refl) as H1.
    pose proof (Hall 2 _ _ _ eq_refl eq_refl) as H2.
    pose proof (Hall 3 _ _ _ eq_refl eq_refl) as H3.
    pose proof (Hall 4 _ _ _ eq_refl eq_refl) as H4.
    pose proof (Hall 5 _ _ _ eq_refl eq_refl) as H5.
    pose proof (Hall 6 _ _ _ eq_refl eq_refl) as H6.
    pose proof (Hall 7 _ _ _ eq_refl eq_refl) as H7.
    pose proof (Hall 8 _ _ _ eq_refl eq_refl) as H8.
    pose proof (Hall 9 _ _ _ eq_refl eq_refl) as H9.
    pose proof (Hall 10 _ _ _ eq_refl eq_refl) as H10.
    pose proof (Hall 11 _ _ _ eq_refl eq_refl) as H11.
    pose proof (Hall 12 _ _ _ eq_refl eq_refl) as H12.
    pose proof (Hall 13 _ _ _ eq_refl eq_refl) as H13.
    pose proof (Hall 14 _ _ _ eq_refl eq_refl) as H14.
    pose proof (Hall 15 _ _ _ eq_refl eq_refl) as H15.
    pose proof (Hall 16 _ _ _ eq_refl eq_refl) as H16.
    pose proof (Hall 17 _ _ _ eq_refl eq_refl) as H17.
    pose proof (Hall 18 _ _ _ eq_refl eq_refl) as H18.
    pose proof (Hall 19 _ _ _ eq_refl eq_refl) as H19.
    pose proof (Hall 20 _ _ _ eq_refl eq_refl) as H20.
    pose proof (Hall 21 _ _ _ eq_refl eq_refl) as H21.
    pose proof (Hall 22 _ _ _ eq_refl eq_refl) as H22.
    pose proof (Hall 23 _ _ _ eq_refl eq_refl) as H23.
    pose proof (Hall 24 _ _ _ eq_refl eq_refl) as H24.
    pose proof (Hall 25 _ _ _ eq_refl eq_refl) as H25.
    pose proof (Hall 26 _ _ _ eq_refl eq_refl) as H26.
    pose proof (Hall 27 _ _ _ eq_refl eq_refl) as H27.
    pose proof (Hall 28 _ _ _ eq_refl eq_refl) as H28.
    pose proof (Hall 29 _ _ _ eq_refl eq_refl) as H29.
    pose proof (Hall 30 _ _ _ eq_refl eq_refl) as H30.
    pose proof (Hall 31 _ _ _ eq_refl eq_refl) as H31.
    pose proof (Hall 32 _ _ _ eq_refl eq_refl) as H32.
    pose proof (Hall 33 _ _ _ eq_refl eq_refl) as H33.
    pose proof (Hall 34 _ _ _ eq_refl eq_refl) as H34.
    pose proof (Hall 35 _ _ _ eq_refl eq_refl) as H35.
    pose proof (Hall 36 _ _ _ eq_refl eq_refl) as H36.
    pose proof (Hall 37 _ _ _ eq_refl eq_refl) as H37.
    pose proof (Hall 38 _ _ _ eq_refl eq_refl) as H38.
    pose proof (Hall 39 _ _ _ eq_refl eq_refl) as H39.
    pose proof (Hall 40 _ _ _ eq_refl eq_refl) as H40.
    clear Hall.
    apply (proj1 (agreeAt_SecurityGroups _ _)) in H7.
    apply agreeAt_ptrBool in H10, H11, H18, H20, H22, H34.
    apply agreeAt_ptrInt in H27, H28.
    apply agreeAt_ptrTo in H29; [|apply CreditSpecification_inj].
    apply agreeAt_ptrTo in H30; [|apply HibernationOptions_inj].
    apply agreeAt_ptrTo in H31; [|apply EnclaveOptions_inj].
    apply agreeAt_ptrTo in H33; [|apply MetadataOptions_inj].
    apply agreeAt_ptrTo in H36; [|apply LaunchTemplateSpecification_inj].
    apply agreeAt_ptrTo in H37; [|apply Timeouts_inj].
    apply agreeAt_ptrSlice in H38; [|done|apply EBSBlockDevice_inj].
    apply agreeAt_ptrSlice in H39; [|done|apply EphemeralBlockDevice_inj].
    apply agreeAt_ptrSlice in H40; [|done|apply NetworkInterface_inj].
    cbn [agreeAt] in H0, H1, H2, H3, H4, H5, H6, H8, H9, H12, H13, H14, H15,
      H16, H17, H19, H21, H23, H24, H25, H26, H32, H35.
    simplify_eq. done.
  - intros (Hrest & Htags & Hsgs & Hebs & Heph & Hnics).
    injection Hrest as -> -> -> -> -> -> -> -> -> -> -> -> -> -> -> -> ->
      -> -> -> -> -> -> -> -> -> -> -> -> -> -> -> -> -> -> ->.
    intros i f x y Hi Hi'.
    do 41 (destruct i as [|i];
           [cbn [lookup list_lookup] in Hi, Hi';
            simplify_eq;
            first [ done
                  | by apply agreeAt_SecurityGroups
                  | by apply agreeAt_ptrSlice;
                      [done
                      |first [ apply EBSBlockDevice_inj
                             | apply EphemeralBlockDevice_inj
                             | apply NetworkInterface_inj ]
                      |done] ]|]).
    done.
Qed.

(** X12.  The detector misses no difference and reports none that is not
    there: with no field ignored, [DetectDrift] finds no drift between
    two configurations exactly when they are equal outside their
    collections, their [Tags] hold the same entries, their
    [SecurityGroups] give the same index by group ID, and their block
    devices and network interfaces are the same lists, a nil map or slice
    counting as an empty one. *)
Theorem DetectDrift_no_drift_iff fm ord (a e : InstanceConfig.t) :
  ∃ r,
    detector.DetectDrift fm ord NewDetector (Some a) (Some e) = Ok r ∧
    (HasDrift r = false ↔ agree a e) ∧
    (Drifts r = [] ↔ agree a e).
Proof.
  unfold detector.DetectDrift.
  destruct (compareStruct_configs_total fm ord NewDetector a e) as [ds Hds].
  rewrite Hds. cbn [mbind outcome_bind]. eexists. split; [done|].
  cbn [HasDrift Drifts app].
  assert (ds = [] ↔ agree a e) as Hiff.
  { rewrite <- agree_fields.
    pose proof (ValueOf_typed a) as Ha. pose proof (ValueOf_typed e) as He.
    pose proof (ValueOf_fields_shallow a) as Hsa.
    pose proof (ValueOf_fields_shallow e) as Hse.
    destruct (models.ValueOf a) as [| | | | |n fs| |] eqn:Hva; try done.
    destruct (models.ValueOf e) as [| | | | |n' fs'| |] eqn:Hve; try done.
    apply has_type_VStruct in Ha as [[= <-] Hfs].
    apply has_type_VStruct in He as [[= <-] Hfs'].
    eapply (detector_root_nil_iff fm ord NewDetector models.fieldsOf
              fieldsOf_NoDup); [done|exact Hfs|exact Hfs'| | | |exact Hds].
    - intros f x. by apply (Hsa _ _ eq_refl).
    - intros f y Hin. by apply (Hse _ _ eq_refl f y).
    - done. }
  split; [|done]. rewrite <- Hiff. destruct ds; cbn; [done|].
  split; [|done]. rewrite bool_decide_eq_false. lia.
Qed.

End detector_agree.
